(** * use-prms: typed state synchronised with the URL

    A shallow embedding of the base64url utilities and [binaryParam], and
    of the hooks of [src/useUrlState.ts] (snapshot store, causality
    tracking, pending-write buffer, debounce, write committer), followed
    by the properties the specification states about them. *)

From Stdlib Require Import ZArith Lia List String Ascii.
From Stdlib.Strings Require Import Byte.
From stdpp Require Import base option list gmap strings.

Local Open Scope Z_scope.

(** ** JavaScript 32-bit integer operators *)

Module JsInt.

(** [ToInt32]: wrap a mathematical integer into [-2^31, 2^31). *)
Definition toInt32 (z : Z) : Z := (z + 2 ^ 31) mod 2 ^ 32 - 2 ^ 31.

(** [a << n]: the shift count is masked to five bits. *)
Definition shl (a n : Z) : Z := toInt32 (Z.shiftl (toInt32 a) (Z.land n 31)).

(** [a >> n] (sign-propagating). *)
Definition sar (a n : Z) : Z := Z.shiftr (toInt32 a) (Z.land n 31).

(** [a | b] and [a & b]. *)
Definition or (a b : Z) : Z := Z.lor (toInt32 a) (toInt32 b).
Definition and (a b : Z) : Z := Z.land (toInt32 a) (toInt32 b).

End JsInt.

(** ** base64url ([base64Encode], [base64Decode]) *)

Module Base64.

(** JavaScript strings are modelled as lists of characters, so that
    [str[i]] is list lookup and [+=] is concatenation. *)

Definition BASE64_CHARS : list ascii :=
  list_ascii_of_string
    "ABCDEFGHIJKLMNOPQRSTUVWXYZabcdefghijklmnopqrstuvwxyz0123456789-_".

(** [new Map(BASE64_CHARS.split('').map((c, i) => [c, i]))]: entries are
    inserted left to right, a later entry overriding an earlier one. *)
Definition BASE64_LOOKUP : gmap ascii Z :=
  fold_left (fun m ci => <[ci.1 := ci.2]> m)
            (imap (fun i c => (c, Z.of_nat i)) BASE64_CHARS) ∅.

(** [bytes[i] ?? 0] on a [Uint8Array]. *)
Definition byte_or0 (bytes : list byte) (i : nat) : Z :=
  match bytes !! i with
  | Some b => Z.of_N (Byte.to_N b)
  | None => 0
  end.

(** [BASE64_CHARS[k]] as appended by [result += ...]; an absent index
    would append the text of [undefined]. *)
Definition alphabet_char (k : Z) : list ascii :=
  if k <? 0 then list_ascii_of_string "undefined"
  else match BASE64_CHARS !! Z.to_nat k with
       | Some c => [c]
       | None => list_ascii_of_string "undefined"
       end.

(** The [while (i < bytes.length)] loop of [base64Encode]; [fuel] bounds
    the number of iterations. *)
Fixpoint encode_loop (fuel : nat) (bytes : list byte) (i : nat)
    (result : list ascii) : list ascii :=
  match fuel with
  | O => result
  | S fuel' =>
    if (i <? length bytes)%nat then
      let b0 := byte_or0 bytes i in
      let b1 := byte_or0 bytes (i + 1) in
      let b2 := byte_or0 bytes (i + 2) in
      let i := (i + 3)%nat in
      let n := JsInt.or (JsInt.or (JsInt.shl b0 16) (JsInt.shl b1 8)) b2 in
      let result := result ++ alphabet_char (JsInt.and (JsInt.sar n 18) 63) in
      let result := result ++ alphabet_char (JsInt.and (JsInt.sar n 12) 63) in
      let result :=
        if (i - 2 <? length bytes)%nat
        then result ++ alphabet_char (JsInt.and (JsInt.sar n 6) 63)
        else result in
      let result :=
        if (i - 1 <? length bytes)%nat
        then result ++ alphabet_char (JsInt.and n 63)
        else result in
      encode_loop fuel' bytes i result
    else result
  end.

(** Every iteration advances [i] by three, so [length bytes] iterations
    always suffice. *)
Definition base64Encode (bytes : list byte) : list ascii :=
  encode_loop (length bytes) bytes 0 [].

(** [str.replace(/=+$/, '')]: drop the trailing run of ['=']. *)
Fixpoint strip_padding (str : list ascii) : list ascii :=
  match str with
  | [] => []
  | c :: rest =>
    match strip_padding rest with
    | [] => if Ascii.eqb c "="%char then [] else [c]
    | r => c :: r
    end
  end.

(** [BASE64_LOOKUP.get(str[i]) ?? 0]. *)
Definition lookup_or0 (str : list ascii) (i : nat) : Z :=
  match str !! i with
  | Some c => default 0 (BASE64_LOOKUP !! c)
  | None => 0
  end.

(** [new Uint8Array(bytes)]: each number is reduced modulo 256. *)
Definition toUint8 (z : Z) : byte :=
  default x00 (Byte.of_N (Z.to_N (z mod 256))).

(** The [for (let i = 0; i < str.length; i += 4)] loop of [base64Decode]. *)
Fixpoint decode_loop (fuel : nat) (str : list ascii) (i : nat)
    (bytes : list Z) : list Z :=
  match fuel with
  | O => bytes
  | S fuel' =>
    if (i <? length str)%nat then
      let c0 := lookup_or0 str i in
      let c1 := lookup_or0 str (i + 1) in
      let c2 := if (i + 2 <? length str)%nat then lookup_or0 str (i + 2) else 0 in
      let c3 := if (i + 3 <? length str)%nat then lookup_or0 str (i + 3) else 0 in
      let n := JsInt.or (JsInt.or (JsInt.or (JsInt.shl c0 18) (JsInt.shl c1 12))
                                  (JsInt.shl c2 6)) c3 in
      let bytes := bytes ++ [JsInt.and (JsInt.sar n 16) 255] in
      let bytes :=
        if (i + 2 <? length str)%nat
        then bytes ++ [JsInt.and (JsInt.sar n 8) 255] else bytes in
      let bytes :=
        if (i + 3 <? length str)%nat
        then bytes ++ [JsInt.and n 255] else bytes in
      decode_loop fuel' str (i + 4) bytes
    else bytes
  end.

Definition base64Decode (str : list ascii) : list byte :=
  let str := strip_padding str in
  toUint8 <$> decode_loop (length str) str 0 [].

End Base64.

(** Group-wise descriptions of the two loops, used to reason about them:
    [enc] consumes three bytes per step, [dec] four characters. *)

Module Base64Groups.
Import Base64.

Definition sextet_char (k : Z) : ascii := default "A"%char (BASE64_CHARS !! Z.to_nat k).

Definition enc_group (b0 b1 b2 : Z) (have : nat) : list ascii :=
  let n := b0 * 65536 + b1 * 256 + b2 in
  [sextet_char (n / 262144 mod 64); sextet_char (n / 4096 mod 64)]
  ++ (if (2 <=? have)%nat then [sextet_char (n / 64 mod 64)] else [])
  ++ (if (3 <=? have)%nat then [sextet_char (n mod 64)] else []).

Definition bz (b : byte) : Z := Z.of_N (Byte.to_N b).

Fixpoint enc (l : list byte) : list ascii :=
  match l with
  | [] => []
  | [a] => enc_group (bz a) 0 0 1
  | [a; b] => enc_group (bz a) (bz b) 0 2
  | a :: b :: c :: rest => enc_group (bz a) (bz b) (bz c) 3 ++ enc rest
  end.

Definition lk (c : ascii) : Z := default 0 (BASE64_LOOKUP !! c).

Definition dec_group (c0 c1 c2 c3 : Z) (have : nat) : list Z :=
  let n := c0 * 262144 + c1 * 4096 + c2 * 64 + c3 in
  [n / 65536 mod 256]
  ++ (if (3 <=? have)%nat then [n / 256 mod 256] else [])
  ++ (if (4 <=? have)%nat then [n mod 256] else []).

Fixpoint dec (s : list ascii) : list Z :=
  match s with
  | [] => []
  | [x] => dec_group (lk x) 0 0 0 1
  | [x; y] => dec_group (lk x) (lk y) 0 0 2
  | [x; y; z] => dec_group (lk x) (lk y) (lk z) 0 3
  | x :: y :: z :: w :: rest => dec_group (lk x) (lk y) (lk z) (lk w) 4 ++ dec rest
  end.

End Base64Groups.


(** ** [binaryParam]: a codec over a binary representation *)

Module BinaryParam.

(** Outcome of a JavaScript call: a value, or a thrown exception. *)
Inductive result (A : Type) : Type :=
  | Return (a : A)
  | Throw (e : string).
Arguments Return {A} a.
Arguments Throw {A} e.

Definition bind {A B} (r : result A) (k : A -> result B) : result B :=
  match r with
  | Return a => k a
  | Throw e => Throw e
  end.

(** [try { body } catch { handler }]. *)
Definition try_catch {A} (body : result A) (handler : result A) : result A :=
  match body with
  | Return a => Return a
  | Throw _ => handler
  end.

Record BinaryParamOptions (T : Type) : Type := {
  toBytes : T -> result (list byte);
  fromBytes : list byte -> result T;
}.
Arguments toBytes {T} _ _.
Arguments fromBytes {T} _ _.

(** [Param<T>] whose methods may throw; [undefined] is [None]. *)
Record Param (A : Type) : Type := {
  encode : A -> result (option (list ascii));
  decode : option (list ascii) -> result A;
}.
Arguments encode {A} _ _.
Arguments decode {A} _ _.

(** [binaryParam], with the base64 decoder it calls taken as an argument;
    [null] is [None] in [T | null]. *)
Definition binaryParamWith {T} (decoder : list ascii -> result (list byte))
    (options : BinaryParamOptions T) : Param (option T) := {|
  encode := fun value =>
    match value with
    | None => Return None
    | Some v =>
      bind (toBytes options v) (fun bytes =>
        if (length bytes =? 0)%nat then Return None
        else Return (Some (Base64.base64Encode bytes)))
    end;
  decode := fun encoded =>
    match encoded with
    | None => Return None
    | Some [] => Return None
    | Some str =>
      try_catch
        (bind (decoder str) (fun bytes =>
           bind (fromBytes options bytes) (fun v => Return (Some v))))
        (Return None)
    end;
|}.

(** [base64Decode] as a call: it returns on every string. *)
Definition base64Decode_call (str : list ascii) : result (list byte) :=
  Return (Base64.base64Decode str).

Definition binaryParam {T} (options : BinaryParamOptions T) : Param (option T) :=
  binaryParamWith base64Decode_call options.

End BinaryParam.

(** ** Shared pieces of [useUrlState.ts] *)

(** [MultiEncoded = string[]]; a parsed location is a finite map from
    keys to such lists (own properties of a plain object). *)
Abbreviation MultiEncoded := (list string).
Abbreviation Params := (gmap string (list string)).

(** The [LocationStrategy] interface.  Its methods read [window.location];
    here they take the current URL as an argument.  [subscribe] only
    schedules re-renders, which the model treats as events. *)
Record LocationStrategy : Type := {
  getRaw : string -> string;
  parse : string -> Params;
  buildUrl : string -> Params -> string;
}.

Definition singleToMulti (encoded : option string) : MultiEncoded :=
  match encoded with
  | None => []
  | Some e => [e]
  end.

Definition multiToSingle (multi : MultiEncoded) : option string :=
  if (length multi =? 0)%nat then None else multi !! 0%nat.

(** [a.every((v, i) => p(v, i))], scanning from index [i]. *)
Fixpoint every_from {A} (p : A -> nat -> bool) (i : nat) (a : list A) : bool :=
  match a with
  | [] => true
  | v :: a' => p v i && every_from p (S i) a'
  end.

Definition arraysEqual (a b : list string) : bool :=
  (length a =? length b)%nat
  && every_from (fun v i => bool_decide (b !! i = Some v)) 0 a.

(** *** The snapshot store *)

Section SnapshotStore.
Context {StrategyRef : Type} `{Countable StrategyRef}.
(** Strategies are objects; [impl] gives the methods of each. *)
Variable impl : StrategyRef -> LocationStrategy.

(** A parsed object together with its identity. *)
Record Snapshot : Type := {
  addr : nat;
  fields : Params;
}.

Record Cached : Type := {
  cachedRaw : string;
  cachedSnapshot : Snapshot;
}.

(** [snapshotCache] (a [WeakMap] keyed by strategy) and the allocator
    from which [parse()] takes its fresh result object. *)
Record Store : Type := {
  snapshotCache : gmap StrategyRef Cached;
  nextAddr : nat;
}.

Definition emptyStore : Store := {| snapshotCache := ∅; nextAddr := 0 |}.

(** [strategy.parse()]: a new object on every call. *)
Definition callParse (strategy : StrategyRef) (url : string) (st : Store)
    : Snapshot * Store :=
  ({| addr := nextAddr st; fields := parse (impl strategy) url |},
   {| snapshotCache := snapshotCache st; nextAddr := S (nextAddr st) |}).

Definition getSnapshot (strategy : StrategyRef) (url : string) (st : Store)
    : Snapshot * Store :=
  let raw := getRaw (impl strategy) url in
  let cached := snapshotCache st !! strategy in
  let refresh :=
    let '(snapshot, st) := callParse strategy url st in
    (snapshot,
     {| snapshotCache :=
          <[strategy := {| cachedRaw := raw; cachedSnapshot := snapshot |}]>
            (snapshotCache st);
        nextAddr := nextAddr st |}) in
  match cached with
  | Some c => if decide (cachedRaw c = raw) then (cachedSnapshot c, st) else refresh
  | None => refresh
  end.

(** What a call that has to parse returns, and the store it leaves. *)
Definition parsedSnapshot (s : StrategyRef) (url : string) (st : Store) : Snapshot :=
  {| addr := nextAddr st; fields := parse (impl s) url |}.

Definition refreshedStore (s : StrategyRef) (url : string) (st : Store) : Store :=
  {| snapshotCache :=
       <[s := {| cachedRaw := getRaw (impl s) url;
                 cachedSnapshot := parsedSnapshot s url st |}]> (snapshotCache st);
     nextAddr := S (nextAddr st) |}.
End SnapshotStore.

Arguments Store StrategyRef {_ _}.
Arguments emptyStore {StrategyRef _ _}.

(** *** The browser: location, history, clock and timer queue *)

Section Browser.
Context {StrategyRef : Type} `{Countable StrategyRef}.
(** [A] is the type of the arguments a pending timer callback holds. *)
Context {A : Type}.

Record Timer : Type := {
  timerId : positive;
  due : nat;
  timerArgs : A;
}.

Record World : Type := {
  hasWindow : bool;                  (* [typeof window !== 'undefined'] *)
  href : string;                     (* [window.location.href] *)
  store : Store StrategyRef;         (* module-level [snapshotCache] *)
  now : nat;                         (* clock, in ms *)
  timers : list Timer;               (* callbacks scheduled by [setTimeout] *)
  nextTimerId : positive;
  historyCalls : list (bool * string); (* [pushState] (true) / [replaceState] calls *)
  popstates : nat;                   (* dispatched [popstate] events *)
}.

Definition withStore (st : Store StrategyRef) (w : World) : World :=
  {| hasWindow := hasWindow w; href := href w; store := st; now := now w;
     timers := timers w; nextTimerId := nextTimerId w;
     historyCalls := historyCalls w; popstates := popstates w |}.

Definition withTimers (ts : list Timer) (w : World) : World :=
  {| hasWindow := hasWindow w; href := href w; store := store w; now := now w;
     timers := ts; nextTimerId := nextTimerId w;
     historyCalls := historyCalls w; popstates := popstates w |}.

(** [setTimeout(cb, ms)]: the handle is a positive integer. *)
Definition setTimeout (args : A) (ms : nat) (w : World) : positive * World :=
  let id := nextTimerId w in
  (id,
   {| hasWindow := hasWindow w; href := href w; store := store w; now := now w;
      timers := timers w ++ [{| timerId := id; due := now w + ms; timerArgs := args |}];
      nextTimerId := Pos.succ id;
      historyCalls := historyCalls w; popstates := popstates w |}).

Definition clearTimeout (id : positive) (w : World) : World :=
  withTimers (filter (fun t => timerId t <> id) (timers w)) w.

(** [window.history[method](state, '', newUrl)] followed by
    [window.dispatchEvent(new PopStateEvent('popstate'))]. *)
Definition historyWrite (push : bool) (newUrl : string) (w : World) : World :=
  {| hasWindow := hasWindow w; href := newUrl; store := store w; now := now w;
     timers := timers w; nextTimerId := nextTimerId w;
     historyCalls := historyCalls w ++ [(push, newUrl)];
     popstates := S (popstates w) |}.

(** Something other than the hook changes the location. *)
Definition navigate (url : string) (w : World) : World :=
  {| hasWindow := hasWindow w; href := url; store := store w; now := now w;
     timers := timers w; nextTimerId := nextTimerId w;
     historyCalls := historyCalls w; popstates := popstates w |}.

Definition tick (dt : nat) (w : World) : World :=
  {| hasWindow := hasWindow w; href := href w; store := store w; now := now w + dt;
     timers := timers w; nextTimerId := nextTimerId w;
     historyCalls := historyCalls w; popstates := popstates w |}.

(** *** [debounce(fn, ms)] *)

(** The closure variable of one debounced function. *)
Record Debounced : Type := { timeoutId : option positive }.

(** [debounce(fn, ms)]: a new debounced function, no timer armed. *)
Definition debounce : Debounced := {| timeoutId := None |}.

(** Calling the debounced function. *)
Definition debouncedCall (ms : nat) (args : A) (d : Debounced) (w : World)
    : Debounced * World :=
  let w := match timeoutId d with
           | Some id => clearTimeout id w
           | None => w
           end in
  let '(id, w) := setTimeout args ms w in
  ({| timeoutId := Some id |}, w).

(** [debounced.cancel()]. *)
Definition debouncedCancel (d : Debounced) (w : World) : Debounced * World :=
  match timeoutId d with
  | Some id => ({| timeoutId := None |}, clearTimeout id w)
  | None => (d, w)
  end.

(** [ref.current?.cancel()]. *)
Definition cancelRef (r : option Debounced) (w : World) : option Debounced * World :=
  match r with
  | Some d => let '(d, w) := debouncedCancel d w in (Some d, w)
  | None => (None, w)
  end.

(** A browser that has just loaded [url]. *)
Definition initialWorld (url : string) : World :=
  {| hasWindow := true; href := url; store := emptyStore; now := 0; timers := [];
     nextTimerId := 1%positive; historyCalls := []; popstates := 0 |}.

(** A debounced function with no timer armed. *)
Definition idle (r : option Debounced) : option Debounced :=
  match r with
  | Some _ => Some {| timeoutId := None |}
  | None => None
  end.

(** The event loop after [dt] ms: the timers then due leave the queue
    and their callbacks run, oldest first.  [callback] is what a timer
    of the hook (of state [S]) runs. *)
Definition fireDue {S : Type} (callback : A -> S * World -> S * World)
    (dt : nat) (c : S * World) : S * World :=
  let '(h, w) := c in
  let w := tick dt w in
  let dueNow := filter (fun t => (due t <= now w)%nat) (timers w) in
  let w := withTimers (filter (fun t => ~ (due t <= now w)%nat) (timers w)) w in
  fold_left (fun c t => callback (timerArgs t) c) dueNow (h, w).
End Browser.

Arguments Timer A : clear implicits.
Arguments World StrategyRef {_ _} A.

(** [Param<T>] as the hooks use it: pure [encode] and [decode];
    [undefined] is [None]. *)
Record Param (T : Type) : Type := {
  encode : T -> option string;
  decode : option string -> T;
}.
Arguments encode {T} _ _.
Arguments decode {T} _ _.

(** ** [useUrlState]: one single-valued key *)

Module UrlState.
Section Hook.
Context {StrategyRef : Type} `{Countable StrategyRef}.
Variable impl : StrategyRef -> LocationStrategy.
(** [getDefaultStrategy()]. *)
Variable strategy : StrategyRef.

Context {T : Type}.
(** Codec objects are compared by identity ([cacheRef.current.param !== param]);
    [methods] gives the methods of each. *)
Context {ParamRef : Type} `{EqDecision ParamRef}.
Variable methods : ParamRef -> Param T.

(** The arguments of the hook other than [param]. *)
Variable key : string.
Variable debounceMs : nat.
Variable push : bool.

Record LastWritten : Type := {
  lwEncoded : option string;
  lwDecoded : T;
}.

Record Pending : Type := {
  pendingDecoded : T;
  prevRaw : string;
}.

Record DecodeCache : Type := {
  cacheEncoded : option string;
  cacheParam : ParamRef;
  cacheDecoded : T;
}.

(** The refs of one hook instance. *)
Record Hook : Type := {
  paramRef : ParamRef;
  forceUpdates : nat;
  lastWrittenRef : option LastWritten;
  pendingRef : option Pending;
  debouncedWriteRef : option Debounced;
  cacheRef : option DecodeCache;
}.

(** The debounced function is called with [(newValue, newEncoded)]. *)
Abbreviation Args := (T * option string)%type.
Abbreviation Config := (Hook * World StrategyRef Args)%type.

(** The refs as [useRef] initialises them, on the first render. *)
Definition initialHook (param : ParamRef) : Hook :=
  {| paramRef := param; forceUpdates := 0; lastWrittenRef := None;
     pendingRef := None; debouncedWriteRef := None; cacheRef := None |}.

Definition withLastWritten (lw : option LastWritten) (h : Hook) : Hook :=
  {| paramRef := paramRef h; forceUpdates := forceUpdates h; lastWrittenRef := lw;
     pendingRef := pendingRef h; debouncedWriteRef := debouncedWriteRef h;
     cacheRef := cacheRef h |}.

Definition withPending (p : option Pending) (h : Hook) : Hook :=
  {| paramRef := paramRef h; forceUpdates := forceUpdates h;
     lastWrittenRef := lastWrittenRef h;
     pendingRef := p; debouncedWriteRef := debouncedWriteRef h;
     cacheRef := cacheRef h |}.

Definition withDebounced (d : option Debounced) (h : Hook) : Hook :=
  {| paramRef := paramRef h; forceUpdates := forceUpdates h;
     lastWrittenRef := lastWrittenRef h;
     pendingRef := pendingRef h; debouncedWriteRef := d;
     cacheRef := cacheRef h |}.

Definition withCache (c : option DecodeCache) (h : Hook) : Hook :=
  {| paramRef := paramRef h; forceUpdates := forceUpdates h;
     lastWrittenRef := lastWrittenRef h;
     pendingRef := pendingRef h; debouncedWriteRef := debouncedWriteRef h;
     cacheRef := c |}.

Definition withParam (p : ParamRef) (h : Hook) : Hook :=
  {| paramRef := p; forceUpdates := forceUpdates h;
     lastWrittenRef := lastWrittenRef h;
     pendingRef := pendingRef h; debouncedWriteRef := debouncedWriteRef h;
     cacheRef := cacheRef h |}.

Definition forceUpdate (h : Hook) : Hook :=
  {| paramRef := paramRef h; forceUpdates := S (forceUpdates h);
     lastWrittenRef := lastWrittenRef h;
     pendingRef := pendingRef h; debouncedWriteRef := debouncedWriteRef h;
     cacheRef := cacheRef h |}.

(** The "decode from URL" block, memoised on [(encoded, param)]. *)
Definition decodeCached (param : ParamRef) (encoded : option string) (h : Hook)
    : T * Hook :=
  let c :=
    match cacheRef h with
    | Some c =>
      if bool_decide (cacheEncoded c <> encoded) || bool_decide (cacheParam c <> param)
      then {| cacheEncoded := encoded; cacheParam := param;
              cacheDecoded := decode (methods param) encoded |}
      else c
    | None => {| cacheEncoded := encoded; cacheParam := param;
                 cacheDecoded := decode (methods param) encoded |}
    end in
  (cacheDecoded c, withCache (Some c) h).

(** The body of the hook after [useSyncExternalStore] has returned
    [urlParams] and [strategy.getRaw()] has returned [raw]. *)
Definition renderBody (param : ParamRef) (raw : string) (urlParams : Params)
    (h : Hook) (w : World StrategyRef Args) : T * Config :=
  let encoded := multiToSingle (default [] (urlParams !! key)) in
  match pendingRef h with
  | Some p =>
    if bool_decide (raw <> prevRaw p) then
      let h := withPending None h in
      let '(d, w) := cancelRef (debouncedWriteRef h) w in
      let h := withDebounced d h in
      let '(value, h) := decodeCached param encoded h in
      (value, (withLastWritten None h, w))
    else (pendingDecoded p, (h, w))
  | None =>
    let fromUrl :=
      let '(value, h) := decodeCached param encoded h in
      (value, (withLastWritten None h, w)) in
    match lastWrittenRef h with
    | Some lw =>
      if bool_decide (lwEncoded lw = encoded) then (lwDecoded lw, (h, w))
      else fromUrl
    | None => fromUrl
    end
  end.

(** One render: [paramRef.current = param], the snapshot, the raw
    string, then the body.  The result is the exposed [value]. *)
Definition useUrlState (param : ParamRef) (c : Config) : T * Config :=
  let '(h, w) := c in
  let h := withParam param h in
  let '(snapshot, st) := getSnapshot impl strategy (href w) (store w) in
  let w := withStore st w in
  let raw := getRaw (impl strategy) (href w) in
  renderBody param raw (fields snapshot) h w.

(** [writeToUrl(newValue, newEncoded)]. *)
Definition writeToUrl (args : Args) (w : World StrategyRef Args)
    : World StrategyRef Args :=
  let '(_, newEncoded) := args in
  if negb (hasWindow w) then w
  else
    let '(obj, st) := callParse impl strategy (href w) (store w) in
    let w := withStore st w in
    let currentParams := fields obj in
    let currentParams :=
      match newEncoded with
      | None => delete key currentParams
      | Some e => <[key := [e]]> currentParams
      end in
    let newUrl := buildUrl (impl strategy) (href w) currentParams in
    historyWrite push newUrl w.

(** The effect body: create the debounced writer when [debounceMs > 0]. *)
Definition effectSetup (h : Hook) : Hook :=
  if (0 <? debounceMs)%nat
  then withDebounced (Some debounce) h
  else withDebounced None h.

(** The effect cleanup. *)
Definition effectCleanup (c : Config) : Config :=
  let '(h, w) := c in
  let '(d, w) := cancelRef (debouncedWriteRef h) w in
  (withDebounced d h, w).

(** The callback a debounce timer runs when it fires:
    [timeoutId = null], then [writeToUrl(...args); pendingRef.current = null]. *)
Definition timerCallback (args : Args) (c : Config) : Config :=
  let '(h, w) := c in
  let h := withDebounced (idle (debouncedWriteRef h)) h in
  let w := writeToUrl args w in
  (withPending None h, w).

(** [setValue(newValue)]. *)
Definition setValue (newValue : T) (c : Config) : Config :=
  let '(h, w) := c in
  let newEncoded := encode (methods (paramRef h)) newValue in
  let h := withLastWritten
             (Some {| lwEncoded := newEncoded; lwDecoded := newValue |}) h in
  match debouncedWriteRef h with
  | Some d =>
    let h := withPending
               (Some {| pendingDecoded := newValue;
                        prevRaw := getRaw (impl strategy) (href w) |}) h in
    let '(d, w) := debouncedCall debounceMs (newValue, newEncoded) d w in
    (forceUpdate (withDebounced (Some d) h), w)
  | None => (h, writeToUrl (newValue, newEncoded) w)
  end.

(** Time passes by [dt] ms; the timers then due fire. *)
Definition advance (dt : nat) (c : Config) : Config := fireDue timerCallback dt c.

(** What can happen to a mounted hook. *)
Inductive Event : Type :=
  | Render (param : ParamRef)
  | SetValue (v : T)
  | Advance (dt : nat)
  | Navigate (url : string).

Definition step (c : Config) (e : Event) : Config :=
  match e with
  | Render param => (useUrlState param c).2
  | SetValue v => setValue v c
  | Advance dt => advance dt c
  | Navigate url => (c.1, navigate url c.2)
  end.

Definition run (c : Config) (es : list Event) : Config := fold_left step es c.

(** A hook just mounted in a browser at [url]: first render, then the
    effect. *)
Definition mount (param : ParamRef) (url : string) : Config :=
  let '(_, (h, w)) := useUrlState param (initialHook param, initialWorld url) in
  (effectSetup h, w).

(** The values exposed by successive renders. *)
Fixpoint renders (ps : list ParamRef) (c : Config) : list T :=
  match ps with
  | [] => []
  | p :: ps' => let '(v, c') := useUrlState p c in v :: renders ps' c'
  end.

(** A burst of write requests: each is followed by some renders and
    then by a pause. *)
Definition burst (ws : list (T * list ParamRef * nat)) : list Event :=
  flat_map (fun w : T * list ParamRef * nat =>
              SetValue w.1.1 :: (Render <$> w.1.2) ++ [Advance w.2]) ws.

Definition isWrite (e : Event) : bool :=
  match e with
  | SetValue _ => true
  | _ => false
  end.

(** What a render sees of the location. *)
Definition currentRaw (c : Config) : string := getRaw (impl strategy) (href c.2).

Definition currentEncoded (c : Config) : option string :=
  multiToSingle
    (default [] (fields (getSnapshot impl strategy (href c.2) (store c.2)).1 !! key)).

(** The parsed state a commit of [newEncoded] hands to [buildUrl], and
    the location it builds from [url]. *)
Definition committedParams (newEncoded : option string) (url : string) : Params :=
  match newEncoded with
  | None => delete key (parse (impl strategy) url)
  | Some e => <[key := [e]]> (parse (impl strategy) url)
  end.

Definition committedUrl (newEncoded : option string) (url : string) : string :=
  buildUrl (impl strategy) url (committedParams newEncoded url).

(** *** The reading rule, in the words of the specification *)

(** Section 4.3: a pending write stays live while the raw location
    equals its reference; a difference is an external change, which
    discards the pending write together with the causality record. *)
Definition specDetect (raw : string) (pending : option Pending)
    (record : option LastWritten) : option Pending * option LastWritten :=
  match pending with
  | Some p => if bool_decide (raw = prevRaw p) then (Some p, record) else (None, None)
  | None => (None, record)
  end.

(** Section 3: the live pending write first, then the causality record
    if its encoding equals the current one, then a fresh decode. *)
Definition specPriority (param : ParamRef) (encoded : option string)
    (live : option Pending * option LastWritten) : T :=
  match live.1 with
  | Some p => pendingDecoded p
  | None =>
    match live.2 with
    | Some r =>
      if bool_decide (lwEncoded r = encoded) then lwDecoded r
      else decode (methods param) encoded
    | None => decode (methods param) encoded
    end
  end.

(** *** Invariants of a running hook *)

(** The memoised decode is the decode of what it is keyed on. *)
Definition cacheOk (h : Hook) : Prop :=
  match cacheRef h with
  | Some c => cacheDecoded c = decode (methods (cacheParam c)) (cacheEncoded c)
  | None => True
  end.

(** The timer queue holds exactly the timer the debounced writer
    remembers, if any. *)
Definition timersOk (c : Config) : Prop :=
  timerId <$> timers c.2
  = match debouncedWriteRef c.1 with
    | Some d => option_list (timeoutId d)
    | None => []
    end.

(** A write of [v] is pending against the current raw string. *)
Definition pendingAt (v : T) (c : Config) : Prop :=
  exists p, pendingRef c.1 = Some p /\ pendingDecoded p = v
            /\ prevRaw p = currentRaw c.

(** Relative to [c0]: nothing has been committed, and the hook still
    runs in a browser with its debounced writer in place. *)
Definition quietSince (c0 c : Config) : Prop :=
  href c.2 = href c0.2 /\ historyCalls c.2 = historyCalls c0.2
  /\ hasWindow c.2 = true /\ is_Some (debouncedWriteRef c.1) /\ timersOk c.

(** The one timer in the queue holds [args] and is not yet due. *)
Definition armed (args : Args) (deadline : nat) (c : Config) : Prop :=
  exists t, timers c.2 = [t] /\ timerArgs t = args /\ due t = deadline
            /\ (now c.2 < deadline)%nat.
End Hook.
End UrlState.

(** ** Plain objects used as maps

    [params], [updates], [encodedUpdates], [lastWrittenRef.current] and
    [pendingRef.current.values] are plain objects: written as literals, or
    created by [{}] and filled by assignment.  Such an object is the finite
    map of its own properties, and its prototype is [Object.prototype]:
    [Object.entries], [Object.fromEntries], [delete] and an assignment
    concern the own properties, while reading [obj[key]] and testing
    [key in obj] also find the members of [Object.prototype]. *)

Module JsObject.
Local Open Scope string_scope.

(** The property names of [Object.prototype]. *)
Definition objectPrototype : list string :=
  ["constructor"; "hasOwnProperty"; "isPrototypeOf"; "propertyIsEnumerable";
   "toLocaleString"; "toString"; "valueOf"; "__proto__";
   "__defineGetter__"; "__defineSetter__"; "__lookupGetter__"; "__lookupSetter__"].

Definition inherited (key : string) : bool := bool_decide (key ∈ objectPrototype).

(** What [obj[key]] finds: the value of an own property, else the member
    of [Object.prototype] of that name, else nothing ([undefined]).
    [key in obj] holds in the first two cases. *)
Inductive Property (A : Type) : Type :=
  | Own (a : A)
  | Proto
  | Missing.
Arguments Own {A} a.
Arguments Proto {A}.
Arguments Missing {A}.

Definition getProperty {A} (obj : gmap string A) (key : string) : Property A :=
  match obj !! key with
  | Some a => Own a
  | None => if inherited key then Proto else Missing
  end.

(** Every key of [entries] has its own value in [obj] or names no member
    of [Object.prototype]: [obj[key]] is then an own value or [undefined]. *)
Definition ownOrMissing {A B} (obj : gmap string A) (entries : list (string * B)) : Prop :=
  Forall (fun e => is_Some (obj !! e.1) \/ inherited e.1 = false) entries.

(** The name [__proto__] is an accessor of [Object.prototype]: assigning
    to it replaces the prototype of the object and creates no own
    property.  [setValues] assigns under the update keys that find a
    codec of their own in [params], and under every update key once none
    of them has thrown.  When [params] has no own property [__proto__],
    none of these keys is [__proto__] (as an update key it finds
    [Object.prototype] in [params] and throws), and every assignment
    creates or replaces an own property, which is what [<[key := v]>]
    does. *)
Definition noProtoKey {A} (obj : gmap string A) : Prop := obj !! "__proto__" = None.

(** The outcome of a call that can throw: the state it leaves, and
    whether it returned or threw a [TypeError]. *)
Inductive Outcome (S : Type) : Type :=
  | Done (s : S)
  | Thrown (s : S).
Arguments Done {S} s.
Arguments Thrown {S} s.

Definition stateAfter {S} (o : Outcome S) : S :=
  match o with
  | Done s => s
  | Thrown s => s
  end.

(** A value a render returns for a key: a value of the codec's type (a
    decoded, recorded or requested one), [undefined], or what the given
    name finds in [Object.prototype] (the member of that name; for
    [__proto__], [Object.prototype] itself). *)
Inductive Value (V : Type) : Type :=
  | Val (v : V)
  | Undefined
  | Member (name : string).
Arguments Val {V} v.
Arguments Undefined {V}.
Arguments Member {V} name.
End JsObject.

(** ** [useUrlStates]: several single-valued keys, written together *)

Module UrlStates.
Import JsObject.
Section Hook.
Context {StrategyRef : Type} `{Countable StrategyRef}.
Variable impl : StrategyRef -> LocationStrategy.
Variable strategy : StrategyRef.

(** The decoded values are of type [any]. *)
Context {V : Type}.
(** The [params] object: a codec per configured key (its own properties). *)
Variable params : gmap string (Param V).
Variable debounceMs : nat.
Variable push : bool.

Record Written : Type := {
  encoded : option string;
  decoded : V;
}.

Record Pending : Type := {
  pendingValues : gmap string V;
  prevRaw : string;
}.

Record Hook : Type := {
  forceUpdates : nat;
  lastWrittenRef : gmap string Written;
  pendingRef : option Pending;
  debouncedWriteRef : option Debounced;
}.

(** The debounced function is called with the encoded updates. *)
Abbreviation Args := (gmap string Written).
Abbreviation Config := (Hook * World StrategyRef Args)%type.

Definition initialHook : Hook :=
  {| forceUpdates := 0; lastWrittenRef := ∅; pendingRef := None;
     debouncedWriteRef := None |}.

Definition withLastWritten (lw : gmap string Written) (h : Hook) : Hook :=
  {| forceUpdates := forceUpdates h; lastWrittenRef := lw;
     pendingRef := pendingRef h; debouncedWriteRef := debouncedWriteRef h |}.

Definition withPending (p : option Pending) (h : Hook) : Hook :=
  {| forceUpdates := forceUpdates h; lastWrittenRef := lastWrittenRef h;
     pendingRef := p; debouncedWriteRef := debouncedWriteRef h |}.

Definition withDebounced (d : option Debounced) (h : Hook) : Hook :=
  {| forceUpdates := forceUpdates h; lastWrittenRef := lastWrittenRef h;
     pendingRef := pendingRef h; debouncedWriteRef := d |}.

Definition forceUpdate (h : Hook) : Hook :=
  {| forceUpdates := S (forceUpdates h); lastWrittenRef := lastWrittenRef h;
     pendingRef := pendingRef h; debouncedWriteRef := debouncedWriteRef h |}.

(** [multiToSingle(urlParams[key] ?? [])]: [undefined] for a key absent
    from the URL.  A member of [Object.prototype] found under the name of
    such a key, should the parsed object have that prototype, gives
    [undefined] as well: it is empty or has no element [0]. *)
Definition encodedAt (urlParams : Params) (key : string) : option string :=
  multiToSingle (default [] (urlParams !! key)).

(** The [map] callback of the branch taken after an external change. *)
Definition decodeEntry (urlParams : Params) (key : string) (param : Param V) : Value V :=
  Val (decode param (encodedAt urlParams key)).

(** [lastWritten && lastWritten.encoded === encoded] for what
    [lastWrittenRef.current[key]] finds: a member of [Object.prototype] is
    truthy and has no property [encoded], so that the comparison holds
    when the key is absent from the URL, and [lastWritten.decoded] is
    [undefined]. *)
Definition recorded (lastWritten : Property Written) (encodedNow : option string)
    : option (Value V) :=
  match lastWritten with
  | Own lw => if bool_decide (encoded lw = encodedNow) then Some (Val (decoded lw)) else None
  | Proto => if bool_decide (None = encodedNow) then Some Undefined else None
  | Missing => None
  end.

(** The [map] callback of the branch taken inside the debounce window:
    [key in pending] holds of an own property and of the name of a member
    of [Object.prototype], and [pending[key]] is then that value or that
    member. *)
Definition pendingEntry (pending : gmap string V) (lastWritten : gmap string Written)
    (urlParams : Params) (key : string) (param : Param V) : Value V :=
  match getProperty pending key with
  | Own v => Val v
  | Proto => Member key
  | Missing =>
    match recorded (getProperty lastWritten key) (encodedAt urlParams key) with
    | Some v => v
    | None => Val (decode param (encodedAt urlParams key))
    end
  end.

(** The [map] callback of the branch taken when nothing is pending; it
    deletes the causality record of a key whose encoding differs. *)
Definition settledEntry (urlParams : Params)
    (acc : gmap string (Value V) * gmap string Written) (entry : string * Param V)
    : gmap string (Value V) * gmap string Written :=
  let '(values, lastWritten) := acc in
  let '(key, param) := entry in
  match recorded (getProperty lastWritten key) (encodedAt urlParams key) with
  | Some v => (<[key := v]> values, lastWritten)
  | None =>
    (<[key := Val (decode param (encodedAt urlParams key))]> values,
     delete key lastWritten)
  end.

Definition renderBody (raw : string) (urlParams : Params)
    (h : Hook) (w : World StrategyRef Args) : gmap string (Value V) * Config :=
  match pendingRef h with
  | Some p =>
    if bool_decide (raw <> prevRaw p) then
      let h := withPending None h in
      let '(d, w) := cancelRef (debouncedWriteRef h) w in
      let h := withDebounced d h in
      let h := withLastWritten ∅ h in
      (map_imap (fun key param => Some (decodeEntry urlParams key param)) params,
       (h, w))
    else
      (map_imap (fun key param =>
                   Some (pendingEntry (pendingValues p) (lastWrittenRef h)
                                      urlParams key param)) params,
       (h, w))
  | None =>
    let '(values, lastWritten) :=
      fold_left (settledEntry urlParams) (map_to_list params)
                (∅, lastWrittenRef h) in
    (values, (withLastWritten lastWritten h, w))
  end.

Definition useUrlStates (c : Config) : gmap string (Value V) * Config :=
  let '(h, w) := c in
  let '(snapshot, st) := getSnapshot impl strategy (href w) (store w) in
  let w := withStore st w in
  let raw := getRaw (impl strategy) (href w) in
  renderBody raw (fields snapshot) h w.

(** The loop of [writeToUrl] over [Object.entries(updates)]. *)
Definition applyUpdate (currentParams : Params) (entry : string * Written) : Params :=
  let '(key, u) := entry in
  match encoded u with
  | None => delete key currentParams
  | Some e => <[key := [e]]> currentParams
  end.

Definition writeToUrl (updates : Args) (w : World StrategyRef Args)
    : World StrategyRef Args :=
  if negb (hasWindow w) then w
  else
    let '(obj, st) := callParse impl strategy (href w) (store w) in
    let w := withStore st w in
    let currentParams := fold_left applyUpdate (map_to_list updates) (fields obj) in
    let newUrl := buildUrl (impl strategy) (href w) currentParams in
    historyWrite push newUrl w.

Definition effectSetup (h : Hook) : Hook :=
  if (0 <? debounceMs)%nat
  then withDebounced (Some debounce) h
  else withDebounced None h.

Definition timerCallback (args : Args) (c : Config) : Config :=
  let '(h, w) := c in
  let h := withDebounced (idle (debouncedWriteRef h)) h in
  let w := writeToUrl args w in
  (withPending None h, w).

(** The first loop of [setValues], over [Object.entries(updates)] in
    their order.  An update whose key finds nothing in [params] is
    skipped; one whose key finds a codec is encoded and recorded in
    [encodedUpdates] and in [lastWrittenRef]; one whose key finds a member
    of [Object.prototype] passes the guard [if (!param) continue], and
    the call [param.encode(value)] throws a [TypeError] there: the records
    made for the entries before it stay. *)
Fixpoint encodeLoop (entries : list (string * V))
    (acc : gmap string Written * gmap string Written)
    : Outcome (gmap string Written * gmap string Written) :=
  match entries with
  | [] => Done acc
  | (key, value) :: rest =>
    match getProperty params key with
    | Missing => encodeLoop rest acc
    | Own param =>
      let e := encode param value in
      encodeLoop rest
        (<[key := {| encoded := e; decoded := value |}]> acc.1,
         <[key := {| encoded := e; decoded := value |}]> acc.2)
    | Proto => Thrown acc
    end
  end.

Definition encodeUpdates (updates : list (string * V)) (lastWritten : gmap string Written)
    : Outcome (gmap string Written * gmap string Written) :=
  encodeLoop updates (∅, lastWritten).

(** [updates] is given by its entries, in the order of [Object.entries]. *)
Definition setValues (updates : list (string * V)) (c : Config) : Outcome Config :=
  let '(h, w) := c in
  match encodeUpdates updates (lastWrittenRef h) with
  | Thrown (_, lastWritten) => Thrown (withLastWritten lastWritten h, w)
  | Done (encodedUpdates, lastWritten) =>
    let h := withLastWritten lastWritten h in
    match debouncedWriteRef h with
    | Some d =>
      let pendingValues := default ∅ (pendingValues <$> pendingRef h) in
      let pendingValues :=
        fold_left (fun (pv : gmap string V) (entry : string * V) =>
                     <[entry.1 := entry.2]> pv)
                  updates pendingValues in
      let h := withPending
                 (Some {| pendingValues := pendingValues;
                          prevRaw := getRaw (impl strategy) (href w) |}) h in
      let '(d, w) := debouncedCall debounceMs encodedUpdates d w in
      Done (forceUpdate (withDebounced (Some d) h), w)
    | None => Done (h, writeToUrl encodedUpdates w)
    end
  end.

Definition advance (dt : nat) (c : Config) : Config := fireDue timerCallback dt c.

Inductive Event : Type :=
  | Render
  | SetValues (updates : list (string * V))
  | Advance (dt : nat)
  | Navigate (url : string).

(** A [setValues] call that throws leaves the hook as the throw found it. *)
Definition step (c : Config) (e : Event) : Config :=
  match e with
  | Render => (useUrlStates c).2
  | SetValues updates => stateAfter (setValues updates c)
  | Advance dt => advance dt c
  | Navigate url => (c.1, navigate url c.2)
  end.

Definition run (c : Config) (es : list Event) : Config := fold_left step es c.

Definition isWrite (e : Event) : bool :=
  match e with
  | SetValues _ => true
  | _ => false
  end.

Definition currentRaw (c : Config) : string := getRaw (impl strategy) (href c.2).

Definition currentParams (c : Config) : Params :=
  fields (getSnapshot impl strategy (href c.2) (store c.2)).1.

Definition timersOk (c : Config) : Prop :=
  timerId <$> timers c.2
  = match debouncedWriteRef c.1 with
    | Some d => option_list (timeoutId d)
    | None => []
    end.

(** The parsed state a commit of [updates] hands to [buildUrl]. *)
Definition committedParams (updates : Args) (url : string) : Params :=
  fold_left applyUpdate (map_to_list updates) (parse (impl strategy) url).

(** The value list a commit gives the key of an update. *)
Definition encodedList (u : Written) : option (list string) :=
  (fun e => [e]) <$> encoded u.

(** What [setValues] records for [key := v] when [params] has a codec of
    its own for [key]. *)
Definition written (k : string) (v : V) : option Written :=
  (fun p => {| encoded := encode p v; decoded := v |}) <$> params !! k.

(** The records of the first loop of [setValues] when no key of
    [updates] finds a member of [Object.prototype]. *)
Definition recordAll (updates : list (string * V)) (m : gmap string Written)
    : gmap string Written :=
  fold_left (fun m e => match written e.1 e.2 with
                        | Some b => <[e.1 := b]> m
                        | None => m
                        end) updates m.
End Hook.
End UrlStates.

(** [MultiParam<T>]. *)
Record MultiParam (T : Type) : Type := {
  encodeMulti : T -> MultiEncoded;
  decodeMulti : MultiEncoded -> T;
}.
Arguments encodeMulti {T} _ _.
Arguments decodeMulti {T} _ _.

(** ** [useMultiUrlState]: one repeated key *)

Module MultiUrlState.
Section Hook.
Context {StrategyRef : Type} `{Countable StrategyRef}.
Variable impl : StrategyRef -> LocationStrategy.
Variable strategy : StrategyRef.
Context {T : Type}.
Variable key : string.
Variable debounceMs : nat.
Variable push : bool.

Record LastWritten : Type := {
  lwEncoded : MultiEncoded;
  lwDecoded : T;
}.

Record Pending : Type := {
  pendingDecoded : T;
  prevRaw : string;
}.

Record Hook : Type := {
  paramRef : MultiParam T;
  forceUpdates : nat;
  lastWrittenRef : option LastWritten;
  pendingRef : option Pending;
  debouncedWriteRef : option Debounced;
}.

Abbreviation Args := MultiEncoded.
Abbreviation Config := (Hook * World StrategyRef Args)%type.

Definition withLastWritten (lw : option LastWritten) (h : Hook) : Hook :=
  {| paramRef := paramRef h; forceUpdates := forceUpdates h; lastWrittenRef := lw;
     pendingRef := pendingRef h; debouncedWriteRef := debouncedWriteRef h |}.

Definition withPending (p : option Pending) (h : Hook) : Hook :=
  {| paramRef := paramRef h; forceUpdates := forceUpdates h;
     lastWrittenRef := lastWrittenRef h;
     pendingRef := p; debouncedWriteRef := debouncedWriteRef h |}.

Definition withDebounced (d : option Debounced) (h : Hook) : Hook :=
  {| paramRef := paramRef h; forceUpdates := forceUpdates h;
     lastWrittenRef := lastWrittenRef h;
     pendingRef := pendingRef h; debouncedWriteRef := d |}.

Definition withParam (p : MultiParam T) (h : Hook) : Hook :=
  {| paramRef := p; forceUpdates := forceUpdates h;
     lastWrittenRef := lastWrittenRef h;
     pendingRef := pendingRef h; debouncedWriteRef := debouncedWriteRef h |}.

Definition forceUpdate (h : Hook) : Hook :=
  {| paramRef := paramRef h; forceUpdates := S (forceUpdates h);
     lastWrittenRef := lastWrittenRef h;
     pendingRef := pendingRef h; debouncedWriteRef := debouncedWriteRef h |}.

Definition renderBody (param : MultiParam T) (raw : string) (urlParams : Params)
    (h : Hook) (w : World StrategyRef Args) : T * Config :=
  let encoded := default [] (urlParams !! key) in
  match pendingRef h with
  | Some p =>
    if bool_decide (raw <> prevRaw p) then
      let h := withPending None h in
      let '(d, w) := cancelRef (debouncedWriteRef h) w in
      let h := withDebounced d h in
      (decodeMulti param encoded, (withLastWritten None h, w))
    else (pendingDecoded p, (h, w))
  | None =>
    match lastWrittenRef h with
    | Some lw =>
      if arraysEqual (lwEncoded lw) encoded then (lwDecoded lw, (h, w))
      else (decodeMulti param encoded, (withLastWritten None h, w))
    | None => (decodeMulti param encoded, (withLastWritten None h, w))
    end
  end.

Definition useMultiUrlState (param : MultiParam T) (c : Config) : T * Config :=
  let '(h, w) := c in
  let h := withParam param h in
  let '(snapshot, st) := getSnapshot impl strategy (href w) (store w) in
  let w := withStore st w in
  let raw := getRaw (impl strategy) (href w) in
  renderBody param raw (fields snapshot) h w.

Definition writeToUrl (newEncoded : Args) (w : World StrategyRef Args)
    : World StrategyRef Args :=
  if negb (hasWindow w) then w
  else
    let '(obj, st) := callParse impl strategy (href w) (store w) in
    let w := withStore st w in
    let currentParams := fields obj in
    let currentParams :=
      if (length newEncoded =? 0)%nat then delete key currentParams
      else <[key := newEncoded]> currentParams in
    let newUrl := buildUrl (impl strategy) (href w) currentParams in
    historyWrite push newUrl w.

Definition setValue (newValue : T) (c : Config) : Config :=
  let '(h, w) := c in
  let newEncoded := encodeMulti (paramRef h) newValue in
  let h := withLastWritten
             (Some {| lwEncoded := newEncoded; lwDecoded := newValue |}) h in
  match debouncedWriteRef h with
  | Some d =>
    let h := withPending
               (Some {| pendingDecoded := newValue;
                        prevRaw := getRaw (impl strategy) (href w) |}) h in
    let '(d, w) := debouncedCall debounceMs newEncoded d w in
    (forceUpdate (withDebounced (Some d) h), w)
  | None => (h, writeToUrl newEncoded w)
  end.
End Hook.
End MultiUrlState.

(** ** [useMultiUrlStates]: several repeated keys, written together *)

Module MultiUrlStates.
Import JsObject.
Section Hook.
Context {StrategyRef : Type} `{Countable StrategyRef}.
Variable impl : StrategyRef -> LocationStrategy.
Variable strategy : StrategyRef.
Context {V : Type}.
Variable params : gmap string (MultiParam V).
Variable debounceMs : nat.
Variable push : bool.

Record Written : Type := {
  encoded : MultiEncoded;
  decoded : V;
}.

Record Pending : Type := {
  pendingValues : gmap string V;
  prevRaw : string;
}.

Record Hook : Type := {
  forceUpdates : nat;
  lastWrittenRef : gmap string Written;
  pendingRef : option Pending;
  debouncedWriteRef : option Debounced;
}.

(** The debounced function is called with the encoded updates. *)
Abbreviation Args := (gmap string MultiEncoded).
Abbreviation Config := (Hook * World StrategyRef Args)%type.

Definition withLastWritten (lw : gmap string Written) (h : Hook) : Hook :=
  {| forceUpdates := forceUpdates h; lastWrittenRef := lw;
     pendingRef := pendingRef h; debouncedWriteRef := debouncedWriteRef h |}.

Definition withPending (p : option Pending) (h : Hook) : Hook :=
  {| forceUpdates := forceUpdates h; lastWrittenRef := lastWrittenRef h;
     pendingRef := p; debouncedWriteRef := debouncedWriteRef h |}.

Definition withDebounced (d : option Debounced) (h : Hook) : Hook :=
  {| forceUpdates := forceUpdates h; lastWrittenRef := lastWrittenRef h;
     pendingRef := pendingRef h; debouncedWriteRef := d |}.

Definition forceUpdate (h : Hook) : Hook :=
  {| forceUpdates := S (forceUpdates h); lastWrittenRef := lastWrittenRef h;
     pendingRef := pendingRef h; debouncedWriteRef := debouncedWriteRef h |}.

Definition applyUpdate (currentParams : Params) (entry : string * MultiEncoded)
    : Params :=
  let '(key, e) := entry in
  if (length e =? 0)%nat then delete key currentParams
  else <[key := e]> currentParams.

Definition writeToUrl (updates : Args) (w : World StrategyRef Args)
    : World StrategyRef Args :=
  if negb (hasWindow w) then w
  else
    let '(obj, st) := callParse impl strategy (href w) (store w) in
    let w := withStore st w in
    let currentParams := fold_left applyUpdate (map_to_list updates) (fields obj) in
    let newUrl := buildUrl (impl strategy) (href w) currentParams in
    historyWrite push newUrl w.

(** The first loop of [setValues], as in [useUrlStates]: a key that
    finds a member of [Object.prototype] in [params] passes the guard and
    [param.encode(value)] throws a [TypeError]. *)
Fixpoint encodeLoop (entries : list (string * V))
    (acc : gmap string MultiEncoded * gmap string Written)
    : Outcome (gmap string MultiEncoded * gmap string Written) :=
  match entries with
  | [] => Done acc
  | (key, value) :: rest =>
    match getProperty params key with
    | Missing => encodeLoop rest acc
    | Own param =>
      let e := encodeMulti param value in
      encodeLoop rest
        (<[key := e]> acc.1,
         <[key := {| encoded := e; decoded := value |}]> acc.2)
    | Proto => Thrown acc
    end
  end.

Definition encodeUpdates (updates : list (string * V)) (lastWritten : gmap string Written)
    : Outcome (gmap string MultiEncoded * gmap string Written) :=
  encodeLoop updates (∅, lastWritten).

(** [updates] is given by its entries, in the order of [Object.entries]. *)
Definition setValues (updates : list (string * V)) (c : Config) : Outcome Config :=
  let '(h, w) := c in
  match encodeUpdates updates (lastWrittenRef h) with
  | Thrown (_, lastWritten) => Thrown (withLastWritten lastWritten h, w)
  | Done (encodedUpdates, lastWritten) =>
    let h := withLastWritten lastWritten h in
    match debouncedWriteRef h with
    | Some d =>
      let pendingValues := default ∅ (pendingValues <$> pendingRef h) in
      let pendingValues :=
        fold_left (fun (pv : gmap string V) (entry : string * V) =>
                     <[entry.1 := entry.2]> pv)
                  updates pendingValues in
      let h := withPending
                 (Some {| pendingValues := pendingValues;
                          prevRaw := getRaw (impl strategy) (href w) |}) h in
      let '(d, w) := debouncedCall debounceMs encodedUpdates d w in
      Done (forceUpdate (withDebounced (Some d) h), w)
    | None => Done (h, writeToUrl encodedUpdates w)
    end
  end.

(** What [setValues] records for [key := v] when [params] has a codec of
    its own for [key]. *)
Definition written (k : string) (v : V) : option Written :=
  (fun p => {| encoded := encodeMulti p v; decoded := v |}) <$> params !! k.

(** The records and the encoded updates of the first loop of [setValues]
    when no key of [updates] finds a member of [Object.prototype]. *)
Definition recordAll (updates : list (string * V)) (m : gmap string Written)
    : gmap string Written :=
  fold_left (fun m e => match written e.1 e.2 with
                        | Some b => <[e.1 := b]> m
                        | None => m
                        end) updates m.

Definition encodeAll (updates : list (string * V)) (m : gmap string MultiEncoded)
    : gmap string MultiEncoded :=
  fold_left (fun m e => match written e.1 e.2 with
                        | Some b => <[e.1 := encoded b]> m
                        | None => m
                        end) updates m.

(** The parsed state a commit of [updates] hands to [buildUrl]. *)
Definition committedParams (updates : Args) (url : string) : Params :=
  fold_left applyUpdate (map_to_list updates) (parse (impl strategy) url).
End Hook.
End MultiUrlStates.

(** ** A concrete location handle and codecs, for running the model *)

Module Concrete.

(** [s.split(sep)] for a one-character separator. *)
Fixpoint splitOn (sep : ascii) (s : string) : list string :=
  match s with
  | EmptyString => [EmptyString]
  | String c s' =>
    if Ascii.eqb c sep then EmptyString :: splitOn sep s'
    else match splitOn sep s' with
         | piece :: pieces => String c piece :: pieces
         | [] => [String c EmptyString]
         end
  end.

(** The text before the first [sep], and the text after it if any. *)
Fixpoint cut (sep : ascii) (s : string) : string * option string :=
  match s with
  | EmptyString => (EmptyString, None)
  | String c s' =>
    if Ascii.eqb c sep then (EmptyString, Some s')
    else let '(before, after) := cut sep s' in (String c before, after)
  end.

Definition join (sep : string) (pieces : list string) : string :=
  match pieces with
  | [] => EmptyString
  | p :: ps => fold_left (fun acc q => acc +:+ sep +:+ q) ps p
  end.

(** Modelled from the spec: the parts of a URL a location handle of
    section 6 works on; [core.ts], which defines the handles, is not
    among the sources.  A URL is [path?query#fragment]. *)
Definition urlPath (url : string) : string := (cut "?" (cut "#" url).1).1.

(** Modelled from the spec: [window.location.search] (missing [core.ts]). *)
Definition urlSearch (url : string) : string :=
  match (cut "?" (cut "#" url).1).2 with
  | Some q => if String.eqb q EmptyString then EmptyString else "?" +:+ q
  | None => EmptyString
  end.

(** Modelled from the spec: [window.location.hash] (missing [core.ts]). *)
Definition urlHash (url : string) : string :=
  match (cut "#" url).2 with
  | Some f => if String.eqb f EmptyString then EmptyString else "#" +:+ f
  | None => EmptyString
  end.

(** Modelled from the spec: [parseMultiParams] of the missing [core.ts],
    "each key maps to an array of all values for that key".  Items are
    [key=value] or a bare [key], joined by [&] and kept verbatim (no
    percent-escapes). *)
Definition parseMultiParams (source : string) : Params :=
  let body := match source with
              | String c rest => if Ascii.eqb c "?" then rest else source
              | EmptyString => source
              end in
  fold_left
    (fun (m : Params) (item : string) =>
       if String.eqb item EmptyString then m
       else let '(k, v) := cut "=" item in
            <[k := default [] (m !! k) ++ [default EmptyString v]]> m)
    (splitOn "&" body) ∅.

(** Modelled from the spec: [serializeMultiParams] of the missing
    [core.ts], "repeated keys are serialized as separate entries". *)
Definition serializeMultiParams (params : Params) : string :=
  join "&"
    (flat_map (fun kv : string * list string =>
                 (fun v => if String.eqb v EmptyString then kv.1 else kv.1 +:+ "=" +:+ v)
                   <$> kv.2)
              (map_to_list params)).

(** Modelled from the spec: the query-string handle of the missing
    [core.ts] ([getRaw], [parse], [buildUrl] of section 6). *)
Definition queryStrategy : LocationStrategy := {|
  getRaw := urlSearch;
  parse := fun url => parseMultiParams (urlSearch url);
  buildUrl := fun base params =>
    let search := serializeMultiParams params in
    urlPath base
      +:+ (if String.eqb search EmptyString then EmptyString else "?" +:+ search)
      +:+ urlHash base;
|}.

(** Modelled from the spec: the hash-fragment handle of the missing
    [core.ts]; the fragment is read in the format of a query string. *)
Definition hashStrategy : LocationStrategy := {|
  getRaw := urlHash;
  parse := fun url =>
    parseMultiParams (match urlHash url with
                      | String _ rest => rest
                      | EmptyString => EmptyString
                      end);
  buildUrl := fun base params =>
    let fragment := serializeMultiParams params in
    urlPath base +:+ urlSearch base
      +:+ (if String.eqb fragment EmptyString then EmptyString else "#" +:+ fragment);
|}.

(** The two strategy objects. *)
Inductive strategyRef : Type := QueryRef | HashRef.

Definition strategyImpl (s : strategyRef) : LocationStrategy :=
  match s with
  | QueryRef => queryStrategy
  | HashRef => hashStrategy
  end.

#[global] Instance strategyRef_eq_dec : EqDecision strategyRef.
Proof. solve_decision. Defined.

#[global] Instance strategyRef_countable : Countable strategyRef.
Proof.
  refine (inj_countable' (fun s => match s with QueryRef => true | HashRef => false end)
                         (fun b : bool => if b then QueryRef else HashRef) _).
  intros []; reflexivity.
Defined.

(** [defStringParam(init)] of [params.ts]. *)
Definition defStringParam (init : string) : Param string := {|
  encode := fun value => if String.eqb value init then None else Some value;
  decode := fun encoded => default init encoded;
|}.

(** A lossy codec: only the first character of the value is encoded. *)
Definition firstCharParam : Param string := {|
  encode := fun value => match value with
                         | EmptyString => None
                         | String c _ => Some (String c EmptyString)
                         end;
  decode := fun encoded => default EmptyString encoded;
|}.

(** Two codec objects. *)
Inductive paramRef : Type := PlainRef | LossyRef.

#[global] Instance paramRef_eq_dec : EqDecision paramRef.
Proof. solve_decision. Defined.

Definition paramMethods (p : paramRef) : Param string :=
  match p with
  | PlainRef => defStringParam "0"
  | LossyRef => firstCharParam
  end.

(** [multiStringParam(init)]. *)
Definition multiStringParam (init : list string) : MultiParam (list string) := {|
  encodeMulti := fun values =>
    if (length values =? 0)%nat && (length init =? 0)%nat then []
    else if arraysEqual values init then []
    else values;
  decodeMulti := fun encoded =>
    if (length encoded =? 0)%nat then init else encoded;
|}.

(** The configured codecs of a batched hook. *)
Definition batchParams : gmap string (Param string) :=
  <["bx" := defStringParam "0"]> (<["by" := defStringParam "0"]> ∅).

Definition batchMultiParams : gmap string (MultiParam (list string)) :=
  <["tags" := multiStringParam []]> ∅.

End Concrete.

(** ** A running hook: the scenarios of section 8 of the specification

    Key ["d"], a codec with default ["0"], a debounce of 500 ms, a page
    loaded at ["/"]. *)

Module Scenario.
Import Concrete.
Local Open Scope string_scope.
Local Open Scope nat_scope.

Definition mounted : UrlState.Hook * World strategyRef (string * option string) :=
  UrlState.mount strategyImpl QueryRef paramMethods "d" 500 PlainRef "/".

Definition requested42 : UrlState.Hook * World strategyRef (string * option string) :=
  UrlState.setValue strategyImpl QueryRef paramMethods "d" 500 false "42" mounted.

(** The external-change scenario: [write(99)], then after 100 ms a
    navigation to a location without ["d"]. *)
Definition navigatedAway : UrlState.Hook * World strategyRef (string * option string) :=
  UrlState.run strategyImpl QueryRef paramMethods "d" 500 false mounted
    [UrlState.SetValue "99"; UrlState.Advance 100; UrlState.Navigate "/?n=hello"].

Definition batchMounted
    : @UrlStates.Hook string * World strategyRef (gmap string (@UrlStates.Written string)) :=
  (UrlStates.effectSetup 500 UrlStates.initialHook, initialWorld "/").

Definition batchNavigatedAway
    : @UrlStates.Hook string * World strategyRef (gmap string (@UrlStates.Written string)) :=
  UrlStates.run strategyImpl QueryRef batchParams 500 false batchMounted
    [UrlStates.SetValues [("bx", "5")]; UrlStates.Advance 100;
     UrlStates.Navigate "/?n=hello"].

(** A hook without debounce that has written a value its lossy codec
    encodes as ["h"]. *)
Definition lossyWritten : UrlState.Hook * World strategyRef (string * option string) :=
  UrlState.setValue strategyImpl QueryRef paramMethods "d" 0 false "hello"
    (UrlState.mount strategyImpl QueryRef paramMethods "d" 0 LossyRef "/").

Definition multiWritten : @MultiUrlState.Hook (list string) * World strategyRef (list string) :=
  MultiUrlState.setValue strategyImpl QueryRef "tag" 0 false ["a"; "b"]
    ({| MultiUrlState.paramRef := multiStringParam [];
        MultiUrlState.forceUpdates := 0;
        MultiUrlState.lastWrittenRef := None;
        MultiUrlState.pendingRef := None;
        MultiUrlState.debouncedWriteRef := None |}, initialWorld "/").

(** A location with a repeated key ["a"], the key ["d"] twice, and ["b"]. *)
Definition crowded {A} : World strategyRef A := initialWorld "/?a=1&a=2&d=5&d=6&b=3".

(** A binary codec whose [fromBytes] accepts one-byte arrays only. *)
Definition oneByte : BinaryParam.BinaryParamOptions byte := {|
  BinaryParam.toBytes := fun b => BinaryParam.Return [b];
  BinaryParam.fromBytes := fun bytes =>
    match bytes with
    | [b] => BinaryParam.Return b
    | _ => BinaryParam.Throw "expected one byte"
    end;
|}.

Definition noBytes : BinaryParam.BinaryParamOptions unit := {|
  BinaryParam.toBytes := fun _ => BinaryParam.Return [];
  BinaryParam.fromBytes := fun _ => BinaryParam.Return tt;
|}.

End Scenario.

(** ** JavaScript built-ins the codecs call *)

Module Js.
Local Open Scope string_scope.

(** A [number] as the integer codecs meet it: an integer or [NaN].
    Integers are exact up to [Number.MAX_SAFE_INTEGER]; fractions and
    infinities are outside the model, and [-0] is [0]. *)
Inductive number : Type :=
  | Int (z : Z)
  | NaN.

Definition isSafeInteger (z : Z) : Prop := - (2 ^ 53) < z < 2 ^ 53.

(** [a === b]: [NaN] differs from itself. *)
Definition strictEq (a b : number) : bool :=
  match a, b with
  | Int x, Int y => Z.eqb x y
  | _, _ => false
  end.

(** [SameValueZero], the comparison of [Array.prototype.includes]. *)
Definition sameValueZero (a b : number) : bool :=
  match a, b with
  | Int x, Int y => Z.eqb x y
  | NaN, NaN => true
  | _, _ => false
  end.

Definition includes (a : list number) (x : number) : bool :=
  existsb (sameValueZero x) a.

Definition isNaN (a : number) : bool :=
  match a with
  | NaN => true
  | Int _ => false
  end.

(** [a || b] on numbers: [0] and [NaN] are falsy. *)
Definition orElse (a b : number) : number :=
  match a with
  | Int 0 => b
  | NaN => b
  | _ => a
  end.

Definition digitChar (d : Z) : ascii := ascii_of_nat (48 + Z.to_nat d).

(** The decimal digits of [n >= 0] in front of [acc], least significant
    digit first; [fuel] bounds the number of digits. *)
Fixpoint digitsOf (fuel : nat) (n : Z) (acc : string) : string :=
  match fuel with
  | O => acc
  | S fuel' =>
    let acc := String (digitChar (n mod 10)) acc in
    if Z.ltb n 10 then acc else digitsOf fuel' (n / 10) acc
  end.

(** A number below [2^k] has at most [k] decimal digits. *)
Definition digits (n : Z) : string := digitsOf (S (Z.to_nat (Z.log2 n))) n EmptyString.

(** [Number.prototype.toString()], also [String(x)] and [`${x}`]. *)
Definition numberToString (x : number) : string :=
  match x with
  | NaN => "NaN"
  | Int z => if Z.ltb z 0 then String "-" (digits (- z)) else digits z
  end.

(** [WhiteSpace] and [LineTerminator] code units below 256. *)
Definition isWhiteSpace (c : ascii) : bool :=
  let n := nat_of_ascii c in
  ((9 <=? n) && (n <=? 13) || (n =? 32) || (n =? 160))%nat.

Fixpoint trimStart (s : string) : string :=
  match s with
  | String c s' => if isWhiteSpace c then trimStart s' else s
  | EmptyString => EmptyString
  end.

Definition digitValue (c : ascii) : option Z :=
  let n := Z.of_nat (nat_of_ascii c) in
  if Z.leb 48 n && Z.leb n 57 then Some (n - 48) else None.

(** The value of the longest prefix of decimal digits, read on top of
    [acc]; [seen] tells whether a digit has been read. *)
Fixpoint digitsPrefix (s : string) (acc : Z) (seen : bool) : option Z :=
  match s with
  | String c s' =>
    match digitValue c with
    | Some d => digitsPrefix s' (acc * 10 + d) true
    | None => if seen then Some acc else None
    end
  | EmptyString => if seen then Some acc else None
  end.

(** [parseInt(s, 10)]: leading white space, an optional sign, then the
    longest run of digits; [NaN] when there is no digit. *)
Definition parseInt (s : string) : number :=
  let s := trimStart s in
  let '(sign, s) :=
    match s with
    | String "-" s' => (-1, s')
    | String "+" s' => (1, s')
    | _ => (1, s)
    end in
  match digitsPrefix s 0 false with
  | Some m => Int (sign * m)
  | None => NaN
  end.

(** Whether the text goes on with a decimal digit. *)
Definition startsWithDigit (s : string) : bool :=
  match s with
  | String c _ => bool_decide (is_Some (digitValue c))
  | EmptyString => false
  end.

(** [s.includes(c)] for one character [c]. *)
Fixpoint hasChar (c : ascii) (s : string) : bool :=
  match s with
  | String a s' => Ascii.eqb a c || hasChar c s'
  | EmptyString => false
  end.

(** [s.split(sep)] for a non-empty [sep]: the pieces of the text from
    here on, the first being the continuation of the current piece;
    [skip] characters of a separator just matched are still to drop. *)
Fixpoint splitFrom (sep : string) (skip : nat) (s : string) : list string :=
  match s with
  | EmptyString => [EmptyString]
  | String c s' =>
    match skip with
    | S k => splitFrom sep k s'
    | O =>
      if String.prefix sep s then EmptyString :: splitFrom sep (String.length sep - 1) s'
      else match splitFrom sep 0 s' with
           | piece :: pieces => String c piece :: pieces
           | [] => [String c EmptyString]
           end
    end
  end.

(** [s.split(sep)]; an empty separator splits into code units. *)
Definition split (sep : string) (s : string) : list string :=
  if String.eqb sep EmptyString then (fun c => String c EmptyString) <$> list_ascii_of_string s
  else splitFrom sep 0 s.

(** [new Map(entries)]: a later entry overrides an earlier one. *)
Definition newMap (entries : list (string * string)) : gmap string string :=
  fold_left (fun m e => <[e.1 := e.2]> m) entries ∅.

End Js.

(** ** The built-in parameter types at the end of [useUrlState.ts] *)

Module Params.
Import Js.
Local Open Scope string_scope.

(** [stringParam(init)]; [T = string | undefined]. *)
Definition stringParam (init : option string) : Param (option string) := {|
  encode := fun value => if bool_decide (value = init) then None else value;
  decode := fun encoded =>
    match encoded with
    | None => init
    | Some e => Some e
    end;
|}.

Definition boolParam : Param bool := {|
  encode := fun value : bool => if value then Some EmptyString else None;
  decode := fun encoded => bool_decide (encoded <> None);
|}.

(** [intParam(init)]. *)
Definition intParam (init : number) : Param number := {|
  encode := fun value =>
    if strictEq value init then None else Some (numberToString value);
  decode := fun encoded =>
    match encoded with
    | None => init
    | Some e =>
      if String.eqb e EmptyString then init
      else let parsed := parseInt e in
           if isNaN parsed then init else parsed
    end;
|}.

(** [optIntParam]; [null] is [None]. *)
Definition optIntParam : Param (option number) := {|
  encode := fun value =>
    match value with
    | None => None
    | Some x => Some (numberToString x)
    end;
  decode := fun encoded =>
    match encoded with
    | None => None
    | Some e =>
      if String.eqb e EmptyString then None
      else let parsed := parseInt e in
           if isNaN parsed then None else Some parsed
    end;
|}.

(** A result together with the lines it sent to [console.warn]. *)
Abbreviation Logged A := (A * list string)%type (only parsing).

(** The [encode] of [enumParam(init, values)]; [validSet.has] is
    membership in [values]. *)
Definition enumEncode (init : string) (values : list string) (value : string)
    : Logged (option string) :=
  if negb (bool_decide (value ∈ values)) then
    (None,
     ["Invalid enum value: " +:+ value +:+ ", expected one of " +:+ Concrete.join ", " values])
  else (if bool_decide (value = init) then None else Some value, []).

Definition enumDecode (init : string) (values : list string)
    (encoded : option string) : Logged string :=
  match encoded with
  | None => (init, [])
  | Some e =>
    if negb (bool_decide (e ∈ values)) then
      (init,
       ["Invalid enum value: " +:+ e +:+ ", expected one of " +:+ Concrete.join ", " values
        +:+ ". Using default: " +:+ init])
    else (e, [])
  end.

(** [enumParam(init, values)] as the hooks see it. *)
Definition enumParam (init : string) (values : list string) : Param string := {|
  encode := fun value => (enumEncode init values value).1;
  decode := fun encoded => (enumDecode init values encoded).1;
|}.

(** [stringsParam(init, delimiter)]. *)
Definition stringsParam (init : list string) (delimiter : string)
    : Param (list string) :=
  let initEncoded := Concrete.join delimiter init in
  {| encode := fun values =>
       let encoded := Concrete.join delimiter values in
       if bool_decide (encoded = initEncoded) then None else Some encoded;
     decode := fun encoded =>
       match encoded with
       | None => init
       | Some e => if String.eqb e EmptyString then [] else split delimiter e
       end;
  |}.

Record Pagination : Type := {
  offset : number;
  pageSize : number;
}.

(** [paginationParam(defaultPageSize, validPageSizes)]; an absent
    [validPageSizes] is [None]. *)
Definition paginationParam (defaultPageSize : number)
    (validPageSizes : option (list number)) : Param Pagination := {|
  encode := fun p =>
    if strictEq (offset p) (Int 0) && strictEq (pageSize p) defaultPageSize then None
    else if strictEq (offset p) (Int 0) then Some (" " +:+ numberToString (pageSize p))
    else if strictEq (pageSize p) defaultPageSize then Some (numberToString (offset p))
    else Some (numberToString (offset p) +:+ " " +:+ numberToString (pageSize p));
  decode := fun encoded =>
    match encoded with
    | None => {| offset := Int 0; pageSize := defaultPageSize |}
    | Some e =>
      if String.eqb e EmptyString then {| offset := Int 0; pageSize := defaultPageSize |}
      else
        let parts := split " " e in
        let offset :=
          match parts !! 0%nat with
          | Some p0 => if String.eqb p0 EmptyString then Int 0 else orElse (parseInt p0) (Int 0)
          | None => orElse NaN (Int 0)
          end in
        let pageSize :=
          match parts !! 1%nat with
          | Some p1 => if String.eqb p1 EmptyString then defaultPageSize else parseInt p1
          | None => defaultPageSize
          end in
        let pageSize :=
          match validPageSizes with
          | Some valid => if negb (includes valid pageSize) then defaultPageSize
                          else pageSize
          | None => pageSize
          end in
        {| offset := offset; pageSize := pageSize |}
    end;
|}.

(** [CodeMap<T>]: an array of [[value, code]] pairs, or an object whose
    own properties, in order, are such pairs. *)
Inductive CodeMap : Type :=
  | Tuples (entries : list (string * string))
  | Object (properties : list (string * string)).

Definition normalizeCodeMap (codeMap : CodeMap) : list (string * string) :=
  match codeMap with
  | Tuples entries => entries
  | Object properties => properties
  end.

Definition valueToCode (codeMap : CodeMap) : gmap string string :=
  newMap (normalizeCodeMap codeMap).

Definition codeToValue (codeMap : CodeMap) : gmap string string :=
  newMap ((fun e : string * string => (e.2, e.1)) <$> normalizeCodeMap codeMap).

(** [codeParam(init, codeMap)]. *)
Definition codeParam (init : string) (codeMap : CodeMap) : Param string := {|
  encode := fun value =>
    if bool_decide (value = init) then None
    else Some (default value (valueToCode codeMap !! value));
  decode := fun encoded =>
    match encoded with
    | None => init
    | Some e => default init (codeToValue codeMap !! e)
    end;
|}.

(** [codesParam(allValues, codeMap, separator)]. *)
Definition codesParam (allValues : list string) (codeMap : CodeMap)
    (separator : string) : Param (list string) := {|
  encode := fun values =>
    if (length values =? length allValues)%nat
       && forallb (fun v => bool_decide (v ∈ values)) allValues
    then None
    else Some (Concrete.join separator
                 ((fun v => default v (valueToCode codeMap !! v)) <$> values));
  decode := fun encoded =>
    match encoded with
    | None => allValues
    | Some e =>
      if String.eqb e EmptyString then []
      else
        let codes := if String.eqb separator EmptyString then split EmptyString e
                     else split separator e in
        omap (fun c => codeToValue codeMap !! c) codes
    end;
|}.

End Params.

(** ** The multi-value codecs ([multiParams.ts]) *)

Module MultiParams.
Import Js.

(** [arraysEqual] on numbers: [v === b[i]] at every index. *)
Definition numbersEqual (a b : list number) : bool :=
  (length a =? length b)%nat
  && every_from (fun v i => match b !! i with
                            | Some x => strictEq v x
                            | None => false
                            end) 0 a.

(** [multiIntParam(init)]. *)
Definition multiIntParam (init : list number) : MultiParam (list number) := {|
  encodeMulti := fun values =>
    if (length values =? 0)%nat && (length init =? 0)%nat then []
    else if numbersEqual values init then []
    else numberToString <$> values;
  decodeMulti := fun encoded =>
    if (length encoded =? 0)%nat then init else parseInt <$> encoded;
|}.

End MultiParams.

(** [base64Param(toBytes, fromBytes)]. *)
Definition base64Param {T} (toBytes : T -> BinaryParam.result (list byte))
    (fromBytes : list byte -> BinaryParam.result T)
    : BinaryParam.Param (option T) :=
  BinaryParam.binaryParam
    {| BinaryParam.toBytes := toBytes; BinaryParam.fromBytes := fromBytes |}.

(** ** Further invariants of a running hook *)

Module UrlStateInv.
Section Inv.
Context {StrategyRef : Type} `{Countable StrategyRef}.
Context {T ParamRef : Type}.

(** A value is pending exactly while a timer is armed; the timer then
    holds the pending value, and the causality record holds that value
    with the encoding the timer will write. *)
Definition pendingBacked
    (c : @UrlState.Hook T ParamRef * World StrategyRef (T * option string)) : Prop :=
  match UrlState.pendingRef c.1 with
  | Some p =>
    exists t, timers c.2 = [t]
              /\ UrlState.pendingDecoded p = (timerArgs t).1
              /\ UrlState.lastWrittenRef c.1
                 = Some {| UrlState.lwEncoded := (timerArgs t).2;
                           UrlState.lwDecoded := (timerArgs t).1 |}
  | None => timers c.2 = []
  end.
End Inv.
End UrlStateInv.

(** ** The render of [useMultiUrlStates] *)

Module MultiUrlStatesRender.
Import JsObject MultiUrlStates.
Section Hook.
Context {StrategyRef : Type} `{Countable StrategyRef}.
Variable impl : StrategyRef -> LocationStrategy.
Variable strategy : StrategyRef.
Context {V : Type}.
Variable params : gmap string (MultiParam V).

Abbreviation Args := (gmap string MultiEncoded).
Abbreviation Config := (@Hook V * World StrategyRef Args)%type.

(** [urlParams[key] ?? []], the list of an own property of the parsed
    object or the empty list: what the code reads under a key that names
    no member of [Object.prototype]. *)
Definition encodedAt (urlParams : Params) (key : string) : MultiEncoded :=
  default [] (urlParams !! key).

(** The [map] callback of the branch taken after an external change. *)
Definition decodeEntry (urlParams : Params) (key : string) (param : MultiParam V)
    : Value V :=
  Val (decodeMulti param (encodedAt urlParams key)).

(** [lastWritten && arraysEqual(lastWritten.encoded, encoded)] for what
    [lastWrittenRef.current[key]] finds. *)
Inductive Recorded : Type :=
  | Hit (v : V)
  | Miss
  | Throws.

(** A member of [Object.prototype] is truthy and has no property
    [encoded]: [arraysEqual] reads [length] of [undefined] and throws a
    [TypeError]. *)
Definition recorded (lastWritten : Property Written) (encodedNow : MultiEncoded)
    : Recorded :=
  match lastWritten with
  | Own lw => if arraysEqual (encoded lw) encodedNow then Hit (decoded lw) else Miss
  | Proto => Throws
  | Missing => Miss
  end.

(** The [map] callback of the branch taken inside the debounce window;
    [None] when it throws.  [key in pending] holds of an own property and
    of the name of a member of [Object.prototype]. *)
Definition pendingEntry (pending : gmap string V) (lastWritten : gmap string Written)
    (urlParams : Params) (key : string) (param : MultiParam V) : option (Value V) :=
  match getProperty pending key with
  | Own v => Some (Val v)
  | Proto => Some (Member key)
  | Missing =>
    match recorded (getProperty lastWritten key) (encodedAt urlParams key) with
    | Hit v => Some (Val v)
    | Miss => Some (Val (decodeMulti param (encodedAt urlParams key)))
    | Throws => None
    end
  end.

(** One step of [Object.fromEntries(Object.entries(params).map(...))] in
    that branch; a throw ends the render. *)
Definition pendingStep (pending : gmap string V) (lastWritten : gmap string Written)
    (urlParams : Params) (acc : option (gmap string (Value V)))
    (entry : string * MultiParam V) : option (gmap string (Value V)) :=
  values ← acc;
  v ← pendingEntry pending lastWritten urlParams entry.1 entry.2;
  Some (<[entry.1 := v]> values).

(** The [map] callback of the branch taken when nothing is pending; it
    deletes the causality record of a key whose encoding differs, and
    throws on a key that finds a member of [Object.prototype] in
    [lastWrittenRef.current]. *)
Definition settledEntry (urlParams : Params)
    (acc : option (gmap string (Value V) * gmap string Written))
    (entry : string * MultiParam V)
    : option (gmap string (Value V) * gmap string Written) :=
  '(values, lastWritten) ← acc;
  let '(key, param) := entry in
  match recorded (getProperty lastWritten key) (encodedAt urlParams key) with
  | Hit v => Some (<[key := Val v]> values, lastWritten)
  | Miss =>
    Some (<[key := Val (decodeMulti param (encodedAt urlParams key))]> values,
          delete key lastWritten)
  | Throws => None
  end.

(** The render; [None] when it throws a [TypeError]. *)
Definition renderBody (raw : string) (urlParams : Params)
    (h : @Hook V) (w : World StrategyRef Args)
    : option (gmap string (Value V) * Config) :=
  match pendingRef h with
  | Some p =>
    if bool_decide (raw <> prevRaw p) then
      let h := withPending None h in
      let '(d, w) := cancelRef (debouncedWriteRef h) w in
      let h := withDebounced d h in
      let h := withLastWritten ∅ h in
      Some (map_imap (fun key param => Some (decodeEntry urlParams key param)) params,
            (h, w))
    else
      values ← fold_left (pendingStep (pendingValues p) (lastWrittenRef h) urlParams)
                         (map_to_list params) (Some ∅);
      Some (values, (h, w))
  | None =>
    '(values, lastWritten) ←
      fold_left (settledEntry urlParams) (map_to_list params)
                (Some (∅, lastWrittenRef h));
    Some (values, (withLastWritten lastWritten h, w))
  end.

Definition useMultiUrlStates (c : Config) : option (gmap string (Value V) * Config) :=
  let '(h, w) := c in
  let '(snapshot, st) := getSnapshot impl strategy (href w) (store w) in
  let w := withStore st w in
  let raw := getRaw (impl strategy) (href w) in
  renderBody raw (fields snapshot) h w.
End Hook.
End MultiUrlStatesRender.

(** ** Further scenarios on the concrete hook *)

Module MoreScenario.
Import Concrete Scenario.
Local Open Scope string_scope.
Local Open Scope nat_scope.

(** A batched hook without debounce that has written [bx := 5]. *)
Definition batchWritten
    : @UrlStates.Hook string * World strategyRef (gmap string (@UrlStates.Written string)) :=
  JsObject.stateAfter
    (UrlStates.setValues strategyImpl QueryRef batchParams 0 false [("bx", "5")]
       (UrlStates.effectSetup 0 UrlStates.initialHook, initialWorld "/")).

(** A hook on the repeated key ["tag"], with a debounce of 500 ms, that
    has been asked to write two tags. *)
Definition multiRequested
    : @MultiUrlState.Hook (list string) * World strategyRef (list string) :=
  MultiUrlState.setValue strategyImpl QueryRef "tag" 500 false ["a"; "b"]
    ({| MultiUrlState.paramRef := multiStringParam [];
        MultiUrlState.forceUpdates := 0;
        MultiUrlState.lastWrittenRef := None;
        MultiUrlState.pendingRef := None;
        MultiUrlState.debouncedWriteRef := Some debounce |}, initialWorld "/").

(** A batched hook on repeated keys, without debounce, that has written
    two tags. *)
Definition multisWritten
    : @MultiUrlStates.Hook (list string)
      * World strategyRef (gmap string (list string)) :=
  JsObject.stateAfter
    (MultiUrlStates.setValues strategyImpl QueryRef batchMultiParams 0 false
       [("tags", ["a"; "b"])]
       ({| MultiUrlStates.forceUpdates := 0;
           MultiUrlStates.lastWrittenRef := ∅;
           MultiUrlStates.pendingRef := None;
           MultiUrlStates.debouncedWriteRef := None |}, initialWorld "/")).

(** The batched hooks before any write, without debounce. *)
Definition batchIdle
    : @UrlStates.Hook string * World strategyRef (gmap string (@UrlStates.Written string)) :=
  (UrlStates.effectSetup 0 UrlStates.initialHook, initialWorld "/").

Definition multisIdle
    : @MultiUrlStates.Hook (list string)
      * World strategyRef (gmap string (list string)) :=
  ({| MultiUrlStates.forceUpdates := 0;
      MultiUrlStates.lastWrittenRef := ∅;
      MultiUrlStates.pendingRef := None;
      MultiUrlStates.debouncedWriteRef := None |}, initialWorld "/").

(** [setValues({bx: '5', toString: '7'})] on the hook configured for
    ["bx"] and ["by"]: the key ["toString"] has no codec. *)
Definition inheritedKeyCall :=
  UrlStates.setValues strategyImpl QueryRef batchParams 0 false
    [("bx", "5"); ("toString", "7")] batchIdle.

(** The same call under a debounce of 500 ms. *)
Definition inheritedKeyDebounced :=
  UrlStates.setValues strategyImpl QueryRef batchParams 500 false
    [("bx", "5"); ("toString", "7")] batchMounted.

(** [setValues({bx: '5', zz: '7'})]: the key ["zz"] has no codec either. *)
Definition unknownKeyCall :=
  UrlStates.setValues strategyImpl QueryRef batchParams 0 false
    [("bx", "5"); ("zz", "7")] batchIdle.

(** [setValues({tags: ['a', 'b'], toString: ['x']})] and
    [setValues({tags: ['a', 'b'], zz: ['x']})] on the hook configured
    for the repeated key ["tags"]. *)
Definition multisInheritedKeyCall :=
  MultiUrlStates.setValues strategyImpl QueryRef batchMultiParams 0 false
    [("tags", ["a"; "b"]); ("toString", ["x"])] multisIdle.

Definition multisUnknownKeyCall :=
  MultiUrlStates.setValues strategyImpl QueryRef batchMultiParams 0 false
    [("tags", ["a"; "b"]); ("zz", ["x"])] multisIdle.

(** Codecs under a key that names a member of [Object.prototype]. *)
Definition namedParams : gmap string (Param string) :=
  <["constructor" := defStringParam "0"]> (<["bx" := defStringParam "0"]> ∅).

Definition namedMultiParams : gmap string (MultiParam (list string)) :=
  <["constructor" := multiStringParam []]> ∅.

(** A browser in which somebody else has a timer running. *)
Definition busy : World strategyRef string :=
  {| hasWindow := true; href := "/"; store := emptyStore; now := 10;
     timers := [{| timerId := 1%positive; due := 50; timerArgs := "other" |}];
     nextTimerId := 2%positive; historyCalls := []; popstates := 0 |}.

(** The code map of the demo page. *)
Definition regionCodes : Params.CodeMap :=
  Params.Object [("NYC", "n"); ("JC", "j"); ("HOB", "h")].

End MoreScenario.

(** ** A batched hook just mounted *)

Module UrlStatesMount.
Section Mount.
Context {StrategyRef : Type} `{Countable StrategyRef}.
Variable impl : StrategyRef -> LocationStrategy.
Variable strategy : StrategyRef.
Context {V : Type}.
Variable params : gmap string (Param V).
Variable debounceMs : nat.

(** First render, then the effect, in a browser at [url]. *)
Definition mount (url : string)
    : @UrlStates.Hook V * World StrategyRef (gmap string (@UrlStates.Written V)) :=
  let '(_, (h, w)) :=
    UrlStates.useUrlStates impl strategy params (UrlStates.initialHook, initialWorld url) in
  (UrlStates.effectSetup debounceMs h, w).
End Mount.
End UrlStatesMount.

(** * Properties *)

(** ** base64url *)

Module Base64Facts.
Import Base64 Base64Groups.

Lemma toInt32_small z : -2^31 <= z < 2^31 -> JsInt.toInt32 z = z.
Proof. intros H. unfold JsInt.toInt32. rewrite Z.mod_small; lia. Qed.

Lemma shl_small a n : 0 <= n < 32 -> 0 <= a -> a * 2 ^ n < 2^31 -> JsInt.shl a n = a * 2 ^ n.
Proof.
  intros Hn Ha Hlt. unfold JsInt.shl.
  assert (Z.land n 31 = n) as ->.
  { change 31 with (Z.ones 5). rewrite Z.land_ones by lia. apply Z.mod_small. simpl; lia. }
  assert (a <= a * 2 ^ n) by nia.
  rewrite (toInt32_small a) by lia.
  rewrite Z.shiftl_mul_pow2 by lia. apply toInt32_small. lia.
Qed.

Lemma sar_small a n : 0 <= n < 32 -> 0 <= a < 2^31 -> JsInt.sar a n = a / 2 ^ n.
Proof.
  intros Hn Ha. unfold JsInt.sar.
  assert (Z.land n 31 = n) as ->.
  { change 31 with (Z.ones 5). rewrite Z.land_ones by lia. apply Z.mod_small. simpl; lia. }
  rewrite toInt32_small by lia. apply Z.shiftr_div_pow2. lia.
Qed.

Lemma and_mask a k : 0 <= k < 31 -> 0 <= a < 2^31 -> JsInt.and a (Z.ones k) = a mod 2 ^ k.
Proof.
  intros Hk Ha. unfold JsInt.and.
  rewrite (toInt32_small a) by lia.
  rewrite toInt32_small. { apply Z.land_ones. lia. }
  rewrite Z.ones_equiv. assert (0 < 2^k) by (apply Z.pow_pos_nonneg; lia).
  assert (2 ^ k <= 2 ^ 30) by (apply Z.pow_le_mono_r; lia). lia.
Qed.

Lemma or_disjoint a b k : 0 <= k -> 0 <= a -> 0 <= b < 2 ^ k -> a * 2 ^ k + b < 2^31 ->
  JsInt.or (a * 2 ^ k) b = a * 2 ^ k + b.
Proof.
  intros Hk Ha Hb Hlt. unfold JsInt.or.
  assert (0 <= a * 2 ^ k) by nia.
  rewrite !toInt32_small by lia.
  rewrite <- Z.shiftl_mul_pow2 by lia.
  assert (Z.land (Z.shiftl a k) b = 0) as Hl.
  { apply Z.bits_inj'. intros i Hi. rewrite Z.land_spec, Z.bits_0.
    destruct (Z.lt_ge_cases i k).
    - rewrite Z.shiftl_spec_low by lia. reflexivity.
    - destruct (Z.eq_dec b 0) as [->|]; [rewrite Z.bits_0; apply andb_false_r|].
      rewrite (Z.bits_above_log2 b i); [apply andb_false_r | lia |].
      apply Z.log2_lt_pow2; [lia|]. assert (2^k <= 2^i) by (apply Z.pow_le_mono_r; lia). lia. }
  rewrite <- Z.lxor_lor by exact Hl. symmetry. apply Z.add_nocarry_lxor. exact Hl.
Qed.

Lemma bz_range b : 0 <= bz b < 256.
Proof. unfold bz. pose proof (Byte.to_N_bounded b). lia. Qed.

Lemma lk_range c : 0 <= lk c < 64.
Proof.
  unfold lk. destruct (BASE64_LOOKUP !! c) as [k|] eqn:E; simpl; [|lia].
  revert E. unfold BASE64_LOOKUP.
  (* invariant of the fold *)
  assert (forall (l : list (ascii * Z)) (m : gmap ascii Z), Forall (fun ci => 0 <= ci.2 < 64) l ->
            (forall c k, m !! c = Some k -> 0 <= k < 64) ->
            forall c k, fold_left (fun m ci => <[ci.1 := ci.2]> m) l m !! c = Some k -> 0 <= k < 64) as Hf.
  { induction l as [|[c' k'] l IH]; intros m Hl Hm c0 k0; simpl; [apply Hm|].
    inversion Hl; subst. apply IH; [assumption|].
    intros c1 k1. rewrite lookup_insert. case_decide; [intros [= <-]; assumption | apply Hm]. }
  apply Hf.
  - unfold BASE64_CHARS. simpl. repeat (constructor; [simpl; lia|]). constructor.
  - intros ? ?. rewrite lookup_empty. discriminate.
Qed.

Lemma pack3_val b0 b1 b2 : 0 <= b0 < 256 -> 0 <= b1 < 256 -> 0 <= b2 < 256 ->
  JsInt.or (JsInt.or (JsInt.shl b0 16) (JsInt.shl b1 8)) b2 = b0 * 65536 + b1 * 256 + b2.
Proof.
  intros H0 H1 H2.
  rewrite (shl_small b0 16), (shl_small b1 8) by (simpl; lia).
  rewrite (or_disjoint b0 (b1 * 2 ^ 8) 16) by (simpl; lia).
  replace (b0 * 2 ^ 16 + b1 * 2 ^ 8) with ((b0 * 256 + b1) * 2 ^ 8) by (simpl; lia).
  rewrite or_disjoint by (simpl; lia). simpl; lia.
Qed.

Lemma pack4_val c0 c1 c2 c3 :
  0 <= c0 < 64 -> 0 <= c1 < 64 -> 0 <= c2 < 64 -> 0 <= c3 < 64 ->
  JsInt.or (JsInt.or (JsInt.or (JsInt.shl c0 18) (JsInt.shl c1 12)) (JsInt.shl c2 6)) c3
  = c0 * 262144 + c1 * 4096 + c2 * 64 + c3.
Proof.
  intros H0 H1 H2 H3.
  rewrite (shl_small c0 18), (shl_small c1 12), (shl_small c2 6) by (simpl; lia).
  rewrite (or_disjoint c0 (c1 * 2 ^ 12) 18) by (simpl; lia).
  replace (c0 * 2 ^ 18 + c1 * 2 ^ 12) with ((c0 * 64 + c1) * 2 ^ 12) by (simpl; lia).
  rewrite (or_disjoint _ (c2 * 2 ^ 6) 12) by (simpl; lia).
  replace ((c0 * 64 + c1) * 2 ^ 12 + c2 * 2 ^ 6) with ((c0 * 4096 + c1 * 64 + c2) * 2 ^ 6)
    by (simpl; lia).
  rewrite or_disjoint by (simpl; lia). simpl; lia.
Qed.

Lemma sextet_of n k : 0 <= k < 32 -> 0 <= n < 2 ^ 24 ->
  JsInt.and (JsInt.sar n k) 63 = n / 2 ^ k mod 64.
Proof.
  intros Hk Hn. rewrite sar_small by (simpl in *; lia).
  assert (0 < 2 ^ k) by (apply Z.pow_pos_nonneg; lia).
  assert (0 <= n / 2 ^ k <= n).
  { split; [apply Z.div_pos; lia|]. apply Z.div_le_upper_bound; nia. }
  change 63 with (Z.ones 6). rewrite and_mask by (simpl in *; lia). reflexivity.
Qed.

Lemma octet_of n k : 0 <= k < 32 -> 0 <= n < 2 ^ 24 ->
  JsInt.and (JsInt.sar n k) 255 = n / 2 ^ k mod 256.
Proof.
  intros Hk Hn. rewrite sar_small by (simpl in *; lia).
  assert (0 < 2 ^ k) by (apply Z.pow_pos_nonneg; lia).
  assert (0 <= n / 2 ^ k <= n).
  { split; [apply Z.div_pos; lia|]. apply Z.div_le_upper_bound; nia. }
  change 255 with (Z.ones 8). rewrite and_mask by (simpl in *; lia). reflexivity.
Qed.

Lemma low_sextet n : 0 <= n < 2 ^ 24 -> JsInt.and n 63 = n mod 64.
Proof. intros. change 63 with (Z.ones 6). rewrite and_mask by (simpl in *; lia). reflexivity. Qed.

Lemma low_octet n : 0 <= n < 2 ^ 24 -> JsInt.and n 255 = n mod 256.
Proof. intros. change 255 with (Z.ones 8). rewrite and_mask by (simpl in *; lia). reflexivity. Qed.

Lemma sextet_char_spec k : 0 <= k < 64 ->
  alphabet_char k = [sextet_char k] /\ lk (sextet_char k) = k
  /\ sextet_char k ∈ BASE64_CHARS /\ sextet_char k <> "="%char.
Proof.
  intros Hk. rewrite <- (Z2Nat.id k) by lia.
  assert (Z.to_nat k < 64)%nat as Hn by lia. revert Hn. generalize (Z.to_nat k) as n.
  intros n Hn.
  do 64 (destruct n as [|n];
    [ split; [vm_compute; reflexivity|]; split; [vm_compute; reflexivity|];
      split; [apply (bool_decide_unpack _); vm_compute; exact I | vm_compute; discriminate] |]).
  lia.
Qed.

Lemma list_ind3 {A} (P : list A -> Prop) :
  P [] -> (forall a, P [a]) -> (forall a b, P [a; b]) ->
  (forall a b c l, P l -> P (a :: b :: c :: l)) -> forall l, P l.
Proof.
  intros H0 H1 H2 H3.
  fix IH 1. intros [|a [|b [|c l]]];
    [apply H0 | apply H1 | apply H2 | apply H3; apply IH].
Qed.

Lemma byte_or0_drop bytes i k :
  byte_or0 bytes (i + k) = byte_or0 (drop i bytes) k.
Proof. unfold byte_or0. rewrite lookup_drop. reflexivity. Qed.

Ltac decide_ltb :=
  repeat match goal with
  | |- context [(?a <? ?b)%nat] =>
      first [ replace (a <? b)%nat with false by (symmetry; apply Nat.ltb_ge; simpl; lia)
            | replace (a <? b)%nat with true by (symmetry; apply Nat.ltb_lt; simpl; lia) ]
  end.

Ltac to_sextet_chars :=
  repeat match goal with
  | |- context [alphabet_char ?k] =>
      destruct (sextet_char_spec k) as [-> _]; [apply Z.mod_pos_bound; lia|]
  end.

Lemma encode_loop_spec fuel : forall bytes i result,
  (length bytes - i <= 3 * fuel)%nat ->
  encode_loop fuel bytes i result = result ++ enc (drop i bytes).
Proof.
  induction fuel as [|fuel IH]; intros bytes i result Hfuel.
  - simpl. rewrite drop_ge by lia. simpl. rewrite app_nil_r. reflexivity.
  - cbn [encode_loop].
    destruct (Nat.ltb_spec i (length bytes)) as [Hlt|Hge].
    2:{ rewrite drop_ge by lia. simpl. rewrite app_nil_r. reflexivity. }
    rewrite IH by lia.
    pose proof (byte_or0_drop bytes i 0) as E0. rewrite Nat.add_0_r in E0.
    rewrite E0, !byte_or0_drop, <- (drop_drop bytes 3 i). clear E0.
    assert (length bytes = i + length (drop i bytes))%nat as Hlen
      by (rewrite length_drop; lia).
    rewrite Hlen in Hlt |- *. clear Hlen.
    destruct (drop i bytes) as [|a [|b [|c rest]]]; [simpl in *; lia| | |];
      decide_ltb; cbn [byte_or0 lookup list_lookup drop enc];
      fold (bz a); try fold (bz b); try fold (bz c);
      pose proof (bz_range a); try pose proof (bz_range b); try pose proof (bz_range c);
      rewrite pack3_val by lia;
      rewrite ?sextet_of, ?low_sextet by (simpl; lia);
      to_sextet_chars; rewrite ?app_nil_r, <- ?app_assoc; reflexivity.
Qed.

Lemma lookup_or0_drop str i k : lookup_or0 str (i + k) = lookup_or0 (drop i str) k.
Proof. unfold lookup_or0. rewrite lookup_drop. reflexivity. Qed.

Lemma decode_loop_spec fuel : forall str i bytes,
  (length str - i <= 4 * fuel)%nat ->
  decode_loop fuel str i bytes = bytes ++ dec (drop i str).
Proof.
  induction fuel as [|fuel IH]; intros str i bytes Hfuel.
  - simpl. rewrite drop_ge by lia. simpl. rewrite app_nil_r. reflexivity.
  - cbn [decode_loop].
    destruct (Nat.ltb_spec i (length str)) as [Hlt|Hge].
    2:{ rewrite drop_ge by lia. simpl. rewrite app_nil_r. reflexivity. }
    rewrite IH by lia.
    pose proof (lookup_or0_drop str i 0) as E0. rewrite Nat.add_0_r in E0.
    rewrite E0, !lookup_or0_drop, <- (drop_drop str 4 i). clear E0.
    assert (length str = i + length (drop i str))%nat as Hlen
      by (rewrite length_drop; lia).
    rewrite Hlen in Hlt |- *. clear Hlen.
    destruct (drop i str) as [|x [|y [|z [|w rest]]]]; [simpl in *; lia| | | |];
      decide_ltb; cbn [lookup_or0 lookup list_lookup drop dec];
      fold (lk x); try fold (lk y); try fold (lk z); try fold (lk w);
      pose proof (lk_range x); try pose proof (lk_range y);
      try pose proof (lk_range z); try pose proof (lk_range w);
      rewrite pack4_val by lia;
      rewrite ?octet_of, ?low_octet by (simpl; lia);
      rewrite ?app_nil_r, <- ?app_assoc; reflexivity.
Qed.

Lemma toUint8_bz b : toUint8 (bz b) = b.
Proof.
  unfold toUint8. pose proof (bz_range b). rewrite Z.mod_small by lia.
  unfold bz. rewrite N2Z.id, Byte.of_to_N. reflexivity.
Qed.

Lemma group_roundtrip3 a b c :
  dec (enc_group (bz a) (bz b) (bz c) 3) = [bz a; bz b; bz c].
Proof.
  pose proof (bz_range a). pose proof (bz_range b). pose proof (bz_range c).
  unfold enc_group. cbn [Nat.leb app dec].
  repeat match goal with
  | |- context [lk (sextet_char ?k)] =>
      destruct (sextet_char_spec k) as (_ & -> & _); [apply Z.mod_pos_bound; lia|]
  end.
  unfold dec_group. cbn [Nat.leb app].
  repeat f_equal; Z.div_mod_to_equations; lia.
Qed.

Lemma group_roundtrip2 a b : dec (enc_group (bz a) (bz b) 0 2) = [bz a; bz b].
Proof.
  pose proof (bz_range a). pose proof (bz_range b).
  unfold enc_group. cbn [Nat.leb app dec].
  repeat match goal with
  | |- context [lk (sextet_char ?k)] =>
      destruct (sextet_char_spec k) as (_ & -> & _); [apply Z.mod_pos_bound; lia|]
  end.
  unfold dec_group. cbn [Nat.leb app].
  repeat f_equal; Z.div_mod_to_equations; lia.
Qed.

Lemma group_roundtrip1 a : dec (enc_group (bz a) 0 0 1) = [bz a].
Proof.
  pose proof (bz_range a).
  unfold enc_group. cbn [Nat.leb app dec].
  repeat match goal with
  | |- context [lk (sextet_char ?k)] =>
      destruct (sextet_char_spec k) as (_ & -> & _); [apply Z.mod_pos_bound; lia|]
  end.
  unfold dec_group. cbn [Nat.leb app].
  repeat f_equal; Z.div_mod_to_equations; lia.
Qed.

Lemma dec_enc l : dec (enc l) = bz <$> l.
Proof.
  induction l as [|a|a b|a b c l IH] using list_ind3.
  - reflexivity.
  - apply group_roundtrip1.
  - apply group_roundtrip2.
  - cbn [enc]. pose proof (group_roundtrip3 a b c) as G.
    unfold enc_group in *. cbn [Nat.leb app dec] in *.
    rewrite IH. injection G as G1 G2 G3.
    unfold dec_group in *. cbn [Nat.leb app] in *.
    rewrite G1, G2, G3. reflexivity.
Qed.

Lemma enc_alphabet l : Forall (fun c => c ∈ BASE64_CHARS /\ c <> "="%char) (enc l).
Proof.
  induction l as [|a|a b|a b c l IH] using list_ind3.
  - constructor.
  - pose proof (bz_range a). unfold enc, enc_group; cbn [Nat.leb app].
    repeat (apply Forall_cons; split;
            [apply sextet_char_spec; apply Z.mod_pos_bound; lia|]).
    constructor.
  - pose proof (bz_range a). pose proof (bz_range b).
    unfold enc, enc_group; cbn [Nat.leb app].
    repeat (apply Forall_cons; split;
            [apply sextet_char_spec; apply Z.mod_pos_bound; lia|]).
    constructor.
  - pose proof (bz_range a). pose proof (bz_range b). pose proof (bz_range c).
    cbn [enc]. unfold enc_group; cbn [Nat.leb app].
    repeat (apply Forall_cons; split;
            [apply sextet_char_spec; apply Z.mod_pos_bound; lia|]).
    exact IH.
Qed.

Lemma enc_length l : Z.of_nat (length (enc l)) = (4 * Z.of_nat (length l) + 2) / 3.
Proof.
  induction l as [|a|a b|a b c l IH] using list_ind3; try reflexivity.
  cbn [enc enc_group Nat.leb app length] in *.
  rewrite !Nat2Z.inj_succ, IH. Z.div_mod_to_equations; lia.
Qed.

Lemma strip_padding_id s : Forall (fun c => c <> "="%char) s -> strip_padding s = s.
Proof.
  induction 1 as [|c s Hc _ IH]; [reflexivity|].
  cbn [strip_padding]. rewrite IH. destruct s; [|reflexivity].
  destruct (Ascii.eqb_spec c "="%char); [contradiction | reflexivity].
Qed.

Lemma base64Encode_enc bytes : base64Encode bytes = enc bytes.
Proof. unfold base64Encode. rewrite encode_loop_spec by lia. reflexivity. Qed.

(** C8. Decoding the encoding of a byte array gives back the array,
    byte for byte; the encoding uses only characters of the base64url
    alphabet, hence none of [+], [/] and the padding [=]; and its length
    is 4 * len / 3 rounded up. *)
Theorem base64_roundtrip (b : list byte) :
  base64Decode (base64Encode b) = b
  /\ Forall (fun c => c ∈ BASE64_CHARS) (base64Encode b)
  /\ ("+"%char ∉ base64Encode b) /\ ("/"%char ∉ base64Encode b)
  /\ ("="%char ∉ base64Encode b)
  /\ Z.of_nat (length (base64Encode b)) = (4 * Z.of_nat (length b) + 2) / 3
  /\ 4 * Z.of_nat (length b) <= 3 * Z.of_nat (length (base64Encode b))
     < 4 * Z.of_nat (length b) + 3.
Proof.
  rewrite base64Encode_enc. pose proof (enc_alphabet b) as Ha.
  assert (forall x, x ∉ BASE64_CHARS -> x ∉ enc b) as Hnot.
  { intros x Hx Hin. rewrite Forall_forall in Ha. apply Hx, (Ha x Hin). }
  repeat split.
  - unfold base64Decode. cbn zeta.
    rewrite strip_padding_id by (eapply Forall_impl; [exact Ha | intros ? [_ ?]; assumption]).
    rewrite decode_loop_spec by lia. rewrite drop_0, app_nil_l, dec_enc.
    rewrite <- list_fmap_compose. rewrite <- (list_fmap_id b) at 2.
    apply list_fmap_ext. intros _ x _. apply toUint8_bz.
  - eapply Forall_impl; [exact Ha | intros ? [? _]; assumption].
  - apply Hnot. apply (bool_decide_unpack _). vm_compute. exact I.
  - apply Hnot. apply (bool_decide_unpack _). vm_compute. exact I.
  - apply Hnot. apply (bool_decide_unpack _). vm_compute. exact I.
  - apply enc_length.
  - rewrite enc_length. Z.div_mod_to_equations. lia.
  - rewrite enc_length. Z.div_mod_to_equations. lia.
Qed.

End Base64Facts.

(** ** [binaryParam] *)

Module BinaryParamFacts.
Import BinaryParam.

Lemma decodeWith_returns {T} (decoder : list ascii -> result (list byte))
    (options : BinaryParamOptions T) encoded :
  exists v, decode (binaryParamWith decoder options) encoded = Return v.
Proof.
  destruct encoded as [[|c str]|]; cbn [binaryParamWith decode]; eauto.
  unfold try_catch, bind.
  destruct (decoder (c :: str)) as [bytes|e]; eauto.
  destruct (fromBytes options bytes) as [v|e]; eauto.
Qed.

(** C9. [binaryParam(options).decode] returns on every input and never
    throws: [undefined] and the empty string decode to [null]; when the
    base64 decoder or [fromBytes] throws, the result is [null]; and
    [encode(null)], like [encode] of a value whose bytes are empty, is
    [undefined]. *)
Theorem binaryParam_decode_total {T} (options : BinaryParamOptions T) :
  decode (binaryParam options) None = Return None
  /\ decode (binaryParam options) (Some []) = Return None
  /\ (forall encoded, exists v, decode (binaryParam options) encoded = Return v)
  /\ (forall decoder encoded,
        exists v, decode (binaryParamWith decoder options) encoded = Return v)
  /\ (forall decoder str e,
        decoder str = Throw e ->
        decode (binaryParamWith decoder options) (Some str) = Return None)
  /\ (forall str e,
        fromBytes options (Base64.base64Decode str) = Throw e ->
        decode (binaryParam options) (Some str) = Return None)
  /\ encode (binaryParam options) None = Return None
  /\ (forall v, toBytes options v = Return [] ->
                encode (binaryParam options) (Some v) = Return None).
Proof.
  repeat split.
  - intros encoded. apply decodeWith_returns.
  - intros decoder encoded. apply decodeWith_returns.
  - intros decoder [|c str] e He; cbn [binaryParamWith decode]; [reflexivity|].
    rewrite He. reflexivity.
  - intros [|c str] e He; cbn [binaryParam binaryParamWith decode]; [reflexivity|].
    unfold base64Decode_call. cbn [bind]. rewrite He. reflexivity.
  - intros v Hv. cbn [binaryParam binaryParamWith encode]. rewrite Hv. reflexivity.
Qed.

End BinaryParamFacts.

(** ** More on base64url and [binaryParam] *)

Module Base64More.
Import Base64 Base64Groups Base64Facts.

Lemma base64Decode_dec (s : list ascii) :
  base64Decode s = toUint8 <$> dec (strip_padding s).
Proof.
  unfold base64Decode. cbn zeta. rewrite decode_loop_spec by lia.
  rewrite drop_0, app_nil_l. reflexivity.
Qed.

Lemma base64Decode_encode (b : list byte) : base64Decode (base64Encode b) = b.
Proof.
  rewrite base64Encode_enc, base64Decode_dec.
  rewrite strip_padding_id
    by (eapply Forall_impl; [apply enc_alphabet | intros ? [_ ?]; assumption]).
  rewrite dec_enc, <- list_fmap_compose. rewrite <- (list_fmap_id b) at 2.
  apply list_fmap_ext. intros _ x _. apply toUint8_bz.
Qed.

Lemma strip_padding_pads k : strip_padding (replicate k "="%char) = [].
Proof.
  induction k as [|k IH]; [reflexivity|].
  cbn [replicate strip_padding]. rewrite IH. reflexivity.
Qed.

Lemma strip_padding_app s k :
  strip_padding (s ++ replicate k "="%char) = strip_padding s.
Proof.
  induction s as [|c s IH].
  - cbn [app]. rewrite strip_padding_pads. reflexivity.
  - cbn [app strip_padding]. rewrite IH. reflexivity.
Qed.

(** X1: [base64Decode] ignores a run of [=] at the end of its input,
    so the padded form of an encoding decodes to the same bytes as the
    unpadded one [base64Encode] writes. *)
Theorem base64Decode_padding (s : list ascii) (k : nat) :
  base64Decode (s ++ replicate k "="%char) = base64Decode s
  /\ (forall b, base64Decode (base64Encode b ++ replicate k "="%char) = b)
  /\ base64Decode (replicate k "="%char) = [].
Proof.
  assert (Hpad : forall s', base64Decode (s' ++ replicate k "="%char) = base64Decode s').
  { intros s'. rewrite !base64Decode_dec, strip_padding_app. reflexivity. }
  split; [apply Hpad|]. split.
  - intros b. rewrite Hpad. apply base64Decode_encode.
  - rewrite base64Decode_dec, strip_padding_pads. reflexivity.
Qed.

Lemma list_ind4 {A} (P : list A -> Prop) :
  P [] -> (forall a, P [a]) -> (forall a b, P [a; b]) -> (forall a b c, P [a; b; c]) ->
  (forall a b c d l, P l -> P (a :: b :: c :: d :: l)) -> forall l, P l.
Proof.
  intros H0 H1 H2 H3 H4.
  fix IH 1. intros [|a [|b [|c [|d l]]]];
    [apply H0 | apply H1 | apply H2 | apply H3 | apply H4; apply IH].
Qed.

(** Bytes a group of [r] characters, [r < 4], decodes to. *)
Lemma dec_length (s : list ascii) :
  length (dec s)
  = (3 * (length s / 4)
     + match (length s mod 4)%nat with
       | 0 => 0
       | 1 => 1
       | 2 => 1
       | _ => 2
       end)%nat.
Proof.
  induction s as [|a|a b|a b c|a b c d s IH] using list_ind4; try reflexivity.
  cbn [dec dec_group Nat.leb app length]. rewrite IH.
  replace (S (S (S (S (length s))))) with (length s + 1 * 4)%nat by lia.
  rewrite Nat.div_add, Nat.Div0.mod_add by lia. lia.
Qed.

(** X2: [base64Decode] returns on every string, whatever its
    characters; of the [n] characters left after the trailing [=] are
    stripped, every four give three bytes, and a rest of one, two or
    three characters gives one, one or two bytes. *)
Theorem base64Decode_length (s : list ascii) :
  let n := length (strip_padding s) in
  length (base64Decode s)
  = (3 * (n / 4)
     + match (n mod 4)%nat with
       | 0 => 0
       | 1 => 1
       | 2 => 1
       | _ => 2
       end)%nat
  /\ (length (base64Decode s) <= length s)%nat.
Proof.
  cbn zeta. rewrite base64Decode_dec, length_fmap, dec_length. split; [reflexivity|].
  assert (Hstrip : (length (strip_padding s) <= length s)%nat).
  { clear. induction s as [|c s IH]; [reflexivity|].
    cbn [strip_padding]. destruct (strip_padding s) as [|x r].
    - destruct (Ascii.eqb c "="%char); cbn; lia.
    - cbn in *. lia. }
  pose proof (Nat.div_mod_eq (length (strip_padding s)) 4) as Hdm.
  pose proof (Nat.mod_upper_bound (length (strip_padding s)) 4 ltac:(lia)) as Hub.
  destruct (length (strip_padding s) mod 4)%nat as [|[|[|r]]]; lia.
Qed.

Lemma enc_app3 (a b : list byte) :
  (length a mod 3 = 0)%nat -> enc (a ++ b) = enc a ++ enc b.
Proof.
  induction a as [|x|x y|x y z a IH] using list_ind3; intros Hlen.
  - reflexivity.
  - discriminate Hlen.
  - discriminate Hlen.
  - cbn [app enc]. rewrite IH.
    + rewrite app_assoc. reflexivity.
    + cbn [length] in Hlen.
      replace (S (S (S (length a)))) with (length a + 1 * 3)%nat in Hlen by lia.
      rewrite Nat.Div0.mod_add in Hlen. exact Hlen.
Qed.

(** X3: [base64Encode] never maps two byte arrays to the same text,
    and the encoding of an array whose length is a multiple of three,
    followed by more bytes, is its own encoding followed by the
    encoding of those bytes. *)
Theorem base64Encode_injective_app (a b : list byte) :
  (base64Encode a = base64Encode b -> a = b)
  /\ ((length a mod 3 = 0)%nat ->
      base64Encode (a ++ b) = base64Encode a ++ base64Encode b)
  /\ (base64Encode a = [] <-> a = []).
Proof.
  split; [|split].
  - intros Heq. rewrite <- (base64Decode_encode a), <- (base64Decode_encode b), Heq.
    reflexivity.
  - intros Hlen. rewrite !base64Encode_enc. apply enc_app3, Hlen.
  - split.
    + intros Heq. rewrite <- (base64Decode_encode a), Heq. reflexivity.
    + intros ->. reflexivity.
Qed.

End Base64More.

Module BinaryParamMore.
Import BinaryParam.

(** X4: when [toBytes] gives a non-empty array from which [fromBytes]
    gives the value back, [binaryParam] (and [base64Param], which is
    the same codec) encodes the value as a non-empty text and decodes
    that text to the value.  [encode] lets an exception of [toBytes]
    through, where [decode] catches every one. *)
Theorem binaryParam_roundtrip {T} (options : BinaryParamOptions T) (v : T)
    (bytes : list byte) :
  toBytes options v = Return bytes -> bytes <> [] ->
  fromBytes options bytes = Return v ->
  let p := binaryParam options in
  encode p (Some v) = Return (Some (Base64.base64Encode bytes))
  /\ Base64.base64Encode bytes <> []
  /\ decode p (Some (Base64.base64Encode bytes)) = Return (Some v)
  /\ base64Param (toBytes options) (fromBytes options) = p
  /\ (forall v' e, toBytes options v' = Throw e -> encode p (Some v') = Throw e).
Proof.
  intros Hto Hne Hfrom p. subst p.
  assert (Henc : Base64.base64Encode bytes <> []).
  { intros Heq. apply Hne.
    rewrite <- (Base64More.base64Decode_encode bytes), Heq. reflexivity. }
  split; [|split; [exact Henc|split; [|split]]].
  - cbn [encode binaryParam binaryParamWith]. rewrite Hto. cbn [bind].
    destruct bytes; [congruence|reflexivity].
  - cbn [decode binaryParam binaryParamWith].
    destruct (Base64.base64Encode bytes) as [|c str] eqn:E; [congruence|].
    unfold base64Decode_call. rewrite <- E, Base64More.base64Decode_encode.
    cbn [bind]. rewrite Hfrom. reflexivity.
  - destruct options. reflexivity.
  - intros v' e He. cbn [encode binaryParam binaryParamWith]. rewrite He. reflexivity.
Qed.

End BinaryParamMore.

(** ** The timer queue and the debounced writer *)

Section BrowserFacts.
Context {StrategyRef : Type} `{Countable StrategyRef}.

Lemma ids_single {A} (ts : list (Timer A)) id :
  timerId <$> ts = [id] -> exists t, ts = [t] /\ timerId t = id.
Proof.
  destruct ts as [|t [|t' ts]]; intros E; try discriminate.
  injection E as E. exists t. split; [reflexivity | exact E].
Qed.

Lemma ids_nil {A} (ts : list (Timer A)) : timerId <$> ts = [] -> ts = [].
Proof. destruct ts; [reflexivity | discriminate]. Qed.

Lemma clear_own {A} (ts : list (Timer A)) id :
  timerId <$> ts = [id] -> filter (fun t => timerId t <> id) ts = [].
Proof.
  intros E. destruct (ids_single ts id E) as (t & -> & <-).
  rewrite filter_cons_False by (intros E'; apply E'; reflexivity). reflexivity.
Qed.

Lemma withTimers_same {A} (w : World StrategyRef A) : withTimers (timers w) w = w.
Proof. destruct w; reflexivity. Qed.

Lemma cancelRef_spec {A} (r : option Debounced) (w : World StrategyRef A) :
  timerId <$> timers w
  = match r with Some d => option_list (timeoutId d) | None => [] end ->
  cancelRef r w = (idle r, withTimers [] w).
Proof.
  intros E. unfold cancelRef, debouncedCancel, clearTimeout.
  destruct r as [[[id|]]|]; cbn [timeoutId option_list idle] in *.
  - rewrite (clear_own _ _ E). reflexivity.
  - rewrite <- (ids_nil _ E), withTimers_same. reflexivity.
  - rewrite <- (ids_nil _ E), withTimers_same. reflexivity.
Qed.
End BrowserFacts.

(** ** Loops over [Object.entries] *)

Lemma fold_left_pointwise {S E} (f g : S -> E -> S) (l : list E) :
  (forall s e, f s e = g s e) -> forall s, fold_left f l s = fold_left g l s.
Proof.
  intros Hfg. induction l as [|e l IH]; intros s; [reflexivity|].
  cbn [fold_left]. rewrite Hfg. apply IH.
Qed.

Section EntryLoops.
Context {A B : Type}.

(** A loop that sets or removes the key of each entry. *)
Lemma fold_partial_alter (g : string -> A -> option B) (l : list (string * A)) :
  NoDup l.*1 ->
  forall (m : gmap string B) k,
    fold_left (fun m e => partial_alter (fun _ => g e.1 e.2) e.1 m) l m !! k
    = match (list_to_map l : gmap string A) !! k with
      | Some a => g k a
      | None => m !! k
      end.
Proof.
  induction l as [|[k1 a1] l IH]; intros Hnd m k; [reflexivity|].
  cbn [fmap list_fmap fst] in Hnd. apply NoDup_cons in Hnd as [Hk1 Hnd].
  cbn [fold_left fst snd list_to_map foldr uncurry]. rewrite (IH Hnd).
  assert ((list_to_map l : gmap string A) !! k1 = None) as Hnone
    by (apply not_elem_of_list_to_map_1; exact Hk1).
  destruct (decide (k = k1)) as [->|Hne].
  - rewrite Hnone, lookup_insert_eq, lookup_partial_alter_eq. reflexivity.
  - rewrite lookup_insert_ne by congruence.
    rewrite lookup_partial_alter_ne by congruence. reflexivity.
Qed.

(** A loop that sets the key of the entries [g] accepts and skips the
    others. *)
Lemma fold_insert_some (g : string -> A -> option B) (l : list (string * A)) :
  NoDup l.*1 ->
  forall (m : gmap string B) k,
    fold_left (fun m e => match g e.1 e.2 with
                          | Some b => <[e.1 := b]> m
                          | None => m
                          end) l m !! k
    = match (list_to_map l : gmap string A) !! k ≫= g k with
      | Some b => Some b
      | None => m !! k
      end.
Proof.
  induction l as [|[k1 a1] l IH]; intros Hnd m k; [reflexivity|].
  cbn [fmap list_fmap fst] in Hnd. apply NoDup_cons in Hnd as [Hk1 Hnd].
  cbn [fold_left fst snd list_to_map foldr uncurry]. rewrite (IH Hnd).
  assert ((list_to_map l : gmap string A) !! k1 = None) as Hnone
    by (apply not_elem_of_list_to_map_1; exact Hk1).
  destruct (decide (k = k1)) as [->|Hne].
  - rewrite Hnone, lookup_insert_eq. cbn [mbind option_bind].
    destruct (g k1 a1); [rewrite lookup_insert_eq|]; reflexivity.
  - rewrite lookup_insert_ne by congruence.
    destruct (list_to_map l !! k ≫= g k); [reflexivity|].
    destruct (g k1 a1); [rewrite lookup_insert_ne by congruence|]; reflexivity.
Qed.
End EntryLoops.

(** ** Reading a plain object *)

Section ObjectFacts.
Import JsObject.
Context {A : Type}.

Lemma getProperty_own (obj : gmap string A) k a :
  obj !! k = Some a -> getProperty obj k = Own a.
Proof. intros E. unfold getProperty. rewrite E. reflexivity. Qed.

Lemma getProperty_missing (obj : gmap string A) k :
  obj !! k = None -> inherited k = false -> getProperty obj k = Missing.
Proof. intros E Hi. unfold getProperty. rewrite E, Hi. reflexivity. Qed.

Lemma getProperty_proto (obj : gmap string A) k :
  obj !! k = None -> inherited k = true -> getProperty obj k = Proto.
Proof. intros E Hi. unfold getProperty. rewrite E, Hi. reflexivity. Qed.

Lemma ownOrMissing_dec {B} (obj : gmap string A) (l : list (string * B)) :
  {ownOrMissing obj l} + {~ ownOrMissing obj l}.
Proof.
  unfold ownOrMissing. apply Forall_dec. intros [k v]. cbn [fst].
  destruct (obj !! k) as [a|].
  - left. left. eauto.
  - destruct (inherited k).
    + right. intros [[? ?]|?]; discriminate.
    + left. right. reflexivity.
Qed.
End ObjectFacts.

(** ** [debounce] next to the timers of others *)

Section DebounceFacts.
Context {StrategyRef : Type} `{Countable StrategyRef}.
Context {A : Type}.

Lemma filter_fresh (ts : list (Timer A)) (id : positive) :
  Forall (fun t => (timerId t < id)%positive) ts ->
  filter (fun t => timerId t <> id) ts = ts.
Proof.
  induction 1 as [|t ts Ht _ IH]; [reflexivity|].
  rewrite filter_cons_True by lia. rewrite IH. reflexivity.
Qed.

(** X5: a call of a debounced function removes from the timer queue
    the timer this function had armed, if any, and appends its new one;
    [cancel] after it leaves the queue without any timer of this
    function; the timers of others stay, in order; and a second
    [cancel] changes nothing. *)
Theorem debounce_own_timer_only (ms : nat) (args : A) (d : Debounced)
    (w : World StrategyRef A) :
  Forall (fun t => (timerId t < nextTimerId w)%positive) (timers w) ->
  let others := filter (fun t => Some (timerId t) <> timeoutId d) (timers w) in
  let called := debouncedCall ms args d w in
  let cancelled := debouncedCancel called.1 called.2 in
  timers called.2
  = others ++ [{| timerId := nextTimerId w; due := now w + ms; timerArgs := args |}]
  /\ timeoutId called.1 = Some (nextTimerId w)
  /\ timers cancelled.2 = others /\ timeoutId cancelled.1 = None
  /\ debouncedCancel cancelled.1 cancelled.2 = cancelled
  /\ historyCalls cancelled.2 = historyCalls w /\ href cancelled.2 = href w.
Proof.
  intros Hfresh. cbn zeta.
  assert (Hothers : timers (match timeoutId d with
                            | Some id => clearTimeout id w
                            | None => w
                            end)
                    = filter (fun t => Some (timerId t) <> timeoutId d) (timers w)).
  { destruct (timeoutId d) as [id|]; cbn.
    - apply list_filter_iff. intros t. split; congruence.
    - symmetry. clear. induction (timers w) as [|t ts IH]; [reflexivity|].
      rewrite filter_cons_True by discriminate. rewrite IH. reflexivity. }
  assert (Hnext : nextTimerId (match timeoutId d with
                               | Some id => clearTimeout id w
                               | None => w
                               end) = nextTimerId w).
  { destruct (timeoutId d); reflexivity. }
  assert (Hfresh' : Forall (fun t => (timerId t < nextTimerId w)%positive)
                      (filter (fun t => Some (timerId t) <> timeoutId d) (timers w))).
  { apply Forall_forall. intros t Ht. apply list_elem_of_filter in Ht as [_ Ht].
    rewrite Forall_forall in Hfresh. apply Hfresh, Ht. }
  unfold debouncedCall, setTimeout. cbn [fst snd timers].
  rewrite Hothers, Hnext.
  split; [destruct (timeoutId d); reflexivity|]. split; [reflexivity|].
  unfold debouncedCancel. cbn [timeoutId fst snd]. unfold clearTimeout.
  cbn [timers withTimers timeoutId historyCalls href].
  rewrite filter_app, (filter_fresh _ _ Hfresh').
  rewrite filter_cons_False by (intros Hne; apply Hne; reflexivity).
  rewrite filter_nil, app_nil_r.
  repeat split; destruct (timeoutId d); reflexivity.
Qed.
End DebounceFacts.

(** ** The snapshot store *)

Section SnapshotFacts.
Context {StrategyRef : Type} `{Countable StrategyRef}.
Variable impl : StrategyRef -> LocationStrategy.

Local Abbreviation parsedSnapshot := (parsedSnapshot impl).
Local Abbreviation refreshedStore := (refreshedStore impl).

Lemma getSnapshot_hit s url st c :
  snapshotCache st !! s = Some c -> cachedRaw c = getRaw (impl s) url ->
  getSnapshot impl s url st = (cachedSnapshot c, st).
Proof.
  intros Hc Hr. unfold getSnapshot. cbn zeta. rewrite Hc.
  rewrite decide_True by exact Hr. reflexivity.
Qed.

Lemma getSnapshot_miss s url st :
  (forall c, snapshotCache st !! s = Some c -> cachedRaw c <> getRaw (impl s) url) ->
  getSnapshot impl s url st = (parsedSnapshot s url st, refreshedStore s url st).
Proof.
  intros Hm. unfold getSnapshot. cbn zeta.
  destruct (snapshotCache st !! s) as [c|] eqn:Hc; [|reflexivity].
  rewrite decide_False by (apply Hm; reflexivity). reflexivity.
Qed.

Lemma getSnapshot_cases s url st :
  (exists c, snapshotCache st !! s = Some c /\ cachedRaw c = getRaw (impl s) url
             /\ getSnapshot impl s url st = (cachedSnapshot c, st))
  \/ getSnapshot impl s url st = (parsedSnapshot s url st, refreshedStore s url st).
Proof.
  destruct (snapshotCache st !! s) as [c|] eqn:Hc.
  - destruct (decide (cachedRaw c = getRaw (impl s) url)) as [Hr|Hr].
    + left. exists c. repeat split; [exact Hr | apply getSnapshot_hit; assumption].
    + right. apply getSnapshot_miss. intros c' Hc'. congruence.
  - right. apply getSnapshot_miss. intros c' Hc'. congruence.
Qed.

Lemma getSnapshot_records s url st :
  let r := getSnapshot impl s url st in
  snapshotCache r.2 !! s
  = Some {| cachedRaw := getRaw (impl s) url; cachedSnapshot := r.1 |}.
Proof.
  cbn zeta. destruct (getSnapshot_cases s url st) as [(c & Hc & Hr & ->)| ->].
  - cbn [fst snd]. rewrite Hc, <- Hr. destruct c; reflexivity.
  - cbn [fst snd refreshedStore snapshotCache]. apply lookup_insert_eq.
Qed.

Lemma getSnapshot_other s s' url st :
  s <> s' ->
  snapshotCache (getSnapshot impl s url st).2 !! s' = snapshotCache st !! s'.
Proof.
  intros Hne. destruct (getSnapshot_cases s url st) as [(c & Hc & Hr & ->)| ->].
  - reflexivity.
  - cbn [snd refreshedStore snapshotCache]. apply lookup_insert_ne. exact Hne.
Qed.

(** C4. [getSnapshot] parses only when the raw string differs from the
    one last seen for the strategy (or none was seen): on equal raw
    strings it returns the cached object itself and leaves the store as
    it is, and otherwise it returns a newly allocated object and caches
    it under that strategy only; entries of other strategies are never
    touched, so a second call for the same raw string returns the same
    object even after calls for another strategy. *)
Theorem getSnapshot_memoised s url st :
  (forall c, snapshotCache st !! s = Some c -> cachedRaw c = getRaw (impl s) url ->
             getSnapshot impl s url st = (cachedSnapshot c, st))
  /\ ((forall c, snapshotCache st !! s = Some c -> cachedRaw c <> getRaw (impl s) url) ->
      getSnapshot impl s url st = (parsedSnapshot s url st, refreshedStore s url st))
  /\ snapshotCache (getSnapshot impl s url st).2 !! s
     = Some {| cachedRaw := getRaw (impl s) url;
               cachedSnapshot := (getSnapshot impl s url st).1 |}
  /\ (forall s', s <> s' ->
        snapshotCache (getSnapshot impl s url st).2 !! s' = snapshotCache st !! s')
  /\ (forall url', getRaw (impl s) url' = getRaw (impl s) url ->
        getSnapshot impl s url' (getSnapshot impl s url st).2
        = getSnapshot impl s url st)
  /\ (forall s' url2 url', s <> s' ->
        getRaw (impl s) url' = getRaw (impl s) url ->
        let st1 := (getSnapshot impl s url st).2 in
        let st2 := (getSnapshot impl s' url2 st1).2 in
        getSnapshot impl s url' st2 = ((getSnapshot impl s url st).1, st2)).
Proof.
  split; [intros c; apply getSnapshot_hit|].
  split; [apply getSnapshot_miss|].
  split; [apply getSnapshot_records|].
  split; [intros s'; apply getSnapshot_other|].
  split.
  - intros url' Hr. pose proof (getSnapshot_records s url st) as Hrec. cbn zeta in Hrec.
    rewrite (getSnapshot_hit s url' _ _ Hrec) by (symmetry; exact Hr).
    destruct (getSnapshot impl s url st); reflexivity.
  - intros s' url2 url' Hne Hr. cbn zeta.
    pose proof (getSnapshot_records s url st) as Hrec. cbn zeta in Hrec.
    rewrite <- (getSnapshot_other s' s url2) in Hrec by congruence.
    rewrite (getSnapshot_hit s url' _ _ Hrec) by (symmetry; exact Hr). reflexivity.
Qed.
End SnapshotFacts.

(** ** [useUrlState] *)

Module UrlStateFacts.
Import UrlState.
Section Facts.
Context {StrategyRef : Type} `{Countable StrategyRef}.
Variable impl : StrategyRef -> LocationStrategy.
Variable strategy : StrategyRef.
Context {T : Type}.
Context {ParamRef : Type} `{EqDecision ParamRef}.
Variable methods : ParamRef -> Param T.
Variable key : string.
Variable debounceMs : nat.
Variable push : bool.

Local Abbreviation Cfg := (@Hook T ParamRef * World StrategyRef (T * option string))%type.
Local Abbreviation render := (useUrlState impl strategy methods key).
Local Abbreviation body := (renderBody methods key).
Local Abbreviation write := (setValue impl strategy methods key debounceMs push).
Local Abbreviation stepE := (step impl strategy methods key debounceMs push).
Local Abbreviation runE := (run impl strategy methods key debounceMs push).
Local Abbreviation cacheOk := (cacheOk methods).

Lemma decodeCached_value param encoded (h : @Hook T ParamRef) :
  cacheOk h ->
  (decodeCached methods param encoded h).1 = decode (methods param) encoded.
Proof.
  unfold UrlState.cacheOk, decodeCached. intros Hc.
  destruct (cacheRef h) as [c|]; [|reflexivity]. cbn [fst].
  destruct (bool_decide (cacheEncoded c <> encoded)) eqn:E1; [reflexivity|].
  destruct (bool_decide (cacheParam c <> param)) eqn:E2; [reflexivity|].
  cbn [orb].
  apply bool_decide_eq_false in E1, E2.
  apply dec_stable in E1, E2. rewrite Hc, E1, E2. reflexivity.
Qed.

Lemma decodeCached_ok param encoded (h : @Hook T ParamRef) :
  cacheOk h -> cacheOk (decodeCached methods param encoded h).2.
Proof.
  unfold UrlState.cacheOk, decodeCached. intros Hc. cbn.
  destruct (cacheRef h) as [c|]; [|reflexivity].
  destruct (bool_decide (cacheEncoded c <> encoded) || bool_decide (cacheParam c <> param));
    [reflexivity | exact Hc].
Qed.

Lemma body_spec param raw urlParams (h : @Hook T ParamRef)
    (w : World StrategyRef (T * option string)) :
  cacheOk h ->
  (body param raw urlParams h w).1
  = specPriority methods param (multiToSingle (default [] (urlParams !! key)))
      (specDetect raw (pendingRef h) (lastWrittenRef h)).
Proof.
  intros Hc. unfold renderBody, specPriority, specDetect.
  destruct (pendingRef h) as [p|] eqn:Ep.
  - destruct (decide (raw = prevRaw p)) as [Hr|Hr].
    + rewrite (bool_decide_eq_false_2 (raw <> prevRaw p)) by tauto.
      rewrite bool_decide_eq_true_2 by exact Hr. reflexivity.
    + rewrite (bool_decide_eq_true_2 (raw <> prevRaw p)) by exact Hr.
      rewrite bool_decide_eq_false_2 by exact Hr.
      destruct (cancelRef _ w) as [d w'].
      destruct (decodeCached _ _ _ _) as [v h'] eqn:Ed. cbn [fst snd].
      change v with (v, h').1. rewrite <- Ed.
      apply decodeCached_value. exact Hc.
  - cbn [fst snd].
    assert ((let '(value, h0) := decodeCached methods param
               (multiToSingle (default [] (urlParams !! key))) h in
             (value, (withLastWritten None h0, w))).1
            = decode (methods param) (multiToSingle (default [] (urlParams !! key)))) as Hd.
    { destruct (decodeCached _ _ _ _) as [v h'] eqn:Ed. cbn [fst].
      change v with (v, h').1. rewrite <- Ed. apply decodeCached_value. exact Hc. }
    destruct (lastWrittenRef h) as [lw|]; [|exact Hd].
    destruct (bool_decide _); [reflexivity | exact Hd].
Qed.

Lemma render_unfold param (h : @Hook T ParamRef) (w : World StrategyRef (T * option string)) :
  render param (h, w)
  = body param (getRaw (impl strategy) (href w))
      (fields (getSnapshot impl strategy (href w) (store w)).1)
      (withParam param h)
      (withStore (getSnapshot impl strategy (href w) (store w)).2 w).
Proof.
  unfold useUrlState. destruct (getSnapshot impl strategy (href w) (store w)) as [s st].
  reflexivity.
Qed.

(** The value a render exposes is the one the reading rule of the
    specification selects. *)
Lemma render_value param (c : Cfg) :
  cacheOk c.1 ->
  (render param c).1
  = specPriority methods param (currentEncoded impl strategy key c)
      (specDetect (currentRaw impl strategy c) (pendingRef c.1) (lastWrittenRef c.1)).
Proof.
  destruct c as [h w]. intros Hc. rewrite render_unfold.
  rewrite body_spec by exact Hc. reflexivity.
Qed.

Local Abbreviation pendingAt := (pendingAt impl strategy).

Lemma write_pendingAt v (c : Cfg) :
  is_Some (debouncedWriteRef c.1) -> pendingAt v (write v c).
Proof.
  destruct c as [h w]. intros [d Hd]. unfold setValue. cbn [fst snd] in *.
  cbn [withLastWritten debouncedWriteRef]. rewrite Hd.
  unfold debouncedCall. cbn.
  eexists. split; [reflexivity|]. split; [reflexivity|].
  unfold currentRaw. cbn. destruct (timeoutId d); reflexivity.
Qed.

Lemma render_pendingAt v param (c : Cfg) :
  pendingAt v c -> (render param c).1 = v /\ pendingAt v (render param c).2.
Proof.
  destruct c as [h w]. intros (p & Hp & Hv & Hr). cbn [fst snd] in *.
  unfold currentRaw in Hr. cbn [snd] in Hr.
  rewrite render_unfold. unfold renderBody.
  cbn [pendingRef withParam]. rewrite Hp.
  rewrite bool_decide_eq_false_2 by (rewrite Hr; intros E; apply E; reflexivity).
  cbn [fst snd]. split; [exact Hv|].
  exists p. cbn. repeat split; assumption.
Qed.

Lemma renders_pendingAt v ps : forall c : Cfg,
  pendingAt v c -> Forall (fun x => x = v) (renders impl strategy methods key ps c).
Proof.
  induction ps as [|p ps IH]; intros c Hc; cbn [renders]; [constructor|].
  destruct (render_pendingAt v p c Hc) as [Hv Hc'].
  destruct (render p c) as [x c']. constructor; [exact Hv | apply IH, Hc'].
Qed.

(** *** The timer queue *)

Lemma timersOk_length (c : Cfg) : timersOk c -> (length (timers c.2) <= 1)%nat.
Proof.
  unfold timersOk. intros E.
  rewrite <- (length_fmap timerId), E.
  destruct (debouncedWriteRef c.1) as [[[id|]]|]; cbn; lia.
Qed.

Lemma render_timersOk param (c : Cfg) : timersOk c -> timersOk (render param c).2.
Proof.
  destruct c as [h w]. unfold timersOk. cbn [fst snd]. intros E.
  rewrite render_unfold. unfold renderBody.
  cbn [pendingRef lastWrittenRef withParam].
  destruct (pendingRef h) as [p|].
  - destruct (bool_decide _); [|exact E].
    cbn [debouncedWriteRef withPending].
    rewrite cancelRef_spec by exact E.
    destruct (decodeCached _ _ _ _) as [v h']  eqn:Ed.
    assert (debouncedWriteRef h' = idle (debouncedWriteRef h)) as Eh.
    { unfold decodeCached in Ed. injection Ed as _ <-. reflexivity. }
    cbn. rewrite Eh. destruct (debouncedWriteRef h); reflexivity.
  - destruct (lastWrittenRef h) as [lw|]; [destruct (bool_decide _)|];
      try exact E;
      destruct (decodeCached _ _ _ _) as [v h'] eqn:Ed;
      unfold decodeCached in Ed; injection Ed as _ <-; exact E.
Qed.


Local Abbreviation commit := (writeToUrl impl strategy key push).
Local Abbreviation fire := (timerCallback impl strategy key push).
Local Abbreviation pass := (advance impl strategy key push).

Lemma commit_spec (args : T * option string) (w : World StrategyRef (T * option string)) :
  hasWindow w = true ->
  commit args w
  = historyWrite push (committedUrl impl strategy key args.2 (href w))
      (withStore (callParse impl strategy (href w) (store w)).2 w).
Proof.
  intros Hw. destruct args as [v e]. unfold writeToUrl. rewrite Hw. cbn [negb].
  unfold callParse, committedUrl, committedParams. cbn. destruct e; reflexivity.
Qed.

Lemma commit_timers (args : T * option string) (w : World StrategyRef (T * option string)) :
  timers (commit args w) = timers w.
Proof.
  destruct args as [v e]. unfold writeToUrl.
  destruct (hasWindow w); cbn; reflexivity.
Qed.

Lemma commit_hasWindow (args : T * option string) (w : World StrategyRef (T * option string)) :
  hasWindow (commit args w) = hasWindow w.
Proof.
  destruct args as [v e]. unfold writeToUrl.
  destruct (hasWindow w) eqn:E; cbn; exact E.
Qed.

Lemma pass_idle dt (c : Cfg) :
  timers c.2 = [] -> pass dt c = (c.1, tick dt c.2).
Proof.
  destruct c as [h w]. cbn [fst snd]. intros E.
  unfold advance, fireDue. cbn [timers tick]. rewrite E.
  cbn. unfold withTimers. cbn. rewrite <- E. destruct w; reflexivity.
Qed.

Lemma pass_early dt t (c : Cfg) :
  timers c.2 = [t] -> (now c.2 + dt < due t)%nat -> pass dt c = (c.1, tick dt c.2).
Proof.
  destruct c as [h w]. cbn [fst snd]. intros E Hlt.
  unfold advance, fireDue. cbn [timers tick now]. rewrite E.
  rewrite filter_cons_False, filter_nil by lia.
  rewrite filter_cons_True, filter_nil by lia.
  cbn. unfold withTimers. cbn. rewrite <- E. destruct w; reflexivity.
Qed.

Lemma pass_due dt t (c : Cfg) :
  timers c.2 = [t] -> (due t <= now c.2 + dt)%nat ->
  pass dt c = fire (timerArgs t) (c.1, withTimers [] (tick dt c.2)).
Proof.
  destruct c as [h w]. cbn [fst snd]. intros E Hle.
  unfold advance, fireDue. cbn [timers tick now]. rewrite E.
  rewrite filter_cons_True, filter_nil by lia.
  rewrite filter_cons_False, filter_nil by (intros Hn; apply Hn; lia).
  reflexivity.
Qed.

Lemma write_timersOk v (c : Cfg) : timersOk c -> timersOk (write v c).
Proof.
  destruct c as [h w]. unfold timersOk. cbn [fst snd]. intros E.
  unfold setValue. cbn [debouncedWriteRef withLastWritten].
  destruct (debouncedWriteRef h) as [d|] eqn:Ed.
  - unfold debouncedCall, setTimeout, clearTimeout.
    destruct (timeoutId d) as [id|]; cbn [option_list] in E.
    + cbn. rewrite (clear_own _ _ E). reflexivity.
    + cbn. rewrite (ids_nil _ E). reflexivity.
  - cbn [fst snd debouncedWriteRef withLastWritten]. rewrite Ed, commit_timers. exact E.
Qed.

Lemma fire_timersOk args (h : @Hook T ParamRef) (w : World StrategyRef (T * option string)) :
  timers w = [] -> timersOk (fire args (h, w)).
Proof.
  intros E. unfold timersOk, timerCallback. cbn [fst snd].
  cbn [debouncedWriteRef withPending withDebounced].
  rewrite commit_timers, E. destruct (debouncedWriteRef h); reflexivity.
Qed.

Lemma pass_timersOk dt (c : Cfg) : timersOk c -> timersOk (pass dt c).
Proof.
  intros E. pose proof E as E'. unfold timersOk in E'.
  destruct (timers c.2) as [|t [|t' ts]] eqn:Et.
  - rewrite pass_idle by exact Et. exact E.
  - destruct (le_lt_dec (due t) (now c.2 + dt)) as [Hle|Hlt].
    + rewrite (pass_due dt t) by assumption. apply fire_timersOk. reflexivity.
    + rewrite (pass_early dt t) by assumption. exact E.
  - destruct (debouncedWriteRef c.1) as [[[id|]]|]; discriminate.
Qed.

Lemma step_timersOk e (c : Cfg) : timersOk c -> timersOk (stepE c e).
Proof.
  destruct e as [param|v|dt|url]; cbn [step].
  - apply render_timersOk.
  - apply write_timersOk.
  - apply pass_timersOk.
  - destruct c as [h w]. exact id.
Qed.

Lemma run_timersOk es : forall c : Cfg, timersOk c -> timersOk (runE c es).
Proof.
  induction es as [|e es IH]; intros c Hc; [exact Hc|].
  cbn [run fold_left]. apply IH, step_timersOk, Hc.
Qed.

(** *** Traces without write requests *)

Lemma decodeCached_refs param encoded (h : @Hook T ParamRef) :
  let h' := (decodeCached methods param encoded h).2 in
  pendingRef h' = pendingRef h /\ lastWrittenRef h' = lastWrittenRef h
  /\ debouncedWriteRef h' = debouncedWriteRef h /\ paramRef h' = paramRef h.
Proof. unfold decodeCached. cbn. repeat split. Qed.

Lemma render_quiet param (c : Cfg) :
  timersOk c -> timers c.2 = [] ->
  (render param c).2.2
  = withStore (getSnapshot impl strategy (href c.2) (store c.2)).2 c.2.
Proof.
  destruct c as [h w]. unfold timersOk. cbn [fst snd]. intros Hok E.
  rewrite render_unfold.
  unfold renderBody. cbn [pendingRef lastWrittenRef withParam].
  destruct (pendingRef h) as [p|].
  - destruct (bool_decide _); [|reflexivity].
    cbn [debouncedWriteRef withPending].
    rewrite cancelRef_spec by exact Hok.
    destruct (decodeCached _ _ _ _) as [v h']. cbn [snd].
    unfold withTimers, withStore. cbn. rewrite <- E. reflexivity.
  - destruct (lastWrittenRef h) as [lw|]; [destruct (bool_decide _)|];
      try reflexivity;
      destruct (decodeCached _ _ _ _) as [v h']; reflexivity.
Qed.

Lemma quiet_step e (c : Cfg) :
  timersOk c -> timers c.2 = [] -> isWrite e = false ->
  timers (stepE c e).2 = [] /\ historyCalls (stepE c e).2 = historyCalls c.2.
Proof.
  intros Hok E Hq. destruct e as [param|v|dt|url]; cbn [step]; try discriminate.
  - rewrite render_quiet by assumption. cbn. split; [exact E | reflexivity].
  - rewrite pass_idle by exact E. cbn. split; [exact E | reflexivity].
  - cbn. split; [exact E | reflexivity].
Qed.

Lemma quiet_run es : forall c : Cfg,
  timersOk c -> timers c.2 = [] -> Forall (fun e => isWrite e = false) es ->
  historyCalls (runE c es).2 = historyCalls c.2.
Proof.
  induction es as [|e es IH]; intros c Hok E Hq; [reflexivity|].
  inversion Hq as [|? ? He Hes]; subst. cbn [run fold_left].
  destruct (quiet_step e c Hok E He) as [E' Hh].
  unfold run in IH. rewrite IH; [exact Hh | apply step_timersOk, Hok | exact E' | exact Hes].
Qed.

(** *** An external change during the pending window *)

Lemma render_external param p (c : Cfg) :
  cacheOk c.1 -> timersOk c ->
  pendingRef c.1 = Some p -> currentRaw impl strategy c <> prevRaw p ->
  let r := render param c in
  pendingRef r.2.1 = None /\ lastWrittenRef r.2.1 = None
  /\ debouncedWriteRef r.2.1 = idle (debouncedWriteRef c.1)
  /\ timers r.2.2 = []
  /\ r.1 = decode (methods param) (currentEncoded impl strategy key c)
  /\ historyCalls r.2.2 = historyCalls c.2 /\ href r.2.2 = href c.2.
Proof.
  destruct c as [h w]. unfold timersOk, currentRaw. cbn [fst snd].
  intros Hc Hok Hp Hr. cbn zeta.
  assert ((render param (h, w)).1
          = decode (methods param) (currentEncoded impl strategy key (h, w))) as Hv.
  { rewrite render_value by exact Hc. unfold specPriority, specDetect, currentRaw.
    cbn [fst snd]. rewrite Hp. rewrite bool_decide_eq_false_2 by exact Hr. reflexivity. }
  split; [|split; [|split; [|split; [|split; [exact Hv|]]]]].
  all: rewrite render_unfold; unfold renderBody;
    cbn [pendingRef lastWrittenRef withParam]; rewrite Hp;
    rewrite bool_decide_eq_true_2 by exact Hr;
    cbn [debouncedWriteRef withPending];
    rewrite cancelRef_spec by exact Hok;
    match goal with
    | |- context [decodeCached ?m ?p ?e ?hh] =>
        pose proof (decodeCached_refs p e hh) as Hrefs;
        destruct (decodeCached m p e hh) as [v h']
    end;
    cbn in Hrefs; destruct Hrefs as (R1 & R2 & R3 & R4); cbn.
  - exact R1.
  - reflexivity.
  - exact R3.
  - reflexivity.
  - split; reflexivity.
Qed.

(** *** Bursts of write requests under debounce *)

Lemma write_armed v (c0 c : Cfg) :
  (0 < debounceMs)%nat -> quietSince c0 c ->
  let c' := write v c in
  quietSince c0 c' /\ pendingAt v c'
  /\ armed (v, encode (methods (paramRef c.1)) v) (now c.2 + debounceMs) c'
  /\ timers c'.2 = [{| timerId := nextTimerId c.2; due := now c.2 + debounceMs;
                       timerArgs := (v, encode (methods (paramRef c.1)) v) |}]
  /\ now c'.2 = now c.2.
Proof.
  intros Hms (Hh & Hl & Hw & Hd & Hok). cbn zeta.
  pose proof (write_timersOk v c Hok) as Hok'.
  pose proof (write_pendingAt v c Hd) as Hp.
  destruct c as [h w]. destruct Hd as [d Hd]. cbn [fst snd] in *.
  unfold timersOk in Hok. cbn [fst snd] in Hok. rewrite Hd in Hok.
  assert (timers (write v (h, w)).2
          = [{| timerId := nextTimerId w; due := now w + debounceMs;
                timerArgs := (v, encode (methods (paramRef h)) v) |}]) as Ht.
  { unfold setValue. cbn [debouncedWriteRef withLastWritten paramRef]. rewrite Hd.
    unfold debouncedCall, setTimeout, clearTimeout.
    destruct (timeoutId d) as [id|]; cbn [option_list] in Hok; cbn.
    - rewrite (clear_own _ _ Hok). reflexivity.
    - rewrite (ids_nil _ Hok). reflexivity. }
  assert (href (write v (h, w)).2 = href w /\ historyCalls (write v (h, w)).2 = historyCalls w
          /\ hasWindow (write v (h, w)).2 = hasWindow w /\ now (write v (h, w)).2 = now w
          /\ is_Some (debouncedWriteRef (write v (h, w)).1)) as (F1 & F2 & F3 & F4 & F5).
  { unfold setValue. cbn [debouncedWriteRef withLastWritten paramRef]. rewrite Hd.
    unfold debouncedCall, setTimeout, clearTimeout.
    destruct (timeoutId d) as [id|]; cbn; repeat split; eexists; reflexivity. }
  split; [|split; [exact Hp|split; [|split; [exact Ht | exact F4]]]].
  - unfold quietSince. rewrite F1, F2, F3. repeat split; assumption.
  - eexists. split; [exact Ht|]. split; [reflexivity|]. split; [reflexivity|].
    rewrite F4. lia.
Qed.

Lemma render_pending_state v param (c : Cfg) :
  pendingAt v c ->
  (render param c).2
  = (withParam param c.1,
     withStore (getSnapshot impl strategy (href c.2) (store c.2)).2 c.2).
Proof.
  destruct c as [h w]. intros (p & Hp & Hv & Hr). cbn [fst snd] in *.
  unfold currentRaw in Hr. cbn [snd] in Hr.
  rewrite render_unfold. unfold renderBody.
  cbn [pendingRef withParam]. rewrite Hp.
  rewrite bool_decide_eq_false_2 by (rewrite Hr; intros E; apply E; reflexivity).
  reflexivity.
Qed.

Lemma renders_keep v args deadline (c0 : Cfg) ps : forall c : Cfg,
  pendingAt v c -> quietSince c0 c -> armed args deadline c ->
  let c' := runE c (Render <$> ps) in
  pendingAt v c' /\ quietSince c0 c' /\ armed args deadline c'.
Proof.
  induction ps as [|p ps IH]; intros c Hp Hq Ha; cbn zeta; [tauto|].
  cbn [fmap list_fmap run fold_left step]. apply IH.
  - apply render_pendingAt, Hp.
  - destruct Hq as (Hh & Hl & Hw & Hd & Hok).
    pose proof (render_timersOk p c Hok) as Hok'.
    rewrite (render_pending_state v) in * by exact Hp. destruct c as [h w].
    unfold quietSince. cbn in *. repeat split; assumption.
  - destruct Ha as (t & Ht & Ha & Hdue & Hnow).
    rewrite (render_pending_state v) by exact Hp. destruct c as [h w].
    exists t. cbn in *. repeat split; assumption.
Qed.

Lemma pause_early gap args deadline (c0 c : Cfg) :
  quietSince c0 c -> armed args deadline c -> (now c.2 + gap < deadline)%nat ->
  quietSince c0 (pass gap c).
Proof.
  intros (Hh & Hl & Hw & Hd & Hok) (t & Ht & Ha & Hdue & Hnow) Hlt.
  pose proof (pass_timersOk gap c Hok) as Hok'.
  rewrite (pass_early gap t) in * by (try assumption; lia).
  destruct c as [h w]. unfold quietSince. cbn in *. repeat split; assumption.
Qed.

Lemma pause_due gap args deadline (c0 c : Cfg) :
  quietSince c0 c -> armed args deadline c -> (deadline <= now c.2 + gap)%nat ->
  let c' := pass gap c in
  historyCalls c'.2
  = historyCalls c0.2 ++ [(push, committedUrl impl strategy key args.2 (href c0.2))]
  /\ href c'.2 = committedUrl impl strategy key args.2 (href c0.2)
  /\ timers c'.2 = [] /\ pendingRef c'.1 = None.
Proof.
  intros (Hh & Hl & Hw & Hd & Hok) (t & Ht & Ha & Hdue & Hnow) Hle. cbn zeta.
  rewrite (pass_due gap t) by (try assumption; lia).
  destruct c as [h w]. cbn [fst snd] in *.
  unfold timerCallback. cbn [fst snd pendingRef withPending].
  rewrite commit_spec by (cbn; exact Hw). rewrite Ha.
  cbn. rewrite Hh, Hl. repeat split.
Qed.

Lemma run_app es1 es2 (c : Cfg) : runE c (es1 ++ es2) = runE (runE c es1) es2.
Proof. unfold run. apply fold_left_app. Qed.

Lemma burst_item v ps gap (c0 c : Cfg) :
  (0 < debounceMs)%nat -> quietSince c0 c ->
  let c' := runE c (burst [(v, ps, gap)]) in
  ((gap < debounceMs)%nat -> quietSince c0 c')
  /\ ((debounceMs <= gap)%nat ->
      historyCalls c'.2
      = historyCalls c0.2
        ++ [(push, committedUrl impl strategy key
                     (encode (methods (paramRef c.1)) v) (href c0.2))]
      /\ href c'.2 = committedUrl impl strategy key
                       (encode (methods (paramRef c.1)) v) (href c0.2)
      /\ timers c'.2 = [] /\ pendingRef c'.1 = None).
Proof.
  intros Hms Hq. cbn zeta.
  unfold burst. cbn [flat_map fst snd]. rewrite app_nil_r.
  change (SetValue v :: (Render <$> ps) ++ [Advance gap])
    with ([SetValue v] ++ (Render <$> ps) ++ [Advance gap]).
  rewrite !run_app. cbn [run fold_left step].
  destruct (write_armed v c0 c Hms Hq) as (Hq1 & Hp1 & Ha1 & _ & Hn1).
  destruct (renders_keep v _ _ c0 ps _ Hp1 Hq1 Ha1) as (Hp2 & Hq2 & Ha2).
  unfold run in *.
  assert (now (fold_left stepE (Render <$> ps) (write v c)).2 = now c.2) as Hn2.
  { clear -Hp1 Hn1. revert Hp1 Hn1. generalize (write v c) as c1.
    induction ps as [|p ps IH]; intros c1 Hp Hn; [exact Hn|].
    cbn [fmap list_fmap fold_left step]. apply IH.
    - apply render_pendingAt, Hp.
    - rewrite (render_pending_state v) by exact Hp. destruct c1; exact Hn. }
  split; intros Hgap.
  - eapply pause_early; [exact Hq2 | exact Ha2 | rewrite Hn2; lia].
  - eapply (pause_due gap _ _ c0) in Ha2; [exact Ha2 | exact Hq2 | rewrite Hn2; lia].
Qed.

Lemma burst_quiet ws : forall c0 c : Cfg,
  (0 < debounceMs)%nat -> quietSince c0 c ->
  Forall (fun w : T * list ParamRef * nat => (w.2 < debounceMs)%nat) ws ->
  quietSince c0 (runE c (burst ws)).
Proof.
  induction ws as [|[[v ps] gap] ws IH]; intros c0 c Hms Hq Hws; [exact Hq|].
  inversion Hws as [|? ? Hgap Hws']; subst.
  assert (burst ((v, ps, gap) :: ws) = burst [(v, ps, gap)] ++ burst ws) as ->
    by (unfold burst; cbn [flat_map]; rewrite app_nil_r; reflexivity).
  rewrite run_app. apply IH; [exact Hms | | exact Hws'].
  apply (burst_item v ps gap c0 c Hms Hq). exact Hgap.
Qed.

(** *** The invariants hold in every state a mounted hook reaches *)

Lemma render_cacheOk param (c : Cfg) : cacheOk c.1 -> cacheOk (render param c).2.1.
Proof.
  destruct c as [h w]. cbn [fst]. intros Hc. rewrite render_unfold.
  assert (cacheOk (withParam param h)) as Hc' by exact Hc.
  unfold renderBody. cbn [pendingRef lastWrittenRef withParam].
  destruct (pendingRef h) as [p|].
  - destruct (bool_decide _); [|exact Hc'].
    destruct (cancelRef _ _) as [d w'].
    match goal with
    | |- context [decodeCached ?m ?q ?e ?hh] =>
        pose proof (decodeCached_ok q e hh Hc') as Hok;
        destruct (decodeCached m q e hh) as [v h']
    end. exact Hok.
  - destruct (lastWrittenRef h) as [lw|]; [destruct (bool_decide _)|];
      try exact Hc';
      match goal with
      | |- context [decodeCached ?m ?q ?e ?hh] =>
          pose proof (decodeCached_ok q e hh Hc') as Hok;
          destruct (decodeCached m q e hh) as [v h']
      end; exact Hok.
Qed.

Lemma write_cache v (c : Cfg) : cacheRef (write v c).1 = cacheRef c.1.
Proof.
  destruct c as [h w]. unfold setValue. cbn [debouncedWriteRef withLastWritten].
  destruct (debouncedWriteRef h) as [d|]; [|reflexivity].
  destruct (debouncedCall _ _ _ _) as [d' w']. reflexivity.
Qed.

Lemma fires_cache (ts : list (Timer (T * option string))) : forall c : Cfg,
  cacheRef (fold_left (fun c t => fire (timerArgs t) c) ts c).1 = cacheRef c.1.
Proof.
  induction ts as [|t ts IH]; intros [h w]; [reflexivity|].
  cbn [fold_left]. rewrite IH. reflexivity.
Qed.

Lemma pass_cache dt (c : Cfg) : cacheRef (pass dt c).1 = cacheRef c.1.
Proof. destruct c as [h w]. unfold advance, fireDue. rewrite fires_cache. reflexivity. Qed.

Lemma step_cacheOk e (c : Cfg) : cacheOk c.1 -> cacheOk (stepE c e).1.
Proof.
  destruct e as [param|v|dt|url]; cbn [step].
  - apply render_cacheOk.
  - unfold UrlState.cacheOk. rewrite write_cache. exact id.
  - unfold UrlState.cacheOk. rewrite pass_cache. exact id.
  - exact id.
Qed.

Lemma mount_invariants param url :
  let c : Cfg := mount impl strategy methods key debounceMs param url in
  cacheOk c.1 /\ timersOk c.
Proof.
  cbn zeta. unfold mount.
  pose proof (render_cacheOk param (initialHook param, initialWorld url) I) as Hc.
  pose proof (render_quiet param (initialHook param, initialWorld url) eq_refl eq_refl)
    as Hw.
  destruct (render param (initialHook param, initialWorld url)) as [v [h w]].
  cbn [fst snd] in *. subst w. unfold effectSetup, timersOk.
  destruct (0 <? debounceMs)%nat; split; try exact Hc; reflexivity.
Qed.

(** Every state reached from a mount satisfies the two invariants the
    properties below assume. *)
Lemma reachable_invariants param url es :
  let c : Cfg := runE (mount impl strategy methods key debounceMs param url) es in
  cacheOk c.1 /\ timersOk c.
Proof.
  cbn zeta. destruct (mount_invariants param url) as [Hc Ht]. revert Hc Ht.
  generalize (mount impl strategy methods key debounceMs param url).
  induction es as [|e es IH]; intros c Hc Ht; [split; assumption|].
  cbn [run fold_left]. apply IH; [apply step_cacheOk, Hc | apply step_timersOk, Ht].
Qed.

(** *** The causality record when nothing is pending *)

Lemma render_settled param (c : Cfg) :
  cacheOk c.1 -> pendingRef c.1 = None ->
  let r := render param c in
  (forall lw, lastWrittenRef c.1 = Some lw ->
              lwEncoded lw = currentEncoded impl strategy key c ->
              r.1 = lwDecoded lw /\ lastWrittenRef r.2.1 = Some lw)
  /\ ((forall lw, lastWrittenRef c.1 = Some lw ->
                  lwEncoded lw <> currentEncoded impl strategy key c) ->
      r.1 = decode (methods param) (currentEncoded impl strategy key c)
      /\ lastWrittenRef r.2.1 = None).
Proof.
  destruct c as [h w]. unfold currentEncoded. cbn [fst snd]. intros Hc Hp. cbn zeta.
  split.
  - intros lw Hlw He. rewrite render_unfold. unfold renderBody.
    cbn [pendingRef lastWrittenRef withParam]. rewrite Hp, Hlw.
    rewrite bool_decide_eq_true_2 by exact He. split; [reflexivity | exact Hlw].
  - intros Hmiss. split.
    + rewrite render_value by exact Hc. unfold specPriority, specDetect, currentEncoded.
      cbn [fst snd]. rewrite Hp. cbn [fst snd].
      destruct (lastWrittenRef h) as [lw|]; [|reflexivity].
      rewrite bool_decide_eq_false_2 by (apply Hmiss; reflexivity). reflexivity.
    + rewrite render_unfold. unfold renderBody.
      cbn [pendingRef lastWrittenRef withParam]. rewrite Hp.
      destruct (lastWrittenRef h) as [lw|].
      * rewrite bool_decide_eq_false_2 by (apply Hmiss; reflexivity).
        destruct (decodeCached _ _ _ _); reflexivity.
      * destruct (decodeCached _ _ _ _); reflexivity.
Qed.

Lemma body_first_only param raw urlParams urlParams' (h : @Hook T ParamRef)
    (w : World StrategyRef (T * option string)) :
  multiToSingle (default [] (urlParams !! key))
  = multiToSingle (default [] (urlParams' !! key)) ->
  body param raw urlParams h w = body param raw urlParams' h w.
Proof. intros E. unfold renderBody. rewrite E. reflexivity. Qed.

Lemma committedParams_key e url :
  committedParams impl strategy key e url !! key = (fun x => [x]) <$> e.
Proof.
  unfold committedParams. destruct e; cbn;
    [apply lookup_insert_eq | apply lookup_delete_eq].
Qed.

Lemma committedParams_other e url k :
  k <> key ->
  committedParams impl strategy key e url !! k = parse (impl strategy) url !! k.
Proof.
  intros Hne. unfold committedParams. destruct e;
    [apply lookup_insert_ne | apply lookup_delete_ne]; congruence.
Qed.


(** C3. Under a positive debounce delay, in a browser and once the
    effect has installed the debounced writer: write requests that each
    come less than the delay after the previous one (with any renders in
    between), followed by a pause of at least the delay, produce exactly
    one commit, and it carries the last requested value; every write
    request replaces the pending payload and re-arms the single timer;
    and whatever happens, the hook never has more than one timer in the
    queue. *)
Theorem debounce_coalesces (c : Cfg) ws vN psN g :
  (0 < debounceMs)%nat ->
  hasWindow c.2 = true -> is_Some (debouncedWriteRef c.1) -> timersOk c ->
  Forall (fun w : T * list ParamRef * nat => (w.2 < debounceMs)%nat) ws ->
  (debounceMs <= g)%nat ->
  let c1 := runE c (burst ws) in
  let c2 := runE c1 (burst [(vN, psN, g)]) in
  let encodedN := encode (methods (paramRef c1.1)) vN in
  historyCalls c1.2 = historyCalls c.2
  /\ historyCalls c2.2
     = historyCalls c.2 ++ [(push, committedUrl impl strategy key encodedN (href c.2))]
  /\ href c2.2 = committedUrl impl strategy key encodedN (href c.2)
  /\ timers c2.2 = [] /\ pendingRef c2.1 = None
  /\ (forall v,
        timers (write v c1).2
        = [{| timerId := nextTimerId c1.2; due := now c1.2 + debounceMs;
              timerArgs := (v, encode (methods (paramRef c1.1)) v) |}]
        /\ pendingAt v (write v c1))
  /\ (forall es, length (timers (runE c es).2) <= 1)%nat.
Proof.
  intros Hms Hw Hd Hok Hws Hg. cbn zeta.
  assert (quietSince c c) as Hq by (repeat split; assumption).
  pose proof (burst_quiet ws c c Hms Hq Hws) as Hq1.
  destruct (burst_item vN psN g c _ Hms Hq1) as [_ Hfire].
  destruct (Hfire Hg) as (F1 & F2 & F3 & F4).
  split; [apply Hq1|]. split; [exact F1|]. split; [exact F2|].
  split; [exact F3|]. split; [exact F4|]. split.
  - intros v. destruct (write_armed v c _ Hms Hq1) as (_ & Hp & _ & Ht & _).
    split; [exact Ht | exact Hp].
  - intros es. apply timersOk_length, run_timersOk. exact Hok.
Qed.


(** *** Teardown, and the pending value against the timer queue *)

Lemma cleanup_spec (c : Cfg) :
  timersOk c ->
  effectCleanup c = (withDebounced (idle (debouncedWriteRef c.1)) c.1, withTimers [] c.2).
Proof.
  destruct c as [h w]. intros Ht. unfold effectCleanup. cbn [fst snd].
  rewrite (cancelRef_spec (debouncedWriteRef h) w Ht). reflexivity.
Qed.

Lemma setup_timersOk ms (h : @Hook T ParamRef) (w : World StrategyRef (T * option string)) :
  timers w = [] -> timersOk (effectSetup ms h, w).
Proof.
  intros Et. unfold timersOk, effectSetup. cbn [fst snd]. rewrite Et.
  destruct (0 <? ms)%nat; reflexivity.
Qed.

Local Abbreviation pendingBacked := (@UrlStateInv.pendingBacked StrategyRef _ _ T ParamRef).

Lemma render_pendingBacked param (c : Cfg) :
  timersOk c -> pendingBacked c -> pendingBacked (render param c).2.
Proof.
  destruct c as [h w]. unfold timersOk, UrlStateInv.pendingBacked. cbn [fst snd].
  intros Ht Hb. rewrite render_unfold.
  unfold renderBody. cbn [pendingRef lastWrittenRef debouncedWriteRef withParam withPending].
  destruct (pendingRef h) as [p|] eqn:Ep.
  - destruct (bool_decide _).
    + rewrite cancelRef_spec by exact Ht.
      match goal with
      | |- context [decodeCached ?m ?q ?e ?hh] =>
          pose proof (decodeCached_refs q e hh) as (Hp & _);
          destruct (decodeCached m q e hh) as [v h']
      end.
      cbn [fst snd pendingRef withLastWritten] in *. rewrite Hp. reflexivity.
    + cbn [fst snd pendingRef withParam lastWrittenRef]. rewrite Ep. exact Hb.
  - destruct (lastWrittenRef h) as [lw|]; [destruct (bool_decide _)|];
      try (cbn [fst snd pendingRef withParam]; rewrite Ep; exact Hb);
      match goal with
      | |- context [decodeCached ?m ?q ?e ?hh] =>
          pose proof (decodeCached_refs q e hh) as (Hp & _);
          destruct (decodeCached m q e hh) as [v h']
      end;
      cbn [fst snd pendingRef withLastWritten withParam] in *; rewrite Hp, Ep; exact Hb.
Qed.

Lemma write_pendingBacked v (c : Cfg) :
  timersOk c -> pendingBacked c -> pendingBacked (write v c).
Proof.
  destruct c as [h w]. unfold timersOk, UrlStateInv.pendingBacked. cbn [fst snd].
  intros Ht Hb. unfold setValue. cbn [debouncedWriteRef withLastWritten].
  destruct (debouncedWriteRef h) as [d|] eqn:Ed.
  - unfold debouncedCall, setTimeout, clearTimeout.
    destruct (timeoutId d) as [id|]; cbn [option_list] in Ht.
    + cbn. rewrite (clear_own _ _ Ht). eexists. repeat split.
    + cbn. rewrite (ids_nil _ Ht). eexists. repeat split.
  - cbn [fst snd pendingRef withLastWritten]. rewrite commit_timers.
    apply ids_nil in Ht. rewrite Ht in Hb |- *.
    destruct (pendingRef h) as [p|]; [|reflexivity].
    destruct Hb as (t & Hnil & _). discriminate.
Qed.

Lemma pass_pendingBacked dt (c : Cfg) :
  timersOk c -> pendingBacked c -> pendingBacked (pass dt c).
Proof.
  intros Ht Hb. pose proof (timersOk_length c Ht) as Hlen.
  destruct (timers c.2) as [|t [|t' ts]] eqn:Et.
  - rewrite pass_idle by exact Et.
    unfold UrlStateInv.pendingBacked in *. cbn [fst snd]. exact Hb.
  - destruct (le_lt_dec (due t) (now c.2 + dt)) as [Hle|Hlt].
    + rewrite (pass_due dt t) by assumption.
      unfold UrlStateInv.pendingBacked, timerCallback. cbn [fst snd pendingRef withPending].
      rewrite commit_timers. reflexivity.
    + rewrite (pass_early dt t) by assumption.
      unfold UrlStateInv.pendingBacked in *. cbn [fst snd]. exact Hb.
  - cbn in Hlen. lia.
Qed.

Lemma step_pendingBacked e (c : Cfg) :
  timersOk c -> pendingBacked c -> pendingBacked (stepE c e).
Proof.
  destruct e as [param|v|dt|url]; cbn [step].
  - apply render_pendingBacked.
  - apply write_pendingBacked.
  - apply pass_pendingBacked.
  - destruct c as [h w]. intros _ Hb. exact Hb.
Qed.

Lemma mount_pendingBacked param url :
  pendingBacked (mount impl strategy methods key debounceMs param url).
Proof.
  unfold mount.
  pose proof (render_pendingBacked param (initialHook param, initialWorld url)
                eq_refl eq_refl) as Hb.
  destruct (render param (initialHook param, initialWorld url)) as [v [h w]].
  unfold UrlStateInv.pendingBacked in *. cbn [fst snd] in *.
  unfold effectSetup. destruct (0 <? debounceMs)%nat; exact Hb.
Qed.

(** X6: in every state a mounted [useUrlState] hook reaches through
    renders, write requests, pauses and navigations, a value is pending
    exactly while one debounce timer is armed, and that timer will write
    the value the renders show, with the encoding the causality record
    holds. *)
Theorem pending_backed_by_timer param url es :
  let c : Cfg := runE (mount impl strategy methods key debounceMs param url) es in
  (pendingRef c.1 = None <-> timers c.2 = [])
  /\ (forall p, pendingRef c.1 = Some p ->
        exists t, timers c.2 = [t]
                  /\ pendingDecoded p = (timerArgs t).1
                  /\ lastWrittenRef c.1
                     = Some {| lwEncoded := (timerArgs t).2;
                               lwDecoded := (timerArgs t).1 |}).
Proof.
  cbn zeta.
  assert (Hb : pendingBacked (runE (mount impl strategy methods key debounceMs param url) es)).
  { destruct (mount_invariants param url) as [_ Ht].
    pose proof (mount_pendingBacked param url) as Hb. revert Ht Hb.
    generalize (mount impl strategy methods key debounceMs param url).
    induction es as [|e es IH]; intros c Ht Hb; [exact Hb|].
    cbn [run fold_left]. apply IH; [apply step_timersOk, Ht|].
    apply step_pendingBacked; assumption. }
  unfold UrlStateInv.pendingBacked in Hb.
  destruct (pendingRef _) as [p|].
  - destruct Hb as (t & Et & Hv & Hlw). split.
    + split; [discriminate|]. rewrite Et. discriminate.
    + intros p' [= <-]. eauto.
  - split; [tauto|]. intros p' [=].
Qed.

End Facts.
End UrlStateFacts.

(** ** Teardown of [useUrlState] *)

Module UrlStateTeardown.
Import UrlState.
Section Facts.
Context {StrategyRef : Type} `{Countable StrategyRef}.
Variable impl : StrategyRef -> LocationStrategy.
Variable strategy : StrategyRef.
Context {T : Type}.
Context {ParamRef : Type} `{EqDecision ParamRef}.
Variable methods : ParamRef -> Param T.
Variable key : string.
Variable push : bool.

Local Abbreviation Cfg := (@Hook T ParamRef * World StrategyRef (T * option string))%type.

(** X8: the effect cleanup of [useUrlState] empties the timer queue
    without writing: whatever was pending is never committed, neither
    if the component is gone nor if the effect runs again (with any
    debounce delay) and the hook goes on through renders, pauses and
    navigations.  The cleanup leaves [pendingRef] as it is, so that
    after such a restart the renders go on returning the dropped
    value. *)
Theorem teardown_drops_pending (c : Cfg) :
  timersOk c ->
  let c' := effectCleanup c in
  timers c'.2 = [] /\ historyCalls c'.2 = historyCalls c.2 /\ href c'.2 = href c.2
  /\ pendingRef c'.1 = pendingRef c.1 /\ lastWrittenRef c'.1 = lastWrittenRef c.1
  /\ debouncedWriteRef c'.1 = idle (debouncedWriteRef c.1)
  /\ (forall ms es, Forall (fun e => isWrite e = false) es ->
        historyCalls
          (run impl strategy methods key ms push (effectSetup ms c'.1, c'.2) es).2
        = historyCalls c.2)
  /\ (forall v ms ps, pendingAt impl strategy v c ->
        Forall (fun x => x = v)
          (renders impl strategy methods key ps (effectSetup ms c'.1, c'.2))).
Proof.
  intros Ht c'. subst c'. rewrite (UrlStateFacts.cleanup_spec c Ht). cbn [fst snd].
  do 6 (split; [reflexivity|]). split.
  - intros ms es Hes.
    rewrite (UrlStateFacts.quiet_run impl strategy methods key ms push es); try assumption;
      [reflexivity| |reflexivity].
    apply UrlStateFacts.setup_timersOk. reflexivity.
  - intros v ms ps (p & Hp & Hv & Hraw). apply UrlStateFacts.renders_pendingAt.
    exists p. split; [|split; assumption].
    cbn [fst]. unfold effectSetup. destruct (0 <? ms)%nat; exact Hp.
Qed.
End Facts.
End UrlStateTeardown.

(** ** [useUrlStates] *)

Module UrlStatesFacts.
Import JsObject UrlStates.
Section Facts.
Context {StrategyRef : Type} `{Countable StrategyRef}.
Variable impl : StrategyRef -> LocationStrategy.
Variable strategy : StrategyRef.
Context {V : Type}.
Variable params : gmap string (Param V).
Variable debounceMs : nat.
Variable push : bool.

Local Abbreviation Cfg := (@Hook V * World StrategyRef (gmap string (@Written V)))%type.
Local Abbreviation render := (useUrlStates impl strategy params).
Local Abbreviation write := (setValues impl strategy params debounceMs push).
Local Abbreviation commit := (writeToUrl impl strategy push).
Local Abbreviation fire := (timerCallback impl strategy push).
Local Abbreviation pass := (advance impl strategy push).
Local Abbreviation stepE := (step impl strategy params debounceMs push).
Local Abbreviation runE := (run impl strategy params debounceMs push).

(** *** The commit *)

Local Abbreviation written := (written params).

Lemma batch_committedParams_lookup (updates : gmap string (@Written V)) url k :
  committedParams impl strategy updates url !! k
  = match updates !! k with
    | Some u => encodedList u
    | None => parse (impl strategy) url !! k
    end.
Proof.
  unfold committedParams.
  rewrite <- (list_to_map_to_list updates) at 2.
  rewrite <- (fold_partial_alter (fun _ u => encodedList u))
    by apply NoDup_fst_map_to_list.
  f_equal. apply fold_left_pointwise. intros m [k' u]. unfold applyUpdate, encodedList.
  cbn [fst snd]. destruct (encoded u); reflexivity.
Qed.

Lemma batch_commit_spec (updates : gmap string (@Written V))
    (w : World StrategyRef (gmap string (@Written V))) :
  hasWindow w = true ->
  commit updates w
  = historyWrite push
      (buildUrl (impl strategy) (href w) (committedParams impl strategy updates (href w)))
      (withStore (callParse impl strategy (href w) (store w)).2 w).
Proof. intros Hw. unfold writeToUrl. rewrite Hw. reflexivity. Qed.

Lemma batch_commit_timers (updates : gmap string (@Written V))
    (w : World StrategyRef (gmap string (@Written V))) :
  timers (commit updates w) = timers w.
Proof. unfold writeToUrl. destruct (hasWindow w); reflexivity. Qed.

(** *** The first loop of [setValues] *)

Lemma batch_encodeLoop_done (l : list (string * V)) :
  ownOrMissing params l -> forall eu lw,
  encodeLoop params l (eu, lw) = Done (recordAll params l eu, recordAll params l lw).
Proof.
  unfold recordAll.
  induction l as [|[k v] l IH]; intros Hl eu lw; [reflexivity|].
  apply Forall_cons in Hl as [Hk Hl]. cbn [fst] in Hk.
  cbn [encodeLoop fold_left fst snd]. unfold UrlStates.written.
  destruct (params !! k) as [p|] eqn:Ep.
  - rewrite (getProperty_own params k p Ep). cbn. apply IH, Hl.
  - destruct Hk as [[? ?]|Hi]; [discriminate|].
    rewrite (getProperty_missing params k Ep Hi). cbn. apply IH, Hl.
Qed.

Lemma batch_encodeLoop_thrown (l : list (string * V)) :
  ~ ownOrMissing params l ->
  forall acc, exists acc', encodeLoop params l acc = Thrown acc'.
Proof.
  induction l as [|[k v] l IH]; intros Hl acc.
  - exfalso. apply Hl. constructor.
  - cbn [encodeLoop]. unfold getProperty.
    destruct (params !! k) as [p|] eqn:Ep.
    + apply IH. intros Hr. apply Hl. constructor; [left; cbn; eauto | exact Hr].
    + destruct (inherited k) eqn:Hi; [eauto|].
      apply IH. intros Hr. apply Hl. constructor; [right; exact Hi | exact Hr].
Qed.

Lemma batch_recordAll_lookup (updates : list (string * V)) (m : gmap string (@Written V)) k :
  NoDup updates.*1 ->
  recordAll params updates m !! k
  = match (list_to_map updates : gmap string V) !! k ≫= written k with
    | Some u => Some u
    | None => m !! k
    end.
Proof. intros Hnd. unfold recordAll. apply fold_insert_some, Hnd. Qed.

Lemma batch_encodeUpdates_done (updates : list (string * V)) (lw : gmap string (@Written V)) :
  ownOrMissing params updates ->
  encodeUpdates params updates lw
  = Done (recordAll params updates ∅, recordAll params updates lw).
Proof. intros Hu. unfold encodeUpdates. apply batch_encodeLoop_done, Hu. Qed.

(** *** Renders and the timer queue *)

Lemma batch_render_unfold (h : @Hook V) (w : World StrategyRef (gmap string (@Written V))) :
  render (h, w)
  = renderBody params (getRaw (impl strategy) (href w))
      (fields (getSnapshot impl strategy (href w) (store w)).1) h
      (withStore (getSnapshot impl strategy (href w) (store w)).2 w).
Proof.
  unfold useUrlStates. destruct (getSnapshot impl strategy (href w) (store w)) as [s st].
  reflexivity.
Qed.

Lemma batch_render_external p (c : Cfg) :
  timersOk c -> pendingRef c.1 = Some p -> currentRaw impl strategy c <> prevRaw p ->
  let r := render c in
  pendingRef r.2.1 = None /\ lastWrittenRef r.2.1 = ∅
  /\ debouncedWriteRef r.2.1 = idle (debouncedWriteRef c.1)
  /\ timers r.2.2 = []
  /\ (forall k, r.1 !! k
                = (fun param => Val (decode param
                                       (multiToSingle
                                          (default [] (currentParams impl strategy c !! k)))))
                  <$> params !! k)
  /\ historyCalls r.2.2 = historyCalls c.2 /\ href r.2.2 = href c.2.
Proof.
  destruct c as [h w]. unfold timersOk, currentRaw, currentParams. cbn [fst snd].
  intros Hok Hp Hr. cbn zeta. rewrite batch_render_unfold. unfold renderBody.
  rewrite Hp. rewrite bool_decide_eq_true_2 by exact Hr.
  cbn [debouncedWriteRef withPending].
  rewrite cancelRef_spec by exact Hok. cbn.
  repeat split. intros k. rewrite map_lookup_imap.
  destruct (params !! k); reflexivity.
Qed.

Lemma batch_render_timersOk (c : Cfg) : timersOk c -> timersOk (render c).2.
Proof.
  destruct c as [h w]. unfold timersOk. cbn [fst snd]. intros E.
  rewrite batch_render_unfold. unfold renderBody.
  destruct (pendingRef h) as [p|].
  - destruct (bool_decide _); [|exact E].
    cbn [debouncedWriteRef withPending].
    rewrite cancelRef_spec by exact E. cbn.
    destruct (debouncedWriteRef h); reflexivity.
  - destruct (fold_left _ _ _) as [values lw]. exact E.
Qed.

Lemma batch_render_quiet (c : Cfg) :
  timersOk c -> timers c.2 = [] ->
  (render c).2.2 = withStore (getSnapshot impl strategy (href c.2) (store c.2)).2 c.2.
Proof.
  destruct c as [h w]. unfold timersOk. cbn [fst snd]. intros Hok E.
  rewrite batch_render_unfold. unfold renderBody.
  destruct (pendingRef h) as [p|].
  - destruct (bool_decide _); [|reflexivity].
    cbn [debouncedWriteRef withPending].
    rewrite cancelRef_spec by exact Hok. cbn [snd].
    unfold withTimers, withStore. cbn. rewrite <- E. reflexivity.
  - destruct (fold_left _ _ _) as [values lw]. reflexivity.
Qed.

Lemma batch_pass_idle dt (c : Cfg) : timers c.2 = [] -> pass dt c = (c.1, tick dt c.2).
Proof.
  destruct c as [h w]. cbn [fst snd]. intros E.
  unfold advance, fireDue. cbn [timers tick]. rewrite E.
  cbn. unfold withTimers. cbn. rewrite <- E. destruct w; reflexivity.
Qed.

Lemma batch_pass_early dt t (c : Cfg) :
  timers c.2 = [t] -> (now c.2 + dt < due t)%nat -> pass dt c = (c.1, tick dt c.2).
Proof.
  destruct c as [h w]. cbn [fst snd]. intros E Hlt.
  unfold advance, fireDue. cbn [timers tick now]. rewrite E.
  rewrite filter_cons_False, filter_nil by lia.
  rewrite filter_cons_True, filter_nil by lia.
  cbn. unfold withTimers. cbn. rewrite <- E. destruct w; reflexivity.
Qed.

Lemma batch_pass_due dt t (c : Cfg) :
  timers c.2 = [t] -> (due t <= now c.2 + dt)%nat ->
  pass dt c = fire (timerArgs t) (c.1, withTimers [] (tick dt c.2)).
Proof.
  destruct c as [h w]. cbn [fst snd]. intros E Hle.
  unfold advance, fireDue. cbn [timers tick now]. rewrite E.
  rewrite filter_cons_True, filter_nil by lia.
  rewrite filter_cons_False, filter_nil by (intros Hn; apply Hn; lia).
  reflexivity.
Qed.

Lemma batch_write_timersOk updates (c : Cfg) :
  timersOk c -> timersOk (stateAfter (write updates c)).
Proof.
  destruct c as [h w]. unfold timersOk. cbn [fst snd]. intros E.
  unfold setValues. destruct (encodeUpdates _ _ _) as [[eu lw]|[eu lw]]; [|exact E].
  cbn [debouncedWriteRef withLastWritten].
  destruct (debouncedWriteRef h) as [d|] eqn:Ed.
  - unfold debouncedCall, setTimeout, clearTimeout.
    destruct (timeoutId d) as [id|]; cbn [option_list] in E.
    + cbn. rewrite (clear_own _ _ E). reflexivity.
    + cbn. rewrite (ids_nil _ E). reflexivity.
  - cbn [stateAfter fst snd debouncedWriteRef withLastWritten].
    rewrite Ed, batch_commit_timers. exact E.
Qed.

Lemma batch_pass_timersOk dt (c : Cfg) : timersOk c -> timersOk (pass dt c).
Proof.
  intros E. pose proof E as E'. unfold timersOk in E'.
  destruct (timers c.2) as [|t [|t' ts]] eqn:Et.
  - rewrite batch_pass_idle by exact Et. exact E.
  - destruct (le_lt_dec (due t) (now c.2 + dt)) as [Hle|Hlt].
    + rewrite (batch_pass_due dt t) by assumption.
      unfold timersOk, timerCallback. cbn [fst snd].
      cbn [debouncedWriteRef withPending withDebounced].
      rewrite batch_commit_timers. destruct (debouncedWriteRef c.1); reflexivity.
    + rewrite (batch_pass_early dt t) by assumption. exact E.
  - destruct (debouncedWriteRef c.1) as [[[id|]]|]; discriminate.
Qed.

Lemma batch_step_timersOk e (c : Cfg) : timersOk c -> timersOk (stepE c e).
Proof.
  destruct e as [|v|dt|url]; cbn [step].
  - apply batch_render_timersOk.
  - apply batch_write_timersOk.
  - apply batch_pass_timersOk.
  - destruct c as [h w]. exact id.
Qed.

Lemma batch_quiet_step e (c : Cfg) :
  timersOk c -> timers c.2 = [] -> isWrite e = false ->
  timers (stepE c e).2 = [] /\ historyCalls (stepE c e).2 = historyCalls c.2.
Proof.
  intros Hok E Hq. destruct e as [|v|dt|url]; cbn [step]; try discriminate.
  - rewrite batch_render_quiet by assumption. cbn. split; [exact E | reflexivity].
  - rewrite batch_pass_idle by exact E. cbn. split; [exact E | reflexivity].
  - cbn. split; [exact E | reflexivity].
Qed.

Lemma batch_quiet_run es : forall c : Cfg,
  timersOk c -> timers c.2 = [] -> Forall (fun e => isWrite e = false) es ->
  historyCalls (runE c es).2 = historyCalls c.2.
Proof.
  induction es as [|e es IH]; intros c Hok E Hq; [reflexivity|].
  inversion Hq as [|? ? He Hes]; subst. cbn [run fold_left].
  destruct (batch_quiet_step e c Hok E He) as [E' Hh].
  unfold run in IH. rewrite IH; [exact Hh | apply batch_step_timersOk, Hok | exact E' | exact Hes].
Qed.

(** *** What [setValues] does with the encoded updates *)

Lemma batch_write_spec updates (c : Cfg) :
  ownOrMissing params updates ->
  exists c',
    write updates c = Done c'
    /\ lastWrittenRef c'.1 = recordAll params updates (lastWrittenRef c.1)
    /\ (debouncedWriteRef c.1 = None -> c'.2 = commit (recordAll params updates ∅) c.2)
    /\ (is_Some (debouncedWriteRef c.1) ->
        (exists ts, timers c'.2
                    = ts ++ [{| timerId := nextTimerId c.2; due := now c.2 + debounceMs;
                                timerArgs := recordAll params updates ∅ |}])
        /\ (exists p, pendingRef c'.1 = Some p /\ prevRaw p = currentRaw impl strategy c)
        /\ historyCalls c'.2 = historyCalls c.2).
Proof.
  intros Hu. destruct c as [h w]. cbn [fst snd]. unfold setValues.
  rewrite (batch_encodeUpdates_done updates (lastWrittenRef h) Hu).
  cbn [debouncedWriteRef withLastWritten].
  destruct (debouncedWriteRef h) as [d|].
  - unfold debouncedCall, setTimeout, clearTimeout, currentRaw.
    destruct (timeoutId d) as [id|]; eexists; (split; [reflexivity|]); cbn;
      (split; [reflexivity|]); (split; [discriminate|]); intros _; repeat split; eauto.
  - eexists. split; [reflexivity|]. cbn. split; [reflexivity|]. split; [reflexivity|].
    intros [? ?]; discriminate.
Qed.

(** A [setValues] call with a key that finds a member of
    [Object.prototype] throws: it arms no timer, commits nothing and
    leaves the pending value as it was. *)
Lemma batch_write_thrown updates (c : Cfg) :
  ~ ownOrMissing params updates ->
  exists lw, write updates c = Thrown (withLastWritten lw c.1, c.2).
Proof.
  intros Hu. destruct c as [h w]. cbn [fst snd]. unfold setValues, encodeUpdates.
  destruct (batch_encodeLoop_thrown updates Hu (∅, lastWrittenRef h)) as [[eu lw] ->].
  eauto.
Qed.
(** *** The debounce window of the batched hook *)

Lemma pending_fold_lookup (updates : list (string * V)) (pv : gmap string V) k :
  NoDup updates.*1 ->
  fold_left (fun (pv : gmap string V) (entry : string * V) => <[entry.1 := entry.2]> pv)
            updates pv !! k
  = match (list_to_map updates : gmap string V) !! k with
    | Some v => Some v
    | None => pv !! k
    end.
Proof.
  intros Hnd.
  pose proof (fold_insert_some (fun (_ : string) (v : V) => Some v) updates Hnd pv k) as Hf.
  cbn beta iota in Hf. rewrite Hf.
  destruct ((list_to_map updates : gmap string V) !! k); reflexivity.
Qed.

(** A debounced [setValues] in full: the refs and the world it leaves. *)
Lemma batch_write_debounced updates d (c : Cfg) :
  timersOk c -> debouncedWriteRef c.1 = Some d -> ownOrMissing params updates ->
  write updates c
  = Done
      (forceUpdate
         (withDebounced (Some {| timeoutId := Some (nextTimerId c.2) |})
            (withPending
               (Some {| pendingValues :=
                          fold_left (fun (pv : gmap string V) (entry : string * V) =>
                                       <[entry.1 := entry.2]> pv)
                                    updates
                                    (default ∅ (pendingValues <$> pendingRef c.1));
                        prevRaw := getRaw (impl strategy) (href c.2) |})
               (withLastWritten (recordAll params updates (lastWrittenRef c.1)) c.1))),
       {| hasWindow := hasWindow c.2; href := href c.2; store := store c.2;
          now := now c.2;
          timers := [{| timerId := nextTimerId c.2; due := now c.2 + debounceMs;
                        timerArgs := recordAll params updates ∅ |}];
          nextTimerId := Pos.succ (nextTimerId c.2);
          historyCalls := historyCalls c.2; popstates := popstates c.2 |}).
Proof.
  destruct c as [h w]. unfold timersOk. cbn [fst snd]. intros Ht Ed Hu.
  unfold setValues. rewrite (batch_encodeUpdates_done updates (lastWrittenRef h) Hu).
  cbn [debouncedWriteRef withLastWritten]. rewrite Ed in Ht |- *.
  unfold debouncedCall, setTimeout, clearTimeout.
  destruct (timeoutId d) as [id|]; cbn [option_list] in Ht.
  - cbn. rewrite (clear_own _ _ Ht). reflexivity.
  - cbn. rewrite (ids_nil _ Ht). reflexivity.
Qed.

(** The state a [setValues] call leaves when it throws. *)
Lemma batch_write_throw_state updates (c : Cfg) :
  ~ ownOrMissing params updates ->
  exists lw, stateAfter (write updates c) = (withLastWritten lw c.1, c.2).
Proof.
  intros Hu. destruct (batch_write_thrown updates c Hu) as [lw ->]. eauto.
Qed.

(** X9: inside the debounce window [useUrlStates] returns, for every
    configured key, the value last requested for it, whether by the
    latest [setValues] call or by an earlier one of the window; a key
    without a codec gets no value; and nothing is committed.  The call
    is one that does not throw: each key of its updates has a codec of
    its own in [params] or names no member of [Object.prototype].  A
    configured key that names such a member and for which no value has
    been requested gets that member, since [key in pending] holds of it. *)
Theorem batch_pending_visible (updates : list (string * V)) (c : Cfg) :
  timersOk c -> is_Some (debouncedWriteRef c.1) ->
  noProtoKey params -> ownOrMissing params updates -> NoDup updates.*1 ->
  exists c',
    write updates c = Done c'
    /\ let r := render c' in
       let requested : gmap string V := list_to_map updates in
       (forall k v, requested !! k = Some v -> is_Some (params !! k) ->
          r.1 !! k = Some (Val v))
       /\ (forall k v p, requested !! k = None -> pendingRef c.1 = Some p ->
             pendingValues p !! k = Some v -> is_Some (params !! k) ->
             r.1 !! k = Some (Val v))
       /\ (forall k, requested !! k = None ->
             (forall p, pendingRef c.1 = Some p -> pendingValues p !! k = None) ->
             is_Some (params !! k) -> inherited k = true ->
             r.1 !! k = Some (Member k))
       /\ (forall k, params !! k = None -> r.1 !! k = None)
       /\ historyCalls r.2.2 = historyCalls c.2 /\ href r.2.2 = href c.2
       /\ pendingRef r.2.1 = pendingRef c'.1.
Proof.
  intros Ht [d Ed] _ Hu Hnd. eexists. split; [apply (batch_write_debounced updates d c Ht Ed Hu)|].
  cbn zeta. rewrite batch_render_unfold. unfold renderBody.
  cbn [pendingRef forceUpdate withDebounced withPending href prevRaw].
  rewrite bool_decide_eq_false_2 by (intros Hne; apply Hne; reflexivity).
  cbn [fst snd pendingValues lastWrittenRef].
  split; [|split; [|split; [|split; [|split; [|split]]]]]; try reflexivity.
  - intros k v Hr [param Hp]. rewrite map_lookup_imap, Hp. cbn.
    unfold pendingEntry, getProperty. rewrite pending_fold_lookup, Hr by exact Hnd.
    reflexivity.
  - intros k v p Hr Hpend Hv [param Hp]. rewrite map_lookup_imap, Hp. cbn.
    unfold pendingEntry, getProperty.
    rewrite pending_fold_lookup, Hr, Hpend by exact Hnd. cbn. rewrite Hv.
    reflexivity.
  - intros k Hr Hnone [param Hp] Hi. rewrite map_lookup_imap, Hp. cbn.
    unfold pendingEntry, getProperty. rewrite pending_fold_lookup, Hr by exact Hnd.
    destruct (pendingRef c.1) as [p|] eqn:Epend; cbn.
    + rewrite (Hnone p eq_refl), Hi. reflexivity.
    + rewrite lookup_empty, Hi. reflexivity.
  - intros k Hp. rewrite map_lookup_imap, Hp. reflexivity.
Qed.

(** *** The batched hook when nothing is pending *)

Lemma settled_fold urlParams (l : list (string * Param V)) :
  NoDup l.*1 ->
  forall (vals : gmap string (Value V)) (lw : gmap string (@Written V)) k,
    let r := fold_left (settledEntry urlParams) l (vals, lw) in
    r.1 !! k
    = match (list_to_map l : gmap string (Param V)) !! k with
      | Some param =>
        Some (match recorded (getProperty lw k) (encodedAt urlParams k) with
              | Some v => v
              | None => Val (decode param (encodedAt urlParams k))
              end)
      | None => vals !! k
      end
    /\ r.2 !! k
       = match (list_to_map l : gmap string (Param V)) !! k with
         | Some _ =>
           match recorded (getProperty lw k) (encodedAt urlParams k) with
           | Some _ => lw !! k
           | None => None
           end
         | None => lw !! k
         end.
Proof.
  induction l as [|[k0 p0] l IH]; intros Hnd vals lw k.
  - cbn. split; reflexivity.
  - cbn [fmap list_fmap fst] in Hnd. apply NoDup_cons in Hnd as [Hk0 Hnd].
    cbn zeta. cbn [fold_left list_to_map foldr fst snd curry].
    assert (Hnone : (list_to_map l : gmap string (Param V)) !! k0 = None).
    { apply not_elem_of_list_to_map_1. exact Hk0. }
    unfold settledEntry at 2 4.
    destruct (recorded (getProperty lw k0) (encodedAt urlParams k0)) as [v0|] eqn:E0;
      match goal with
      | |- context [fold_left _ l (?v1, ?l1)] =>
          destruct (IH Hnd v1 l1 k) as [IH1 IH2]
      end;
      cbn zeta in IH1, IH2; rewrite IH1, IH2; clear IH1 IH2;
      (destruct (decide (k0 = k)) as [->|Hne];
       [rewrite Hnone, !lookup_insert_eq, ?lookup_delete_eq, ?E0; split; reflexivity
       |unfold getProperty;
        rewrite !lookup_insert_ne, ?lookup_delete_ne by exact Hne; split; reflexivity]).
Qed.

(** X10: when nothing is pending, [useUrlStates] treats the keys one by
    one: a key whose causality record carries the encoding now in the
    URL gets the recorded value and keeps the record; a configured key
    whose record carries another encoding, or that has no record and
    either names no member of [Object.prototype] or is present in the
    URL, gets the decoding of the URL and loses its record; a configured
    key without a record that names a member of [Object.prototype] and
    is absent from the URL gets [undefined], because
    [lastWrittenRef.current[key]] then finds that member; the records of
    other keys are not touched. *)
Theorem batch_render_settled (c : Cfg) :
  pendingRef c.1 = None ->
  let r := render c in
  let encodedNow k := encodedAt (currentParams impl strategy c) k in
  (forall k param u, params !! k = Some param ->
     lastWrittenRef c.1 !! k = Some u -> encoded u = encodedNow k ->
     r.1 !! k = Some (Val (decoded u)) /\ lastWrittenRef r.2.1 !! k = Some u)
  /\ (forall k param u, params !! k = Some param ->
        lastWrittenRef c.1 !! k = Some u -> encoded u <> encodedNow k ->
        r.1 !! k = Some (Val (decode param (encodedNow k)))
        /\ lastWrittenRef r.2.1 !! k = None)
  /\ (forall k param, params !! k = Some param ->
        lastWrittenRef c.1 !! k = None ->
        inherited k = false \/ is_Some (encodedNow k) ->
        r.1 !! k = Some (Val (decode param (encodedNow k)))
        /\ lastWrittenRef r.2.1 !! k = None)
  /\ (forall k param, params !! k = Some param ->
        lastWrittenRef c.1 !! k = None ->
        inherited k = true -> encodedNow k = None ->
        r.1 !! k = Some Undefined /\ lastWrittenRef r.2.1 !! k = None)
  /\ (forall k, params !! k = None ->
        r.1 !! k = None /\ lastWrittenRef r.2.1 !! k = lastWrittenRef c.1 !! k)
  /\ pendingRef r.2.1 = None /\ timers r.2.2 = timers c.2
  /\ historyCalls r.2.2 = historyCalls c.2.
Proof.
  destruct c as [h w]. cbn [fst snd]. intros Hp. cbn zeta.
  rewrite batch_render_unfold. unfold renderBody, currentParams. cbn [fst snd].
  rewrite Hp.
  pose proof (settled_fold (fields (getSnapshot impl strategy (href w) (store w)).1)
                (map_to_list params) (NoDup_fst_map_to_list params) ∅ (lastWrittenRef h))
    as Hfold.
  destruct (fold_left _ (map_to_list params) (∅, lastWrittenRef h)) as [vals lw] eqn:Ef.
  cbn zeta in Hfold. cbn [fst snd] in Hfold |- *.
  cbn [lastWrittenRef withLastWritten pendingRef].
  split; [|split; [|split; [|split; [|split; [|split; [exact Hp|split; reflexivity]]]]]].
  - intros k param u Hk Hu He. destruct (Hfold k) as [H1 H2].
    rewrite list_to_map_to_list, Hk in H1, H2.
    rewrite (getProperty_own _ k u Hu) in H1, H2. cbn [recorded] in H1, H2.
    rewrite bool_decide_eq_true_2 in H1, H2 by exact He. rewrite Hu in H2.
    split; assumption.
  - intros k param u Hk Hu He. destruct (Hfold k) as [H1 H2].
    rewrite list_to_map_to_list, Hk in H1, H2.
    rewrite (getProperty_own _ k u Hu) in H1, H2. cbn [recorded] in H1, H2.
    rewrite bool_decide_eq_false_2 in H1, H2 by exact He.
    split; assumption.
  - intros k param Hk Hu Hcase. destruct (Hfold k) as [H1 H2].
    rewrite list_to_map_to_list, Hk in H1, H2.
    unfold getProperty in H1, H2. rewrite Hu in H1, H2.
    destruct (inherited k) eqn:Hi; cbn [recorded] in H1, H2.
    + destruct Hcase as [|[e He]]; [discriminate|].
      rewrite bool_decide_eq_false_2 in H1, H2 by (rewrite He; discriminate).
      split; assumption.
    + split; assumption.
  - intros k param Hk Hu Hi He. destruct (Hfold k) as [H1 H2].
    rewrite list_to_map_to_list, Hk in H1, H2.
    rewrite (getProperty_proto _ k Hu Hi) in H1, H2. cbn [recorded] in H1, H2.
    rewrite bool_decide_eq_true_2 in H1, H2 by (symmetry; exact He). rewrite Hu in H2.
    split; assumption.
  - intros k Hk. destruct (Hfold k) as [H1 H2].
    rewrite list_to_map_to_list, Hk in H1, H2. rewrite lookup_empty in H1.
    split; assumption.
Qed.

(** *** Several [setValues] calls inside one window *)

Lemma batch_write_armed u (c : Cfg) :
  timersOk c -> is_Some (debouncedWriteRef c.1) ->
  let c' := stateAfter (write u c) in
  is_Some (debouncedWriteRef c'.1)
  /\ hasWindow c'.2 = hasWindow c.2 /\ href c'.2 = href c.2 /\ now c'.2 = now c.2
  /\ historyCalls c'.2 = historyCalls c.2.
Proof.
  intros Ht [d Ed]. cbn zeta.
  destruct (ownOrMissing_dec params u) as [Hu|Hu].
  - rewrite (batch_write_debounced u d c Ht Ed Hu). cbn. eauto 10.
  - destruct (batch_write_throw_state u c Hu) as [lw ->]. cbn. rewrite Ed. eauto 10.
Qed.

Lemma batch_writes_armed (us : list (list (string * V))) : forall (c : Cfg),
  timersOk c -> is_Some (debouncedWriteRef c.1) ->
  let c' := fold_left (fun c u => stateAfter (write u c)) us c in
  timersOk c' /\ is_Some (debouncedWriteRef c'.1)
  /\ hasWindow c'.2 = hasWindow c.2 /\ href c'.2 = href c.2 /\ now c'.2 = now c.2
  /\ historyCalls c'.2 = historyCalls c.2.
Proof.
  induction us as [|u us IH]; intros c Ht Hd; [cbn; auto 10|].
  cbn zeta. cbn [fold_left].
  destruct (batch_write_armed u c Ht Hd) as (G2 & G3 & G4 & G5 & G6).
  destruct (IH (stateAfter (write u c))) as (H1 & H2 & H3 & H4 & H5 & H6).
  { apply batch_write_timersOk, Ht. }
  { exact G2. }
  cbn zeta in H1, H2, H3, H4, H5, H6, G2, G3, G4, G5, G6.
  split; [exact H1|]. split; [exact H2|].
  rewrite H3, H4, H5, H6, G3, G4, G5, G6.
  repeat split; reflexivity.
Qed.

(** X11: of several [setValues] calls inside one debounce window, the
    commit that follows carries the encoded updates of the last call
    only, when that call does not throw (each key of its updates has a
    codec of its own in [params] or names no member of
    [Object.prototype]): one history entry, in which the keys of the
    last call have their new encoding and every other key, also one an
    earlier call of the window had updated, has what the location held
    before. *)
Theorem batch_last_call_commits (us : list (list (string * V))) (u : list (string * V))
    (gap : nat) (c : Cfg) :
  hasWindow c.2 = true -> timersOk c -> is_Some (debouncedWriteRef c.1) ->
  (debounceMs <= gap)%nat ->
  noProtoKey params -> ownOrMissing params u -> NoDup u.*1 ->
  let c1 := fold_left (fun c u => stateAfter (write u c)) us c in
  let requested : gmap string V := list_to_map u in
  exists c1',
    write u c1 = Done c1'
    /\ let c2 := pass gap c1' in
       let built := committedParams impl strategy (recordAll params u ∅) (href c.2) in
       historyCalls c1.2 = historyCalls c.2
       /\ historyCalls c2.2
          = historyCalls c.2 ++ [(push, buildUrl (impl strategy) (href c.2) built)]
       /\ href c2.2 = buildUrl (impl strategy) (href c.2) built
       /\ (forall k v p, requested !! k = Some v -> params !! k = Some p ->
             built !! k = (fun e => [e]) <$> encode p v)
       /\ (forall k, requested !! k = None ->
             built !! k = parse (impl strategy) (href c.2) !! k)
       /\ (forall k, params !! k = None ->
             built !! k = parse (impl strategy) (href c.2) !! k)
       /\ pendingRef c2.1 = None /\ timers c2.2 = [].
Proof.
  intros Hw Ht Hd Hgap _ Hu Hnd c1 requested.
  destruct (batch_writes_armed us c Ht Hd) as (Ht1 & [d1 Ed1] & Hw1 & Hh1 & Hn1 & Hc1).
  fold c1 in Ht1, Ed1, Hw1, Hh1, Hn1, Hc1.
  eexists. split; [apply (batch_write_debounced u d1 c1 Ht1 Ed1 Hu)|].
  cbn zeta.
  set (built := committedParams impl strategy (recordAll params u ∅) (href c.2)).
  split; [exact Hc1|].
  assert (Hbuilt : forall k,
            built !! k = match requested !! k ≫= written k with
                         | Some w => encodedList w
                         | None => parse (impl strategy) (href c.2) !! k
                         end).
  { intros k. unfold built. rewrite batch_committedParams_lookup.
    rewrite (batch_recordAll_lookup u ∅ k Hnd), lookup_empty. fold requested.
    destruct (requested !! k ≫= written k); reflexivity. }
  rewrite (batch_pass_due gap
             {| timerId := nextTimerId c1.2; due := now c1.2 + debounceMs;
                timerArgs := recordAll params u ∅ |});
    [|reflexivity|cbn; lia].
  unfold timerCallback. cbn [fst snd pendingRef withPending timerArgs].
  rewrite batch_commit_spec by (cbn; congruence).
  cbn [historyCalls href historyWrite withStore withTimers tick timers].
  rewrite Hh1, Hc1. fold built.
  split; [reflexivity|]. split; [reflexivity|].
  split; [|split; [|split; [|split; reflexivity]]].
  - intros k v p Hr Hp. rewrite Hbuilt, Hr. cbn. unfold UrlStates.written.
    rewrite Hp. reflexivity.
  - intros k Hr. rewrite Hbuilt, Hr. reflexivity.
  - intros k Hp. rewrite Hbuilt. unfold UrlStates.written. rewrite Hp.
    destruct (requested !! k); reflexivity.
Qed.

(** *** The timer queue of a mounted batched hook *)

Lemma batch_run_timersOk es : forall c : Cfg, timersOk c -> timersOk (runE c es).
Proof.
  induction es as [|e es IH]; intros c Hc; [exact Hc|].
  cbn [run fold_left]. apply IH, batch_step_timersOk, Hc.
Qed.

Lemma batch_render_idle (c : Cfg) :
  pendingRef c.1 = None -> pendingRef (render c).2.1 = None.
Proof.
  destruct c as [h w]. cbn [fst snd]. intros Hp.
  rewrite batch_render_unfold. unfold renderBody. rewrite Hp.
  destruct (fold_left _ _ _) as [values lw]. exact Hp.
Qed.

Lemma batch_mount_timersOk url :
  timersOk (UrlStatesMount.mount impl strategy params debounceMs url)
  /\ timers (UrlStatesMount.mount impl strategy params debounceMs url).2 = []
  /\ pendingRef (UrlStatesMount.mount impl strategy params debounceMs url).1 = None
  /\ (debounceMs = 0%nat ->
      debouncedWriteRef (UrlStatesMount.mount impl strategy params debounceMs url).1 = None).
Proof.
  unfold UrlStatesMount.mount.
  pose proof (batch_render_quiet (initialHook, initialWorld url) eq_refl eq_refl) as Hw.
  pose proof (batch_render_idle (initialHook, initialWorld url) eq_refl) as Hp.
  destruct (render (initialHook, initialWorld url)) as [v [h w]].
  cbn [fst snd] in *. subst w. unfold effectSetup, timersOk. cbn [fst snd].
  split; [destruct (0 <? debounceMs)%nat; reflexivity|]. split; [reflexivity|].
  split; [destruct (0 <? debounceMs)%nat; exact Hp|].
  intros ->. reflexivity.
Qed.

Lemma batch_step_immediate e (c : Cfg) :
  debouncedWriteRef c.1 = None /\ timers c.2 = [] /\ pendingRef c.1 = None ->
  debouncedWriteRef (stepE c e).1 = None /\ timers (stepE c e).2 = []
  /\ pendingRef (stepE c e).1 = None.
Proof.
  destruct c as [h w]. cbn [fst snd]. intros (Hd & Ht & Hp).
  destruct e as [|updates|dt|url]; cbn [step].
  - rewrite batch_render_unfold. unfold renderBody. rewrite Hp.
    destruct (fold_left _ _ _) as [values lw]. cbn. auto.
  - unfold setValues.
    destruct (encodeUpdates params updates (lastWrittenRef h)) as [[eu lw]|[eu lw]].
    + cbn [debouncedWriteRef withLastWritten]. rewrite Hd. cbn [stateAfter fst snd].
      rewrite batch_commit_timers. cbn. auto.
    + cbn. auto.
  - rewrite batch_pass_idle by exact Ht. cbn. auto.
  - cbn. auto.
Qed.

(** X12: a mounted [useUrlStates] hook has at most one timer in the
    queue in every state it reaches through renders, write requests
    (also ones that throw), pauses and navigations; without a debounce
    delay it never arms a timer and never holds a pending value, and a
    write request is committed at once when each key of its updates has
    a codec of its own in [params] or names no member of
    [Object.prototype], while a request with a key that finds such a
    member throws and leaves the browser as it was. *)
Theorem batch_single_timer url es :
  let c : Cfg := runE (UrlStatesMount.mount impl strategy params debounceMs url) es in
  (length (timers c.2) <= 1)%nat
  /\ (debounceMs = 0%nat ->
      timers c.2 = [] /\ pendingRef c.1 = None
      /\ (forall updates,
            noProtoKey params -> ownOrMissing params updates ->
            exists c', write updates c = Done c'
                       /\ c'.2 = commit (recordAll params updates ∅) c.2)
      /\ (forall updates,
            ~ ownOrMissing params updates ->
            exists c', write updates c = Thrown c' /\ c'.2 = c.2
                       /\ pendingRef c'.1 = None)).
Proof.
  cbn zeta. destruct (batch_mount_timersOk url) as (Hok & Ht & Hp & Hd).
  split.
  - pose proof (batch_run_timersOk es _ Hok) as Hrun. unfold timersOk in Hrun.
    apply (f_equal length) in Hrun. rewrite length_fmap in Hrun. rewrite Hrun.
    match goal with
    | |- context [debouncedWriteRef ?h] => destruct (debouncedWriteRef h) as [[[id|]]|]
    end; unfold option_list; cbn; lia.
  - intros Hms. specialize (Hd Hms).
    assert (Hinv : debouncedWriteRef
                     (runE (UrlStatesMount.mount impl strategy params debounceMs url) es).1
                   = None
                   /\ timers (runE (UrlStatesMount.mount impl strategy params debounceMs url)
                                es).2 = []
                   /\ pendingRef
                        (runE (UrlStatesMount.mount impl strategy params debounceMs url) es).1
                      = None).
    { revert Hd Ht Hp.
      generalize (UrlStatesMount.mount impl strategy params debounceMs url).
      induction es as [|e es IH]; intros c Hd Ht Hp; [auto|].
      cbn [run fold_left].
      destruct (batch_step_immediate e c (conj Hd (conj Ht Hp))) as (H1 & H2 & H3).
      apply IH; assumption. }
    destruct Hinv as (Hd' & Ht' & Hp'). split; [exact Ht'|]. split; [exact Hp'|].
    split.
    + intros updates _ Hu.
      destruct (batch_write_spec updates
                  (runE (UrlStatesMount.mount impl strategy params debounceMs url) es) Hu)
        as (c' & Hc' & _ & Himm & _).
      exists c'. split; [exact Hc'|]. apply Himm, Hd'.
    + intros updates Hu.
      destruct (batch_write_thrown updates
                  (runE (UrlStatesMount.mount impl strategy params debounceMs url) es) Hu)
        as (lw & Hthrown).
      eexists. split; [exact Hthrown|]. cbn [fst snd]. split; [reflexivity|].
      cbn. exact Hp'.
Qed.
End Facts.
End UrlStatesFacts.

(** ** [arraysEqual], [useMultiUrlState], [useMultiUrlStates] *)

Lemma every_from_spec (b : list string) : forall (a : list string) i,
  every_from (fun v i => bool_decide (b !! i = Some v)) i a = true
  <-> (forall j v, a !! j = Some v -> b !! (i + j)%nat = Some v).
Proof.
  induction a as [|x a IH]; intros i; cbn [every_from].
  - split; [intros _ j v Hj; rewrite lookup_nil in Hj; discriminate | reflexivity].
  - rewrite andb_true_iff, bool_decide_eq_true, IH. split.
    + intros [H0 Hs] [|j] v Hj; cbn in Hj.
      * injection Hj as <-. rewrite Nat.add_0_r. exact H0.
      * rewrite <- Nat.add_succ_comm. apply Hs, Hj.
    + intros Hall. split.
      * rewrite <- (Nat.add_0_r i). apply Hall. reflexivity.
      * intros j v Hj. rewrite Nat.add_succ_comm. apply Hall. exact Hj.
Qed.

Lemma arraysEqual_spec (a b : list string) : arraysEqual a b = true <-> a = b.
Proof.
  unfold arraysEqual. rewrite andb_true_iff, Nat.eqb_eq, every_from_spec. split.
  - intros [Hlen Hall]. apply list_eq. intros j.
    destruct (a !! j) as [v|] eqn:Ej.
    + symmetry. apply (Hall j v Ej).
    + symmetry. apply lookup_ge_None. rewrite <- Hlen. apply lookup_ge_None. exact Ej.
  - intros ->. split; [reflexivity | intros j v Hj; exact Hj].
Qed.

Module MultiUrlStateFacts.
Import MultiUrlState.
Section Facts.
Context {StrategyRef : Type} `{Countable StrategyRef}.
Variable impl : StrategyRef -> LocationStrategy.
Variable strategy : StrategyRef.
Context {T : Type}.
Variable key : string.

Local Abbreviation Cfg := (@Hook T * World StrategyRef (list string))%type.
Local Abbreviation render := (useMultiUrlState impl strategy key).

Lemma multi_render_unfold param (h : @Hook T) (w : World StrategyRef (list string)) :
  render param (h, w)
  = renderBody key param (getRaw (impl strategy) (href w))
      (fields (getSnapshot impl strategy (href w) (store w)).1)
      (withParam param h)
      (withStore (getSnapshot impl strategy (href w) (store w)).2 w).
Proof.
  unfold useMultiUrlState.
  destruct (getSnapshot impl strategy (href w) (store w)) as [s st]. reflexivity.
Qed.

(** With nothing pending, the record is used exactly when its encoding
    is the current one; otherwise it is dropped and the value decoded. *)
Lemma multi_render_settled param (c : Cfg) :
  pendingRef c.1 = None ->
  let encoded := default [] (fields (getSnapshot impl strategy (href c.2) (store c.2)).1 !! key) in
  let r := render param c in
  (forall lw, lastWrittenRef c.1 = Some lw -> lwEncoded lw = encoded ->
              r.1 = lwDecoded lw /\ lastWrittenRef r.2.1 = Some lw)
  /\ ((forall lw, lastWrittenRef c.1 = Some lw -> lwEncoded lw <> encoded) ->
      r.1 = decodeMulti param encoded /\ lastWrittenRef r.2.1 = None).
Proof.
  destruct c as [h w]. cbn [fst snd]. intros Hp. cbn zeta.
  rewrite multi_render_unfold. unfold renderBody. cbn [pendingRef lastWrittenRef withParam].
  rewrite Hp. split.
  - intros lw Hlw He. rewrite Hlw.
    rewrite (proj2 (arraysEqual_spec _ _) He). cbn. split; [reflexivity | exact Hlw].
  - intros Hmiss. destruct (lastWrittenRef h) as [lw|]; [|split; reflexivity].
    destruct (arraysEqual _ _) eqn:Ea; [|split; reflexivity].
    apply arraysEqual_spec in Ea. exfalso. exact (Hmiss lw eq_refl Ea).
Qed.
End Facts.
End MultiUrlStateFacts.

Module MultiUrlStatesFacts.
Import JsObject MultiUrlStates.
Section Facts.
Context {StrategyRef : Type} `{Countable StrategyRef}.
Variable impl : StrategyRef -> LocationStrategy.
Variable strategy : StrategyRef.
Context {V : Type}.
Variable params : gmap string (MultiParam V).
Variable debounceMs : nat.
Variable push : bool.

Local Abbreviation written := (written params).
Local Abbreviation Cfg := (@Hook V * World StrategyRef (gmap string (list string)))%type.
Local Abbreviation write := (setValues impl strategy params debounceMs push).
Local Abbreviation commit := (writeToUrl impl strategy push).

Lemma multis_encodeLoop_done (l : list (string * V)) :
  ownOrMissing params l -> forall eu lw,
  encodeLoop params l (eu, lw) = Done (encodeAll params l eu, recordAll params l lw).
Proof.
  unfold encodeAll, recordAll.
  induction l as [|[k v] l IH]; intros Hl eu lw; [reflexivity|].
  apply Forall_cons in Hl as [Hk Hl]. cbn [fst] in Hk.
  cbn [encodeLoop fold_left fst snd]. unfold MultiUrlStates.written.
  destruct (params !! k) as [p|] eqn:Ep.
  - rewrite (getProperty_own params k p Ep). cbn. apply IH, Hl.
  - destruct Hk as [[? ?]|Hi]; [discriminate|].
    rewrite (getProperty_missing params k Ep Hi). cbn. apply IH, Hl.
Qed.

Lemma multis_encodeLoop_thrown (l : list (string * V)) :
  ~ ownOrMissing params l ->
  forall acc, exists acc', encodeLoop params l acc = Thrown acc'.
Proof.
  induction l as [|[k v] l IH]; intros Hl acc.
  - exfalso. apply Hl. constructor.
  - cbn [encodeLoop]. unfold getProperty.
    destruct (params !! k) as [p|] eqn:Ep.
    + apply IH. intros Hr. apply Hl. constructor; [left; cbn; eauto | exact Hr].
    + destruct (inherited k) eqn:Hi; [eauto|].
      apply IH. intros Hr. apply Hl. constructor; [right; exact Hi | exact Hr].
Qed.

Lemma multis_encodeAll_lookup (updates : list (string * V)) (m : gmap string MultiEncoded) k :
  NoDup updates.*1 ->
  encodeAll params updates m !! k
  = match (list_to_map updates : gmap string V) !! k ≫= written k with
    | Some u => Some (encoded u)
    | None => m !! k
    end.
Proof.
  intros Hnd. unfold encodeAll.
  pose proof (fold_insert_some (fun k v => encoded <$> written k v) updates Hnd m k) as Hf.
  cbn beta in Hf.
  rewrite <- (fold_left_pointwise
                (fun m e => match written e.1 e.2 with
                            | Some b => <[e.1 := encoded b]> m
                            | None => m
                            end)) in Hf
    by (intros s [k' v']; cbn [fst snd]; destruct (written k' v'); reflexivity).
  rewrite Hf.
  destruct ((list_to_map updates : gmap string V) !! k) as [v|]; cbn; [|reflexivity].
  destruct (written k v); reflexivity.
Qed.

Lemma multis_recordAll_lookup (updates : list (string * V)) (m : gmap string (@Written V)) k :
  NoDup updates.*1 ->
  recordAll params updates m !! k
  = match (list_to_map updates : gmap string V) !! k ≫= written k with
    | Some u => Some u
    | None => m !! k
    end.
Proof. intros Hnd. unfold recordAll. apply fold_insert_some, Hnd. Qed.

Lemma multis_committedParams_lookup (updates : gmap string (list string)) url k :
  committedParams impl strategy updates url !! k
  = match updates !! k with
    | Some e => if (length e =? 0)%nat then None else Some e
    | None => parse (impl strategy) url !! k
    end.
Proof.
  unfold committedParams.
  rewrite <- (list_to_map_to_list updates) at 2.
  rewrite <- (fold_partial_alter
                (fun _ (e : list string) => if (length e =? 0)%nat then None else Some e))
    by apply NoDup_fst_map_to_list.
  f_equal. apply fold_left_pointwise. intros m [k' e]. unfold applyUpdate.
  cbn [fst snd]. destruct (length e =? 0)%nat; reflexivity.
Qed.

Lemma multis_commit_spec (updates : gmap string (list string))
    (w : World StrategyRef (gmap string (list string))) :
  hasWindow w = true ->
  commit updates w
  = historyWrite push
      (buildUrl (impl strategy) (href w) (committedParams impl strategy updates (href w)))
      (withStore (callParse impl strategy (href w) (store w)).2 w).
Proof. intros Hw. unfold writeToUrl. rewrite Hw. reflexivity. Qed.

Lemma multis_write_spec updates (c : Cfg) :
  ownOrMissing params updates ->
  exists c',
    write updates c = Done c'
    /\ lastWrittenRef c'.1 = recordAll params updates (lastWrittenRef c.1)
    /\ (debouncedWriteRef c.1 = None -> c'.2 = commit (encodeAll params updates ∅) c.2)
    /\ (is_Some (debouncedWriteRef c.1) ->
        (exists ts, timers c'.2
                    = ts ++ [{| timerId := nextTimerId c.2; due := now c.2 + debounceMs;
                                timerArgs := encodeAll params updates ∅ |}])
        /\ historyCalls c'.2 = historyCalls c.2).
Proof.
  intros Hu. destruct c as [h w]. cbn [fst snd]. unfold setValues, encodeUpdates.
  rewrite (multis_encodeLoop_done updates Hu).
  cbn [debouncedWriteRef withLastWritten].
  destruct (debouncedWriteRef h) as [d|].
  - unfold debouncedCall, setTimeout, clearTimeout.
    destruct (timeoutId d) as [id|]; eexists; (split; [reflexivity|]); cbn;
      (split; [reflexivity|]); (split; [discriminate|]); intros _; repeat split; eauto.
  - eexists. split; [reflexivity|]. cbn. split; [reflexivity|]. split; [reflexivity|].
    intros [? ?]; discriminate.
Qed.

Lemma multis_write_thrown updates (c : Cfg) :
  ~ ownOrMissing params updates ->
  exists lw, write updates c = Thrown (withLastWritten lw c.1, c.2).
Proof.
  intros Hu. destruct c as [h w]. cbn [fst snd]. unfold setValues, encodeUpdates.
  destruct (multis_encodeLoop_thrown updates Hu (∅, lastWrittenRef h)) as [[eu lw] ->].
  eauto.
Qed.
End Facts.
End MultiUrlStatesFacts.

(** ** [useMultiUrlState] inside and after the debounce window, and its commit *)

Module MultiUrlStateMore.
Import MultiUrlState.
Section Facts.
Context {StrategyRef : Type} `{Countable StrategyRef}.
Variable impl : StrategyRef -> LocationStrategy.
Variable strategy : StrategyRef.
Context {T : Type}.
Variable key : string.
Variable debounceMs : nat.
Variable push : bool.

Local Abbreviation Cfg := (@Hook T * World StrategyRef (list string))%type.
Local Abbreviation render := (useMultiUrlState impl strategy key).
Local Abbreviation write := (setValue impl strategy key debounceMs push).
Local Abbreviation commit := (writeToUrl impl strategy key push).


End Facts.
End MultiUrlStateMore.

(** ** The render of [useMultiUrlStates] *)

Module MultiUrlStatesMore.
Import JsObject MultiUrlStates MultiUrlStatesRender.
Section Facts.
Context {StrategyRef : Type} `{Countable StrategyRef}.
Variable impl : StrategyRef -> LocationStrategy.
Variable strategy : StrategyRef.
Context {V : Type}.
Variable params : gmap string (MultiParam V).

Local Abbreviation Cfg := (@Hook V * World StrategyRef (gmap string (list string)))%type.
Local Abbreviation render := (useMultiUrlStates impl strategy params).

Lemma multis_render_unfold (h : @Hook V) (w : World StrategyRef (gmap string (list string))) :
  render (h, w)
  = renderBody params (getRaw (impl strategy) (href w))
      (fields (getSnapshot impl strategy (href w) (store w)).1) h
      (withStore (getSnapshot impl strategy (href w) (store w)).2 w).
Proof.
  unfold useMultiUrlStates.
  destruct (getSnapshot impl strategy (href w) (store w)) as [snapshot st].
  reflexivity.
Qed.

(** *** Nothing pending *)

Lemma multis_settled_fold urlParams (l : list (string * MultiParam V)) :
  NoDup l.*1 -> Forall (fun e => inherited e.1 = false) l ->
  forall (vals : gmap string (Value V)) (lw : gmap string (@Written V)),
  exists r,
    fold_left (settledEntry urlParams) l (Some (vals, lw)) = Some r
    /\ forall k,
         r.1 !! k
         = match (list_to_map l : gmap string (MultiParam V)) !! k with
           | Some param =>
             Some (Val (match lw !! k with
                        | Some u => if arraysEqual (encoded u) (encodedAt urlParams k)
                                    then decoded u
                                    else decodeMulti param (encodedAt urlParams k)
                        | None => decodeMulti param (encodedAt urlParams k)
                        end))
           | None => vals !! k
           end
         /\ r.2 !! k
            = match (list_to_map l : gmap string (MultiParam V)) !! k with
              | Some _ =>
                match lw !! k with
                | Some u => if arraysEqual (encoded u) (encodedAt urlParams k)
                            then Some u else None
                | None => None
                end
              | None => lw !! k
              end.
Proof.
  induction l as [|[k0 p0] l IH]; intros Hnd Hl vals lw.
  - exists (vals, lw). split; [reflexivity|]. intros k. cbn. split; reflexivity.
  - cbn [fmap list_fmap fst] in Hnd. apply NoDup_cons in Hnd as [Hk0 Hnd].
    apply Forall_cons in Hl as [Hi0 Hl]. cbn [fst] in Hi0.
    cbn [fold_left list_to_map foldr fst snd curry].
    assert (Hnone : (list_to_map l : gmap string (MultiParam V)) !! k0 = None).
    { apply not_elem_of_list_to_map_1. exact Hk0. }
    unfold settledEntry at 2. cbn [mbind option_bind]. unfold getProperty. rewrite Hi0.
    destruct (lw !! k0) as [u0|] eqn:E0;
      [cbn [recorded];
       destruct (arraysEqual (encoded u0) (encodedAt urlParams k0)) eqn:Eb
      |cbn [recorded]];
      match goal with
      | |- context [fold_left _ l (Some (?v1, ?l1))] =>
          destruct (IH Hnd Hl v1 l1) as (r & Hr & Hk)
      end;
      exists r; (split; [exact Hr|]); intros k; destruct (Hk k) as [H1 H2];
      rewrite H1, H2; clear H1 H2;
      (destruct (decide (k0 = k)) as [->|Hne];
       [rewrite Hnone, !lookup_insert_eq, ?lookup_delete_eq, ?E0, ?Eb; split; reflexivity
       |rewrite !lookup_insert_ne, ?lookup_delete_ne by exact Hne; split; reflexivity]).
Qed.

Lemma multis_settled_sticky urlParams (l : list (string * MultiParam V)) :
  fold_left (settledEntry urlParams) l None = None.
Proof. induction l as [|e l IH]; [reflexivity | exact IH]. Qed.

Lemma multis_settled_throws urlParams (l : list (string * MultiParam V)) k :
  k ∈ l.*1 -> inherited k = true ->
  forall (vals : gmap string (Value V)) (lw : gmap string (@Written V)),
    lw !! k = None ->
    fold_left (settledEntry urlParams) l (Some (vals, lw)) = None.
Proof.
  intros Hin Hi. induction l as [|[k0 p0] l IH]; intros vals lw Hk.
  - cbn in Hin. apply elem_of_nil in Hin. destruct Hin.
  - cbn [fmap list_fmap fst] in Hin. cbn [fold_left].
    unfold settledEntry at 2. cbn [mbind option_bind].
    destruct (decide (k0 = k)) as [->|Hne].
    + rewrite (getProperty_proto lw k Hk Hi). cbn [recorded].
      apply multis_settled_sticky.
    + apply elem_of_cons in Hin as [Heq|Hin]; [congruence|].
      destruct (recorded (getProperty lw k0) (encodedAt urlParams k0)).
      * apply (IH Hin). exact Hk.
      * apply (IH Hin). rewrite lookup_delete_ne by exact Hne. exact Hk.
      * apply multis_settled_sticky.
Qed.

(** *** Inside the debounce window *)

Lemma multis_pendingEntry_total (pv : gmap string V) (lw : gmap string (@Written V))
    urlParams k (param : MultiParam V) :
  is_Some (pendingEntry pv lw urlParams k param).
Proof.
  unfold pendingEntry, getProperty.
  destruct (pv !! k) as [v|]; [eauto|].
  destruct (inherited k); [eauto|].
  destruct (lw !! k) as [u|]; cbn [recorded]; [|eauto].
  destruct (arraysEqual _ _); eauto.
Qed.

Lemma multis_pending_fold (pv : gmap string V) (lw : gmap string (@Written V)) urlParams
    (l : list (string * MultiParam V)) :
  NoDup l.*1 ->
  forall vals : gmap string (Value V),
  exists r,
    fold_left (pendingStep pv lw urlParams) l (Some vals) = Some r
    /\ forall k,
         r !! k = match (list_to_map l : gmap string (MultiParam V)) !! k with
                  | Some param => pendingEntry pv lw urlParams k param
                  | None => vals !! k
                  end.
Proof.
  induction l as [|[k0 p0] l IH]; intros Hnd vals.
  - exists vals. split; [reflexivity|]. intros k. reflexivity.
  - cbn [fmap list_fmap fst] in Hnd. apply NoDup_cons in Hnd as [Hk0 Hnd].
    cbn [fold_left list_to_map foldr fst snd curry].
    assert (Hnone : (list_to_map l : gmap string (MultiParam V)) !! k0 = None).
    { apply not_elem_of_list_to_map_1. exact Hk0. }
    unfold pendingStep at 2. cbn [mbind option_bind fst snd].
    destruct (multis_pendingEntry_total pv lw urlParams k0 p0) as [v0 E0].
    rewrite E0. cbn [mbind option_bind].
    destruct (IH Hnd (<[k0 := v0]> vals)) as (r & Hr & Hk).
    exists r. split; [exact Hr|]. intros k. rewrite Hk.
    destruct (decide (k0 = k)) as [->|Hne].
    + rewrite Hnone, !lookup_insert_eq, E0. reflexivity.
    + rewrite !lookup_insert_ne by exact Hne. reflexivity.
Qed.

(** X15: [useMultiUrlStates] treats the configured keys one by one.
    When no configured key names a member of [Object.prototype]: with
    nothing pending, a key whose causality record carries exactly the
    list now in the URL gets the recorded value and keeps the record,
    and any other key gets the decoding of its list and loses its
    record; after an external change every key gets the decoding of its
    list, and the pending values and all records are dropped.  Inside
    the debounce window a key with a pending value gets that value, and
    a configured key without one that names a member of
    [Object.prototype] gets that member.  With nothing pending, a
    configured key that names such a member and has no record makes the
    render throw: [lastWrittenRef.current[key]] finds the member, and
    [arraysEqual] reads the length of its missing [encoded]. *)
Theorem multis_render_by_key (c : Cfg) :
  let listNow k :=
    default [] (fields (getSnapshot impl strategy (href c.2) (store c.2)).1 !! k) in
  let raw := getRaw (impl strategy) (href c.2) in
  let ordinary := forall k, is_Some (params !! k) -> inherited k = false in
  (pendingRef c.1 = None -> ordinary ->
   exists r,
     render c = Some r
     /\ (forall k param u, params !! k = Some param ->
           lastWrittenRef c.1 !! k = Some u -> encoded u = listNow k ->
           r.1 !! k = Some (Val (decoded u)) /\ lastWrittenRef r.2.1 !! k = Some u)
     /\ (forall k param, params !! k = Some param ->
           (forall u, lastWrittenRef c.1 !! k = Some u -> encoded u <> listNow k) ->
           r.1 !! k = Some (Val (decodeMulti param (listNow k)))
           /\ lastWrittenRef r.2.1 !! k = None)
     /\ (forall k, params !! k = None -> r.1 !! k = None)
     /\ historyCalls r.2.2 = historyCalls c.2 /\ href r.2.2 = href c.2)
  /\ (pendingRef c.1 = None ->
      forall k, is_Some (params !! k) -> lastWrittenRef c.1 !! k = None ->
                inherited k = true -> render c = None)
  /\ (forall p, pendingRef c.1 = Some p -> raw = prevRaw p ->
        exists r,
          render c = Some r
          /\ (forall k v, pendingValues p !! k = Some v -> is_Some (params !! k) ->
                r.1 !! k = Some (Val v))
          /\ (forall k, pendingValues p !! k = None -> is_Some (params !! k) ->
                inherited k = true -> r.1 !! k = Some (Member k))
          /\ (forall k, params !! k = None -> r.1 !! k = None)
          /\ r.2.1 = c.1
          /\ historyCalls r.2.2 = historyCalls c.2 /\ href r.2.2 = href c.2)
  /\ (forall p, pendingRef c.1 = Some p -> raw <> prevRaw p -> ordinary ->
        exists r,
          render c = Some r
          /\ (forall k, r.1 !! k
                        = (fun param => Val (decodeMulti param (listNow k))) <$> params !! k)
          /\ pendingRef r.2.1 = None /\ lastWrittenRef r.2.1 = ∅
          /\ historyCalls r.2.2 = historyCalls c.2 /\ href r.2.2 = href c.2).
Proof.
  destruct c as [h w]. cbn [fst snd]. cbn zeta.
  rewrite multis_render_unfold. unfold renderBody.
  split; [|split; [|split]].
  - intros Hp Hord. rewrite Hp.
    assert (Hl : Forall (fun e : string * MultiParam V => inherited e.1 = false)
                   (map_to_list params)).
    { apply Forall_forall. intros [k p] Hin. apply elem_of_map_to_list in Hin.
      cbn [fst]. apply Hord. eauto. }
    destruct (multis_settled_fold
                (fields (getSnapshot impl strategy (href w) (store w)).1)
                (map_to_list params) (NoDup_fst_map_to_list params) Hl ∅ (lastWrittenRef h))
      as ([vals lw] & Hr & Hfold).
    rewrite Hr. cbn [mbind option_bind]. eexists. split; [reflexivity|].
    cbn [fst snd lastWrittenRef withLastWritten] in Hfold |- *.
    split; [|split; [|split; [|split; reflexivity]]].
    + intros k param u Hk Hu He. destruct (Hfold k) as [H1 H2].
      rewrite list_to_map_to_list, Hk, Hu in H1, H2. unfold encodedAt in H1, H2.
      rewrite (proj2 (arraysEqual_spec _ _) He) in H1, H2. split; assumption.
    + intros k param Hk Hmiss. destruct (Hfold k) as [H1 H2].
      rewrite list_to_map_to_list, Hk in H1, H2. unfold encodedAt in H1, H2.
      destruct (lastWrittenRef h !! k) as [u|] eqn:Eu; [|split; assumption].
      destruct (arraysEqual (encoded u) _) eqn:Ea; [|split; assumption].
      apply arraysEqual_spec in Ea. exfalso. exact (Hmiss u eq_refl Ea).
    + intros k Hk. destruct (Hfold k) as [H1 _].
      rewrite list_to_map_to_list, Hk in H1. rewrite H1. apply lookup_empty.
  - intros Hp k [param Hk] Hu Hi. rewrite Hp.
    rewrite (multis_settled_throws
               (fields (getSnapshot impl strategy (href w) (store w)).1)
               (map_to_list params) k); [reflexivity| |exact Hi|exact Hu].
    apply list_elem_of_fmap. exists (k, param). split; [reflexivity|].
    apply elem_of_map_to_list. exact Hk.
  - intros p Hp Hraw. rewrite Hp.
    rewrite bool_decide_eq_false_2 by (intros Hne; apply Hne, Hraw).
    destruct (multis_pending_fold (pendingValues p) (lastWrittenRef h)
                (fields (getSnapshot impl strategy (href w) (store w)).1)
                (map_to_list params) (NoDup_fst_map_to_list params) ∅)
      as (vals & Hr & Hfold).
    rewrite Hr. cbn [mbind option_bind]. eexists. split; [reflexivity|].
    cbn [fst snd].
    split; [|split; [|split; [|split; [reflexivity|split; reflexivity]]]].
    + intros k v Hv [param Hk]. rewrite Hfold, list_to_map_to_list, Hk.
      unfold pendingEntry. rewrite (getProperty_own _ k v Hv). reflexivity.
    + intros k Hv [param Hk] Hi. rewrite Hfold, list_to_map_to_list, Hk.
      unfold pendingEntry. rewrite (getProperty_proto _ k Hv Hi). reflexivity.
    + intros k Hk. rewrite Hfold, list_to_map_to_list, Hk. apply lookup_empty.
  - intros p Hp Hraw _. rewrite Hp. rewrite bool_decide_eq_true_2 by exact Hraw.
    destruct (cancelRef _ _) as [d w'] eqn:Ec. eexists. split; [reflexivity|].
    cbn [fst snd]. split; [|split; [reflexivity|split; [reflexivity|]]].
    + intros k. rewrite map_lookup_imap. destruct (params !! k); reflexivity.
    + revert Ec. unfold cancelRef, debouncedCancel. cbn [debouncedWriteRef withPending].
      destruct (debouncedWriteRef h) as [d0|]; [destruct (timeoutId d0)|];
        intros [= <- <-]; split; reflexivity.
Qed.
End Facts.
End MultiUrlStatesMore.

(** ** Properties that span several hooks *)

Section HookProperties.
Context {StrategyRef : Type} `{Countable StrategyRef}.
Variable impl : StrategyRef -> LocationStrategy.
Variable strategy : StrategyRef.
Variable debounceMs : nat.
Variable push : bool.

(** [useUrlState]: a key and the codec objects. *)
Context {T : Type} {ParamRef : Type} `{EqDecision ParamRef}.
Variable methods : ParamRef -> Param T.
Variable key : string.

(** [useMultiUrlState]: the type of its values. *)
Context {U : Type}.

(** [useUrlStates] and [useMultiUrlStates]: the configured codecs. *)
Context {V : Type}.
Variable params : gmap string (Param V).
Context {W : Type}.
Variable multiParams : gmap string (MultiParam W).




(** X25: in [setValues], of [useUrlStates] and of [useMultiUrlStates]
    alike, when each key of the updates has a codec of its own in
    [params] or names no member of [Object.prototype], the call returns,
    and an update whose key has no codec is skipped: it adds nothing to
    the encoded updates, leaves the causality records as they are and
    leaves the key alone in the location a commit builds, while every
    update whose key has a codec is encoded, recorded, and committed: at
    once in one history call for the location built from these
    encodings, or by the debounce timer that carries them. *)
Theorem unconfigured_ordinary_keys_skipped :
  (forall (updates : list (string * V))
          (c : UrlStates.Hook * World StrategyRef (gmap string UrlStates.Written)),
      JsObject.noProtoKey params -> JsObject.ownOrMissing params updates ->
      NoDup updates.*1 ->
      let requested : gmap string V := list_to_map updates in
      let sent := UrlStates.recordAll params updates ∅ in
      let built := UrlStates.committedParams impl strategy sent (href c.2) in
      exists c',
        UrlStates.setValues impl strategy params debounceMs push updates c
        = JsObject.Done c'
        /\ (forall k, params !! k = None ->
              sent !! k = None
              /\ UrlStates.lastWrittenRef c'.1 !! k = UrlStates.lastWrittenRef c.1 !! k
              /\ built !! k = parse (impl strategy) (href c.2) !! k)
        /\ (forall k p v, params !! k = Some p -> requested !! k = Some v ->
              let u := {| UrlStates.encoded := encode p v; UrlStates.decoded := v |} in
              sent !! k = Some u /\ UrlStates.lastWrittenRef c'.1 !! k = Some u
              /\ built !! k = (fun e => [e]) <$> encode p v)
        /\ (UrlStates.debouncedWriteRef c.1 = None -> hasWindow c.2 = true ->
            historyCalls c'.2
            = historyCalls c.2 ++ [(push, buildUrl (impl strategy) (href c.2) built)]
            /\ href c'.2 = buildUrl (impl strategy) (href c.2) built
            /\ timers c'.2 = timers c.2)
        /\ (is_Some (UrlStates.debouncedWriteRef c.1) ->
            historyCalls c'.2 = historyCalls c.2
            /\ exists ts, timers c'.2
                          = ts ++ [{| timerId := nextTimerId c.2;
                                      due := now c.2 + debounceMs; timerArgs := sent |}]))
  /\ (forall (updates : list (string * W))
             (c : MultiUrlStates.Hook * World StrategyRef (gmap string (list string))),
        JsObject.noProtoKey multiParams -> JsObject.ownOrMissing multiParams updates ->
        NoDup updates.*1 ->
        let requested : gmap string W := list_to_map updates in
        let sent := MultiUrlStates.encodeAll multiParams updates ∅ in
        let built := MultiUrlStates.committedParams impl strategy sent (href c.2) in
        exists c',
          MultiUrlStates.setValues impl strategy multiParams debounceMs push updates c
          = JsObject.Done c'
          /\ (forall k, multiParams !! k = None ->
                sent !! k = None
                /\ MultiUrlStates.lastWrittenRef c'.1 !! k
                   = MultiUrlStates.lastWrittenRef c.1 !! k
                /\ built !! k = parse (impl strategy) (href c.2) !! k)
          /\ (forall k p v, multiParams !! k = Some p -> requested !! k = Some v ->
                sent !! k = Some (encodeMulti p v)
                /\ MultiUrlStates.lastWrittenRef c'.1 !! k
                   = Some {| MultiUrlStates.encoded := encodeMulti p v;
                             MultiUrlStates.decoded := v |}
                /\ built !! k = if (length (encodeMulti p v) =? 0)%nat then None
                                else Some (encodeMulti p v))
          /\ (MultiUrlStates.debouncedWriteRef c.1 = None -> hasWindow c.2 = true ->
              historyCalls c'.2
              = historyCalls c.2 ++ [(push, buildUrl (impl strategy) (href c.2) built)]
              /\ href c'.2 = buildUrl (impl strategy) (href c.2) built
              /\ timers c'.2 = timers c.2)
          /\ (is_Some (MultiUrlStates.debouncedWriteRef c.1) ->
              historyCalls c'.2 = historyCalls c.2
              /\ exists ts, timers c'.2
                            = ts ++ [{| timerId := nextTimerId c.2;
                                        due := now c.2 + debounceMs;
                                        timerArgs := sent |}])).
Proof.
  split.
  - intros updates c _ Hu Hnd. cbn zeta.
    destruct (UrlStatesFacts.batch_write_spec impl strategy params debounceMs push updates c
                Hu) as (c' & Hc' & Hlw & Hnow & Hdeb).
    exists c'. split; [exact Hc'|].
    split; [|split; [|split]].
    + intros k Hk.
      assert ((list_to_map updates : gmap string V) !! k ≫= UrlStates.written params k
              = None) as Hnone.
      { destruct ((list_to_map updates : gmap string V) !! k); [|reflexivity]. cbn.
        unfold UrlStates.written. rewrite Hk. reflexivity. }
      assert (UrlStates.recordAll params updates ∅ !! k = None) as E1.
      { rewrite (UrlStatesFacts.batch_recordAll_lookup params updates ∅ k Hnd), Hnone.
        apply lookup_empty. }
      split; [exact E1|]. split.
      * rewrite Hlw, (UrlStatesFacts.batch_recordAll_lookup params updates _ k Hnd), Hnone.
        reflexivity.
      * rewrite UrlStatesFacts.batch_committedParams_lookup, E1. reflexivity.
    + intros k p v Hk Hv. cbn zeta.
      assert ((list_to_map updates : gmap string V) !! k ≫= UrlStates.written params k
              = Some {| UrlStates.encoded := encode p v; UrlStates.decoded := v |})
        as Hsome.
      { rewrite Hv. cbn. unfold UrlStates.written. rewrite Hk. reflexivity. }
      assert (UrlStates.recordAll params updates ∅ !! k
              = Some {| UrlStates.encoded := encode p v; UrlStates.decoded := v |}) as E1.
      { rewrite (UrlStatesFacts.batch_recordAll_lookup params updates ∅ k Hnd), Hsome.
        reflexivity. }
      split; [exact E1|]. split.
      * rewrite Hlw, (UrlStatesFacts.batch_recordAll_lookup params updates _ k Hnd), Hsome.
        reflexivity.
      * rewrite UrlStatesFacts.batch_committedParams_lookup, E1. reflexivity.
    + intros Hd Hw. rewrite (Hnow Hd).
      rewrite (UrlStatesFacts.batch_commit_spec impl strategy push _ c.2 Hw).
      cbn. repeat split; reflexivity.
    + intros Hd. destruct (Hdeb Hd) as (Hts & _ & Hh). split; [exact Hh | exact Hts].
  - intros updates c _ Hu Hnd. cbn zeta.
    destruct (MultiUrlStatesFacts.multis_write_spec impl strategy multiParams debounceMs push
                updates c Hu) as (c' & Hc' & Hlw & Hnow & Hdeb).
    exists c'. split; [exact Hc'|].
    split; [|split; [|split]].
    + intros k Hk.
      assert ((list_to_map updates : gmap string W) !! k
                ≫= MultiUrlStates.written multiParams k = None) as Hnone.
      { destruct ((list_to_map updates : gmap string W) !! k); [|reflexivity]. cbn.
        unfold MultiUrlStates.written. rewrite Hk. reflexivity. }
      assert (MultiUrlStates.encodeAll multiParams updates ∅ !! k = None) as E1.
      { rewrite (MultiUrlStatesFacts.multis_encodeAll_lookup multiParams updates ∅ k Hnd),
          Hnone. apply lookup_empty. }
      split; [exact E1|]. split.
      * rewrite Hlw,
          (MultiUrlStatesFacts.multis_recordAll_lookup multiParams updates _ k Hnd), Hnone.
        reflexivity.
      * rewrite MultiUrlStatesFacts.multis_committedParams_lookup, E1. reflexivity.
    + intros k p v Hk Hv.
      assert ((list_to_map updates : gmap string W) !! k
                ≫= MultiUrlStates.written multiParams k
              = Some {| MultiUrlStates.encoded := encodeMulti p v;
                        MultiUrlStates.decoded := v |}) as Hsome.
      { rewrite Hv. cbn. unfold MultiUrlStates.written. rewrite Hk. reflexivity. }
      assert (MultiUrlStates.encodeAll multiParams updates ∅ !! k
              = Some (encodeMulti p v)) as E1.
      { rewrite (MultiUrlStatesFacts.multis_encodeAll_lookup multiParams updates ∅ k Hnd),
          Hsome. reflexivity. }
      split; [exact E1|]. split.
      * rewrite Hlw,
          (MultiUrlStatesFacts.multis_recordAll_lookup multiParams updates _ k Hnd), Hsome.
        reflexivity.
      * rewrite MultiUrlStatesFacts.multis_committedParams_lookup, E1. reflexivity.
    + intros Hd Hw. rewrite (Hnow Hd).
      rewrite (MultiUrlStatesFacts.multis_commit_spec impl strategy push _ c.2 Hw).
      cbn. repeat split; reflexivity.
    + intros Hd. destruct (Hdeb Hd) as (Hts & Hh). split; [exact Hh | exact Hts].
Qed.
End HookProperties.

(** C7. In a batched [setValues] an update whose key has no codec in
    [params] is to be skipped without an error while the other updates
    commit.  The code does so for a key that finds nothing in [params],
    such as [zz].  For a key that names a member of [Object.prototype],
    such as [toString], [params[key]] finds that member, the guard
    [if (!param) continue] lets it pass and [param.encode(value)]
    throws: [setValues({bx: '5', toString: '7'})] on a hook with codecs
    for [bx] and [by] ends in a [TypeError], makes no history call, arms
    no timer and leaves the location as it was, although [bx] is
    already recorded as written; under debounce nothing becomes pending
    and nothing is committed later.  [useMultiUrlStates] does the same. *)
Theorem inherited_key_throws :
  (exists c',
     MoreScenario.inheritedKeyCall = JsObject.Thrown c'
     /\ historyCalls c'.2 = [] /\ href c'.2 = "/"%string /\ timers c'.2 = []
     /\ UrlStates.lastWrittenRef c'.1 !! "bx"%string
        = Some {| UrlStates.encoded := Some "5"%string; UrlStates.decoded := "5"%string |}
     /\ UrlStates.lastWrittenRef c'.1 !! "toString"%string = None)
  /\ (exists c',
        MoreScenario.unknownKeyCall = JsObject.Done c'
        /\ historyCalls c'.2 = [(false, "/?bx=5"%string)] /\ href c'.2 = "/?bx=5"%string
        /\ UrlStates.lastWrittenRef c'.1 !! "zz"%string = None)
  /\ (exists c',
        MoreScenario.inheritedKeyDebounced = JsObject.Thrown c'
        /\ timers c'.2 = [] /\ UrlStates.pendingRef c'.1 = None
        /\ historyCalls
             (UrlStates.advance Concrete.strategyImpl Concrete.QueryRef false 500 c').2 = [])
  /\ (exists c',
        MoreScenario.multisInheritedKeyCall = JsObject.Thrown c'
        /\ historyCalls c'.2 = [] /\ href c'.2 = "/"%string /\ timers c'.2 = []
        /\ is_Some (MultiUrlStates.lastWrittenRef c'.1 !! "tags"%string))
  /\ (exists c',
        MoreScenario.multisUnknownKeyCall = JsObject.Done c'
        /\ historyCalls c'.2 = [(false, "/?tags=a&tags=b"%string)]
        /\ href c'.2 = "/?tags=a&tags=b"%string).
Proof.
  split; [|split; [|split; [|split]]];
    (eexists; split; [vm_compute; reflexivity|]); vm_compute; repeat split; eauto.
Qed.

(** ** The properties at work on the concrete hook *)

Module ScenarioFacts.
Import Concrete Scenario.
Local Open Scope string_scope.
Local Open Scope nat_scope.


(** C3, run: three write requests, 100 ms and 499 ms apart, then 500 ms
    of rest: one [replaceState], carrying the third value. *)
Lemma debounce_coalesces_witness :
  let c1 := UrlState.run strategyImpl QueryRef paramMethods "d" 500 false mounted
              (UrlState.burst [("1", [PlainRef], 100); ("2", [], 499)]) in
  let c2 := UrlState.run strategyImpl QueryRef paramMethods "d" 500 false c1
              (UrlState.burst [("3", [PlainRef], 500)]) in
  historyCalls c2.2 = [(false, "/?d=3")] /\ href c2.2 = "/?d=3" /\ timers c2.2 = [].
Proof.
  assert (hasWindow mounted.2 = true) as Hw by (vm_compute; reflexivity).
  assert (is_Some (UrlState.debouncedWriteRef mounted.1)) as Hd
    by (vm_compute; eexists; reflexivity).
  assert (UrlState.timersOk mounted) as Hok by (vm_compute; reflexivity).
  assert (Forall (fun w : string * list paramRef * nat => w.2 < 500)
            [("1", [PlainRef], 100); ("2", [], 499)]) as Hws
    by (repeat constructor; cbn; lia).
  destruct (UrlStateFacts.debounce_coalesces strategyImpl QueryRef paramMethods "d"
              500 false mounted [("1", [PlainRef], 100); ("2", [], 499)]
              "3" [PlainRef] 500 ltac:(lia) Hw Hd Hok Hws ltac:(lia))
    as (_ & Hh & Hu & Ht & _).
  cbn zeta. split; [|split; [|exact Ht]].
  - rewrite Hh. vm_compute. reflexivity.
  - rewrite Hu. vm_compute. reflexivity.
Defined.


(** C4, run: at ["/?a=1#b=2"] the query strategy parses once; asking
    again, even after the hash strategy has been asked, returns the
    object with the same address, and the hash strategy gets its own. *)
Lemma getSnapshot_memoised_witness :
  let url := "/?a=1#b=2" in
  let r1 := getSnapshot strategyImpl QueryRef url emptyStore in
  let r2 := getSnapshot strategyImpl HashRef url r1.2 in
  let r3 := getSnapshot strategyImpl QueryRef url r2.2 in
  r3 = (r1.1, r2.2) /\ addr r1.1 = 0 /\ addr r2.1 = 1
  /\ fields r1.1 !! "a" = Some ["1"] /\ fields r2.1 !! "b" = Some ["2"]
  /\ getSnapshot strategyImpl QueryRef "/?a=2#b=2" r2.2
     = (parsedSnapshot strategyImpl QueryRef "/?a=2#b=2" r2.2,
        refreshedStore strategyImpl QueryRef "/?a=2#b=2" r2.2).
Proof.
  cbn zeta.
  destruct (getSnapshot_memoised strategyImpl QueryRef "/?a=1#b=2" emptyStore)
    as (_ & _ & _ & _ & _ & Hagain).
  destruct (getSnapshot_memoised strategyImpl QueryRef "/?a=2#b=2"
              (getSnapshot strategyImpl HashRef "/?a=1#b=2"
                 (getSnapshot strategyImpl QueryRef "/?a=1#b=2" emptyStore).2).2)
    as (_ & Hmiss & _).
  split; [apply (Hagain HashRef "/?a=1#b=2" "/?a=1#b=2"); [discriminate | reflexivity]|].
  split; [vm_compute; reflexivity|]. split; [vm_compute; reflexivity|].
  split; [vm_compute; reflexivity|]. split; [vm_compute; reflexivity|].
  apply Hmiss. intros c Hc. vm_compute in Hc. injection Hc as <-.
  vm_compute. discriminate.
Defined.



(** C9, run: ["AAAA"] holds three bytes, [fromBytes] throws, and the
    decode is [null]; a value without bytes encodes to [undefined]. *)
Lemma binaryParam_decode_total_witness :
  BinaryParam.decode (BinaryParam.binaryParam oneByte)
    (Some (list_ascii_of_string "AAAA")) = BinaryParam.Return None
  /\ BinaryParam.decode (BinaryParam.binaryParam oneByte)
       (Some (list_ascii_of_string "_w")) = BinaryParam.Return (Some "255"%byte)
  /\ BinaryParam.encode (BinaryParam.binaryParam noBytes) (Some tt)
     = BinaryParam.Return None.
Proof.
  destruct (BinaryParamFacts.binaryParam_decode_total oneByte)
    as (_ & _ & _ & _ & _ & Hthrow & _).
  destruct (BinaryParamFacts.binaryParam_decode_total noBytes)
    as (_ & _ & _ & _ & _ & _ & _ & Hempty).
  split; [apply (Hthrow _ "expected one byte"); vm_compute; reflexivity|].
  split; [vm_compute; reflexivity|].
  apply Hempty. reflexivity.
Defined.


End ScenarioFacts.

(** * Properties of the codecs *)

(** ** The built-ins: decimal text of an integer, [split] and [join] *)

Module JsFacts.
Import Js.
Local Open Scope string_scope.

Lemma digitValue_digitChar d : 0 <= d < 10 -> digitValue (digitChar d) = Some d.
Proof.
  intros Hd.
  assert (Hc : d = 0 \/ d = 1 \/ d = 2 \/ d = 3 \/ d = 4 \/ d = 5 \/ d = 6
               \/ d = 7 \/ d = 8 \/ d = 9) by lia.
  repeat (destruct Hc as [-> | Hc]; [reflexivity|]). subst. reflexivity.
Qed.

Lemma digitChar_plain d : 0 <= d < 10 ->
  isWhiteSpace (digitChar d) = false /\ digitChar d <> "-"%char
  /\ digitChar d <> "+"%char /\ digitChar d <> " "%char.
Proof.
  intros Hd.
  assert (Hc : d = 0 \/ d = 1 \/ d = 2 \/ d = 3 \/ d = 4 \/ d = 5 \/ d = 6
               \/ d = 7 \/ d = 8 \/ d = 9) by lia.
  repeat (destruct Hc as [-> | Hc]; [repeat split; discriminate|]).
  subst. repeat split; discriminate.
Qed.

(** Reading the digits written in front of [s] continues with [s]. *)
Lemma digitsOf_read fuel : forall n s,
  0 <= n < 10 ^ Z.of_nat (S fuel) ->
  exists k, 0 <= k /\ forall a seen,
    digitsPrefix (digitsOf (S fuel) n s) a seen = digitsPrefix s (a * 10 ^ k + n) true.
Proof.
  induction fuel as [|fuel IH]; intros n s Hn.
  - exists 1. split; [lia|]. intros a seen. change (10 ^ Z.of_nat 1) with 10 in Hn.
    cbn [digitsOf]. replace (n <? 10)%Z with true by (symmetry; apply Z.ltb_lt; lia).
    cbn [digitsPrefix]. rewrite digitValue_digitChar by (apply Z.mod_pos_bound; lia).
    rewrite Z.mod_small by lia. f_equal; lia.
  - remember (S fuel) as f eqn:Hf. cbn [digitsOf].
    destruct (Z.ltb_spec n 10) as [Hlt | Hge].
    + exists 1. split; [lia|]. intros a seen.
      cbn [digitsPrefix]. rewrite digitValue_digitChar by (apply Z.mod_pos_bound; lia).
      rewrite Z.mod_small by lia. f_equal; lia.
    + subst f.
      destruct (IH (n / 10) (String (digitChar (n mod 10)) s)) as (k & Hk & Hread).
      { split; [apply Z.div_pos; lia|].
        apply Z.div_lt_upper_bound; [lia|].
        rewrite <- Z.pow_succ_r by lia.
        replace (Z.succ (Z.of_nat (S fuel))) with (Z.of_nat (S (S fuel))) by lia.
        apply Hn. }
      exists (k + 1). split; [lia|]. intros a seen.
      rewrite Hread.
      cbn [digitsPrefix]. rewrite digitValue_digitChar by (apply Z.mod_pos_bound; lia).
      f_equal. rewrite Z.pow_add_r by lia.
      pose proof (Z.div_mod n 10). lia.
Qed.

Lemma digitsOf_app fuel : forall n s1 s2,
  digitsOf fuel n (s1 +:+ s2) = digitsOf fuel n s1 +:+ s2.
Proof.
  induction fuel as [|fuel IH]; intros n s1 s2; [reflexivity|].
  cbn [digitsOf]. destruct (n <? 10)%Z; [reflexivity|].
  rewrite <- IH. reflexivity.
Qed.

(** The text of a non-negative integer starts with a digit. *)
Lemma digitsOf_head fuel : forall n s,
  0 <= n -> exists d s', 0 <= d < 10 /\ digitsOf (S fuel) n s = String (digitChar d) s'.
Proof.
  induction fuel as [|fuel IH]; intros n s Hn.
  - cbn [digitsOf]. exists (n mod 10), s. split; [apply Z.mod_pos_bound; lia|].
    destruct (n <? 10)%Z; reflexivity.
  - remember (S fuel) as f eqn:Hf. cbn [digitsOf]. destruct (n <? 10)%Z.
    + exists (n mod 10), s. split; [apply Z.mod_pos_bound; lia|]. reflexivity.
    + subst f. apply IH. apply Z.div_pos; lia.
Qed.

Lemma digits_fuel n : 0 <= n -> n < 10 ^ Z.of_nat (S (Z.to_nat (Z.log2 n))).
Proof.
  intros Hn.
  replace (Z.of_nat (S (Z.to_nat (Z.log2 n)))) with (Z.succ (Z.log2 n))
    by (pose proof (Z.log2_nonneg n); lia).
  destruct (Z.eq_dec n 0) as [-> | Hnz]; [reflexivity|].
  pose proof (Z.log2_nonneg n).
  apply Z.lt_le_trans with (2 ^ Z.succ (Z.log2 n)).
  - apply Z.log2_spec. lia.
  - apply Z.pow_le_mono_l. lia.
Qed.

Lemma append_cons c s1 s2 : String c s1 +:+ s2 = String c (s1 +:+ s2).
Proof. reflexivity. Qed.

Lemma append_nil_l s : EmptyString +:+ s = s.
Proof. reflexivity. Qed.

Lemma append_nil_r s : s +:+ EmptyString = s.
Proof. induction s as [|c s IH]; [reflexivity|]. rewrite append_cons, IH. reflexivity. Qed.

Lemma append_assoc s1 s2 s3 : (s1 +:+ s2) +:+ s3 = s1 +:+ (s2 +:+ s3).
Proof.
  induction s1 as [|c s1 IH]; [reflexivity|]. rewrite !append_cons, IH. reflexivity.
Qed.

Lemma digits_app n rest :
  digits n +:+ rest = digitsOf (S (Z.to_nat (Z.log2 n))) n rest.
Proof. unfold digits. rewrite <- digitsOf_app. reflexivity. Qed.

Lemma rest_read rest a :
  startsWithDigit rest = false -> digitsPrefix rest a true = Some a.
Proof.
  destruct rest as [|c rest]; [reflexivity|]. cbn [startsWithDigit digitsPrefix].
  intros Hd. destruct (digitValue c); [|reflexivity].
  apply bool_decide_eq_false in Hd. exfalso. apply Hd. eauto.
Qed.

Lemma sign_of_plain c s :
  c <> "-"%char -> c <> "+"%char ->
  match String c s with
  | String "-" s' => (-1, s')
  | String "+" s' => (1, s')
  | _ => (1, String c s)
  end = (1, String c s).
Proof.
  intros Hm Hp.
  destruct c as [[] [] [] [] [] [] [] []]; try reflexivity; congruence.
Qed.

(** [parseInt] reads back the text of an integer, whatever follows it
    that is not a digit. *)
Lemma parseInt_numberToString z rest :
  startsWithDigit rest = false -> parseInt (numberToString (Int z) +:+ rest) = Int z.
Proof.
  intros Hrest. cbn [numberToString]. destruct (Z.ltb_spec z 0) as [Hneg | Hpos].
  - rewrite append_cons. unfold parseInt. cbn [trimStart].
    change (isWhiteSpace "-") with false. cbv iota.
    rewrite digits_app.
    destruct (digitsOf_read (Z.to_nat (Z.log2 (- z))) (- z) rest) as (k & _ & ->).
    { split; [lia|]. apply digits_fuel. lia. }
    rewrite rest_read by exact Hrest. f_equal. lia.
  - rewrite digits_app.
    destruct (digitsOf_head (Z.to_nat (Z.log2 z)) z rest Hpos) as (d & s' & Hd & Hhead).
    destruct (digitChar_plain d Hd) as (Hws & Hm & Hp & _).
    unfold parseInt. rewrite Hhead. cbn [trimStart]. rewrite Hws.
    rewrite sign_of_plain by assumption. rewrite <- Hhead.
    destruct (digitsOf_read (Z.to_nat (Z.log2 z)) z rest) as (k & _ & ->).
    { split; [lia|]. apply digits_fuel. lia. }
    rewrite rest_read by exact Hrest. f_equal. lia.
Qed.

Lemma parseInt_roundtrip z : parseInt (numberToString (Int z)) = Int z.
Proof.
  rewrite <- (append_nil_r (numberToString (Int z))).
  apply parseInt_numberToString. reflexivity.
Qed.

Lemma digitsOf_chars c fuel : forall n s,
  0 <= n -> (forall d, 0 <= d < 10 -> digitChar d <> c) ->
  hasChar c (digitsOf fuel n s) = hasChar c s.
Proof.
  intros n s Hn Hc. revert n s Hn.
  induction fuel as [|fuel IH]; intros n s Hn; [reflexivity|].
  cbn [digitsOf].
  assert (Hh : hasChar c (String (digitChar (n mod 10)) s) = hasChar c s).
  { cbn [hasChar]. replace (Ascii.eqb (digitChar (n mod 10)) c) with false; [reflexivity|].
    symmetry. apply Ascii.eqb_neq. apply Hc. apply Z.mod_pos_bound. lia. }
  destruct (n <? 10)%Z; [exact Hh|].
  rewrite IH by (apply Z.div_pos; lia). exact Hh.
Qed.

(** The text of an integer is not empty and holds no space. *)
Lemma numberToString_plain z :
  hasChar " " (numberToString (Int z)) = false
  /\ numberToString (Int z) <> EmptyString.
Proof.
  assert (Hsp : forall d, 0 <= d < 10 -> digitChar d <> " "%char).
  { intros d Hd. apply (digitChar_plain d Hd). }
  cbn [numberToString]. destruct (Z.ltb_spec z 0) as [Hneg | Hpos].
  - split; [|discriminate]. cbn [hasChar]. unfold digits.
    rewrite digitsOf_chars by (assumption || lia). reflexivity.
  - split.
    + unfold digits. rewrite digitsOf_chars by (assumption || lia). reflexivity.
    + unfold digits.
      destruct (digitsOf_head (Z.to_nat (Z.log2 z)) z EmptyString Hpos)
        as (d & s' & _ & ->).
      discriminate.
Qed.

(** *** [split] and [join] with a one-character separator *)

Lemma join_fold sep rest : forall p q,
  fold_left (fun acc y => acc +:+ sep +:+ y) rest (p +:+ q)
  = p +:+ fold_left (fun acc y => acc +:+ sep +:+ y) rest q.
Proof.
  induction rest as [|y rest IH]; intros p q; [reflexivity|].
  cbn [fold_left]. rewrite append_assoc. apply IH.
Qed.

Lemma join_cons sep x y rest :
  Concrete.join sep (x :: y :: rest) = x +:+ sep +:+ Concrete.join sep (y :: rest).
Proof.
  unfold Concrete.join. cbn [fold_left]. rewrite !join_fold. reflexivity.
Qed.

Lemma splitFrom_piece c x : forall rest,
  hasChar c x = false ->
  splitFrom (String c EmptyString) 0 (x +:+ String c rest)
  = x :: splitFrom (String c EmptyString) 0 rest.
Proof.
  induction x as [|a x IH]; intros rest Hx.
  - rewrite append_nil_l. cbn [splitFrom String.prefix].
    destruct (ascii_dec c c) as [_|Hne]; [|congruence].
    destruct rest; reflexivity.
  - cbn [hasChar] in Hx. apply orb_false_iff in Hx as [Hac Hx].
    apply Ascii.eqb_neq in Hac.
    rewrite append_cons. cbn [splitFrom String.prefix].
    destruct (ascii_dec c a) as [He|_]; [congruence|].
    rewrite IH by exact Hx. reflexivity.
Qed.

Lemma splitFrom_whole c x :
  hasChar c x = false -> splitFrom (String c EmptyString) 0 x = [x].
Proof.
  induction x as [|a x IH]; intros Hx; [reflexivity|].
  cbn [hasChar] in Hx. apply orb_false_iff in Hx as [Hac Hx].
  apply Ascii.eqb_neq in Hac.
  cbn [splitFrom String.prefix].
  destruct (ascii_dec c a) as [He|_]; [congruence|].
  rewrite IH by exact Hx. reflexivity.
Qed.

Lemma splitFrom_join c (l : list string) :
  l <> [] -> Forall (fun x => hasChar c x = false) l ->
  splitFrom (String c EmptyString) 0 (Concrete.join (String c EmptyString) l) = l.
Proof.
  induction l as [|x l IH]; intros Hne Hall; [congruence|].
  apply Forall_cons in Hall as [Hx Hall].
  destruct l as [|y l].
  - cbn [Concrete.join fold_left]. apply splitFrom_whole. exact Hx.
  - rewrite join_cons. rewrite append_cons, append_nil_l.
    rewrite splitFrom_piece by exact Hx. f_equal. apply IH; [discriminate|exact Hall].
Qed.

Lemma split_join c (l : list string) :
  l <> [] -> Forall (fun x => hasChar c x = false) l ->
  split (String c EmptyString) (Concrete.join (String c EmptyString) l) = l.
Proof. intros Hne Hall. unfold split. cbn [String.eqb]. apply splitFrom_join; assumption. Qed.

(** A joined text is empty only for [[]] and [[EmptyString]]. *)
Lemma join_empty sep (l : list string) :
  sep <> EmptyString -> Concrete.join sep l = EmptyString -> l = [] \/ l = [EmptyString].
Proof.
  intros Hsep. destruct l as [|x [|y l]]; [auto| |].
  - cbn [Concrete.join fold_left]. intros ->. auto.
  - rewrite join_cons. destruct x; [|discriminate]. rewrite append_nil_l.
    destruct sep; [congruence|discriminate].
Qed.

(** *** [new Map(entries)] *)

Lemma newMap_fold (l : list (string * string)) : forall (m : gmap string string) k,
  fold_left (fun (m : gmap string string) e => <[e.1 := e.2]> m) l m !! k
  = match (list_to_map (reverse l) : gmap string string) !! k with
    | Some v => Some v
    | None => m !! k
    end.
Proof.
  induction l as [|[k' v'] l IH] using rev_ind; intros m k.
  - cbn. rewrite lookup_empty. reflexivity.
  - rewrite fold_left_app. cbn [fold_left fst snd].
    rewrite reverse_app. cbn [reverse rev_append app list_to_map foldr].
    change (list_to_map (reverse [(k', v')] ++ reverse l) : gmap string string)
      with (<[k' := v']> (list_to_map (reverse l) : gmap string string)).
    destruct (decide (k' = k)) as [->|Hne].
    + rewrite !lookup_insert_eq. reflexivity.
    + rewrite !lookup_insert_ne by exact Hne. apply IH.
Qed.

(** A map built from entries with distinct keys holds exactly them. *)
Lemma newMap_lookup (l : list (string * string)) k v :
  NoDup l.*1 -> newMap l !! k = Some v <-> (k, v) ∈ l.
Proof.
  intros Hnd. unfold newMap. rewrite newMap_fold, lookup_empty.
  assert (Hnd' : NoDup (reverse l).*1).
  { rewrite fmap_reverse. rewrite reverse_Permutation. exact Hnd. }
  split.
  - destruct (list_to_map (reverse l) !! k) as [v'|] eqn:E; [|discriminate].
    intros [= ->]. apply elem_of_list_to_map_2 in E. rewrite elem_of_reverse in E. exact E.
  - intros Hin. apply elem_of_reverse_2 in Hin.
    rewrite (elem_of_list_to_map_1 _ _ _ Hnd' Hin). reflexivity.
Qed.

(** Whatever a map built from entries holds is one of the entries. *)
Lemma newMap_elem (l : list (string * string)) k v :
  newMap l !! k = Some v -> (k, v) ∈ l.
Proof.
  unfold newMap. rewrite newMap_fold, lookup_empty.
  destruct (list_to_map (reverse l) !! k) as [v'|] eqn:E; [|discriminate].
  intros [= ->]. apply elem_of_list_to_map_2 in E. rewrite elem_of_reverse in E. exact E.
Qed.

End JsFacts.

(** ** The built-in codecs *)

Module ParamsFacts.
Import Js Params JsFacts.
Local Open Scope string_scope.

Lemma strictEq_eq a b : strictEq a b = true -> a = b.
Proof.
  destruct a as [x|], b as [y|]; cbn; try discriminate.
  intros Heq. apply Z.eqb_eq in Heq. congruence.
Qed.

Lemma strictEq_int x y : strictEq (Int x) (Int y) = bool_decide (x = y).
Proof.
  cbn. destruct (Z.eqb_spec x y) as [->|Hne].
  - rewrite bool_decide_eq_true_2; reflexivity.
  - rewrite bool_decide_eq_false_2; [reflexivity|exact Hne].
Qed.

Lemma nonempty_eqb s : s <> EmptyString -> String.eqb s EmptyString = false.
Proof. intros Hs. apply String.eqb_neq. exact Hs. Qed.

(** X16: [defStringParam], [stringParam] and [boolParam] give back what
    was encoded, with the default left out of the URL; the exceptions
    are an [undefined] value under a defined default, which comes back
    as the default, and any present text, which [boolParam] reads as
    [true]. *)
Theorem plain_codecs_roundtrip :
  (forall init v,
      decode (Concrete.defStringParam init) (encode (Concrete.defStringParam init) v) = v
      /\ (encode (Concrete.defStringParam init) v = None <-> v = init))
  /\ (forall init s,
        decode (stringParam init) (encode (stringParam init) (Some s)) = Some s)
  /\ (forall init, decode (stringParam init) (encode (stringParam init) None) = init)
  /\ (forall init v, encode (stringParam init) v = None <-> v = init \/ v = None)
  /\ (forall b, decode boolParam (encode boolParam b) = b)
  /\ (forall e, decode boolParam (Some e) = true).
Proof.
  repeat split.
  - cbn. destruct (String.eqb_spec v init) as [->|Hne]; reflexivity.
  - cbn. destruct (String.eqb_spec v init) as [->|Hne]; [reflexivity|discriminate].
  - intros ->. cbn. rewrite String.eqb_refl. reflexivity.
  - intros init s. cbn. case_bool_decide; [subst init|]; reflexivity.
  - intros init. cbn. case_bool_decide; [subst init|]; reflexivity.
  - cbn. case_bool_decide; [auto|]. intros ->. auto.
  - cbn. intros [-> | ->].
    + rewrite bool_decide_eq_true_2; reflexivity.
    + case_bool_decide; reflexivity.
  - intros []; reflexivity.
Qed.

(** X17: [intParam] and [optIntParam] give back every safe integer they
    encode, also when other text follows the digits; the default is the
    only value left out of the URL, and an absent, empty or non-numeric
    text decodes to the default rather than to [NaN]. *)
Theorem int_codecs_roundtrip (init : number) (z : Z) :
  isSafeInteger z ->
  decode (intParam init) (encode (intParam init) (Int z)) = Int z
  /\ (encode (intParam init) (Int z) = None <-> init = Int z)
  /\ (forall rest, startsWithDigit rest = false ->
        decode (intParam init) (Some (numberToString (Int z) +:+ rest)) = Int z)
  /\ decode optIntParam (encode optIntParam (Some (Int z))) = Some (Int z)
  /\ decode optIntParam (encode optIntParam None) = None
  /\ (forall e, decode (intParam init) e = init
                \/ exists m, decode (intParam init) e = Int m)
  /\ (forall e, decode optIntParam e <> Some NaN)
  /\ (forall e, parseInt e = NaN ->
        decode (intParam init) (Some e) = init /\ decode optIntParam (Some e) = None).
Proof.
  intros _.
  assert (Hdec : forall rest, startsWithDigit rest = false ->
            decode (intParam init) (Some (numberToString (Int z) +:+ rest)) = Int z).
  { intros rest Hrest. cbn [decode intParam].
    rewrite nonempty_eqb.
    2:{ destruct (numberToString_plain z) as [_ Hne].
        destruct (numberToString (Int z)); [congruence|discriminate]. }
    rewrite parseInt_numberToString by exact Hrest. reflexivity. }
  repeat split.
  - cbn [encode intParam]. destruct (strictEq (Int z) init) eqn:E.
    + apply strictEq_eq in E. subst init. reflexivity.
    + rewrite <- (append_nil_r (numberToString (Int z))). apply Hdec. reflexivity.
  - cbn [encode intParam]. destruct (strictEq (Int z) init) eqn:E; [|discriminate].
    intros _. symmetry. apply strictEq_eq. exact E.
  - intros ->. cbn [encode intParam]. cbn [strictEq]. rewrite Z.eqb_refl. reflexivity.
  - exact Hdec.
  - cbn [encode decode optIntParam].
    rewrite nonempty_eqb by apply numberToString_plain.
    rewrite parseInt_roundtrip. reflexivity.
  - intros [e|]; cbn [decode intParam]; [|auto].
    destruct (String.eqb e EmptyString); [auto|].
    destruct (parseInt e) as [m|]; cbn [isNaN]; eauto.
  - intros [e|]; cbn [decode optIntParam]; [|discriminate].
    destruct (String.eqb e EmptyString); [discriminate|].
    destruct (parseInt e) as [m|]; cbn [isNaN]; discriminate.
  - cbn [decode intParam]. rewrite H. destruct (String.eqb e EmptyString); reflexivity.
  - cbn [decode optIntParam]. rewrite H. destruct (String.eqb e EmptyString); reflexivity.
Qed.

(** X18: [enumParam] never decodes to anything but the default or one of
    its values; it gives back every valid value, leaves the default out
    of the URL, and answers an invalid value with the default and one
    warning. *)
Theorem enumParam_valid (init : string) (values : list string) :
  (forall e, decode (enumParam init values) e = init
             \/ decode (enumParam init values) e ∈ values)
  /\ (forall v, v ∈ values ->
        decode (enumParam init values) (encode (enumParam init values) v) = v
        /\ (enumEncode init values v).2 = []
        /\ (enumDecode init values (Some v)).2 = [])
  /\ (forall v, v ∉ values ->
        encode (enumParam init values) v = None
        /\ decode (enumParam init values) (Some v) = init
        /\ length (enumEncode init values v).2 = 1%nat
        /\ length (enumDecode init values (Some v)).2 = 1%nat)
  /\ (forall v, v ∈ values -> (encode (enumParam init values) v = None <-> v = init)).
Proof.
  repeat split.
  - intros [e|]; cbn; [|auto].
    case_bool_decide; cbn; auto.
  - cbn. unfold enumEncode. rewrite bool_decide_eq_true_2 by exact H. cbn.
    case_bool_decide; cbn; [congruence|].
    rewrite bool_decide_eq_true_2 by exact H. reflexivity.
  - unfold enumEncode. rewrite bool_decide_eq_true_2 by exact H. reflexivity.
  - unfold enumDecode. rewrite bool_decide_eq_true_2 by exact H. reflexivity.
  - cbn. unfold enumEncode. rewrite bool_decide_eq_false_2 by exact H. reflexivity.
  - cbn. rewrite bool_decide_eq_false_2 by exact H. reflexivity.
  - unfold enumEncode. rewrite bool_decide_eq_false_2 by exact H. reflexivity.
  - unfold enumDecode. rewrite bool_decide_eq_false_2 by exact H. reflexivity.
  - cbn. unfold enumEncode. rewrite bool_decide_eq_true_2 by exact H. cbn.
    case_bool_decide; [auto|discriminate].
  - intros ->. cbn. unfold enumEncode. rewrite bool_decide_eq_true_2 by exact H. cbn.
    rewrite bool_decide_eq_true_2; reflexivity.
Qed.

(** X19: with a one-character delimiter that occurs in no element,
    [stringsParam] gives back the list it encoded, except for the list
    holding just the empty string (and the empty list under that
    default): their text, the empty one, is read as the empty list or
    as the default. *)
Theorem stringsParam_roundtrip (c : ascii) (init values : list string) :
  Forall (fun x => hasChar c x = false) init ->
  Forall (fun x => hasChar c x = false) values ->
  let p := stringsParam init (String c EmptyString) in
  (values <> [EmptyString] -> ~ (values = [] /\ init = [EmptyString]) ->
   decode p (encode p values) = values)
  /\ (encode p values = None <-> Concrete.join (String c EmptyString) values
                                 = Concrete.join (String c EmptyString) init)
  /\ decode p (encode p [EmptyString])
     = (if bool_decide (init = [] \/ init = [EmptyString]) then init else [])
  /\ decode p (Some EmptyString) = [].
Proof.
  intros Hinit Hvalues p.
  assert (Hsep : String c EmptyString <> EmptyString) by discriminate.
  split; [|split; [|split]].
  - intros Hne1 Hne2. cbn [p encode decode stringsParam].
    case_bool_decide as Hj.
    + destruct (decide (Concrete.join (String c EmptyString) values = EmptyString)) as [He|He].
      * destruct (join_empty _ _ Hsep He) as [-> | ->]; [|congruence].
        rewrite He in Hj. symmetry in Hj.
        destruct (join_empty _ _ Hsep Hj) as [-> | ->]; [reflexivity|].
        exfalso. apply Hne2. auto.
      * assert (Hv : values <> []) by (intros ->; apply He; reflexivity).
        assert (Hi : init <> []) by (intros ->; apply He; rewrite Hj; reflexivity).
        rewrite <- (split_join c init Hi Hinit), <- Hj.
        apply split_join; assumption.
    + destruct (String.eqb_spec (Concrete.join (String c EmptyString) values) EmptyString)
        as [He|He].
      * destruct (join_empty _ _ Hsep He) as [-> | ->]; [reflexivity|congruence].
      * apply split_join; [|assumption]. intros ->. apply He. reflexivity.
  - cbn [p encode stringsParam]. case_bool_decide; split; (congruence || discriminate || auto).
  - cbn [p encode decode stringsParam Concrete.join fold_left].
    case_bool_decide as Hj; case_bool_decide as Hi.
    + reflexivity.
    + exfalso. apply Hi. symmetry in Hj. apply (join_empty _ _ Hsep Hj).
    + exfalso. apply Hj. destruct Hi as [-> | ->]; reflexivity.
    + reflexivity.
  - reflexivity.
Qed.

(** X20: [paginationParam] gives back every page of safe integers whose
    size is the default or, when a list of sizes is configured, on that
    list. *)
Theorem paginationParam_roundtrip (defaultPageSize : number)
    (validPageSizes : option (list number)) (a b : Z) :
  isSafeInteger a -> isSafeInteger b ->
  (forall valid, validPageSizes = Some valid ->
     includes valid (Int b) = true \/ defaultPageSize = Int b) ->
  let p := paginationParam defaultPageSize validPageSizes in
  decode p (encode p {| offset := Int a; pageSize := Int b |})
  = {| offset := Int a; pageSize := Int b |}.
Proof.
  intros _ _ Hvalid p.
  destruct (numberToString_plain a) as [Hsa Hna].
  destruct (numberToString_plain b) as [Hsb Hnb].
  assert (Hcheck : forall ps, ps = Int b ->
            match validPageSizes with
            | Some valid => if negb (includes valid ps) then defaultPageSize else ps
            | None => ps
            end = Int b).
  { intros ps ->. destruct validPageSizes as [valid|]; [|reflexivity].
    destruct (Hvalid valid eq_refl) as [-> | ->]; [reflexivity|].
    destruct (includes valid (Int b)); reflexivity. }
  assert (Hdefault : strictEq (Int b) defaultPageSize = true ->
            match validPageSizes with
            | Some valid => if negb (includes valid defaultPageSize)
                            then defaultPageSize else defaultPageSize
            | None => defaultPageSize
            end = Int b).
  { intros E. apply strictEq_eq in E. rewrite <- E.
    destruct validPageSizes as [valid|]; [|reflexivity].
    destruct (includes valid (Int b)); reflexivity. }
  subst p. cbn [encode paginationParam offset pageSize].
  destruct (strictEq (Int a) (Int 0)) eqn:Ea; destruct (strictEq (Int b) defaultPageSize) eqn:Eb;
    cbn [andb].
  - apply strictEq_eq in Ea, Eb. injection Ea as ->. subst defaultPageSize. reflexivity.
  - apply strictEq_eq in Ea. injection Ea as ->.
    cbn [decode paginationParam]. rewrite append_cons, append_nil_l.
    cbn [String.eqb]. unfold split. cbn [String.eqb].
    rewrite <- (append_nil_l (String " " (numberToString (Int b)))).
    rewrite splitFrom_piece by reflexivity.
    rewrite splitFrom_whole by exact Hsb.
    cbn [lookup list_lookup String.eqb].
    rewrite nonempty_eqb by exact Hnb. rewrite parseInt_roundtrip.
    rewrite Hcheck by reflexivity. reflexivity.
  - cbn [decode paginationParam]. rewrite nonempty_eqb by exact Hna.
    unfold split. cbn [String.eqb].
    rewrite splitFrom_whole by exact Hsa.
    cbn [lookup list_lookup]. rewrite nonempty_eqb by exact Hna.
    rewrite parseInt_roundtrip. rewrite Hdefault by reflexivity.
    f_equal. destruct a; [discriminate Ea|reflexivity|reflexivity].
  - cbn [decode paginationParam].
    rewrite nonempty_eqb.
    2:{ destruct (numberToString (Int a)); [congruence|discriminate]. }
    unfold split. cbn [String.eqb].
    rewrite append_cons, append_nil_l.
    rewrite splitFrom_piece by exact Hsa.
    rewrite splitFrom_whole by exact Hsb.
    cbn [lookup list_lookup]. rewrite !nonempty_eqb by assumption.
    rewrite !parseInt_roundtrip. rewrite Hcheck by reflexivity.
    f_equal. destruct a; [discriminate Ea|reflexivity|reflexivity].
Qed.

(** X21: whatever text [paginationParam] decodes, the offset is a number
    (never [NaN]), and with a list of sizes configured the page size is
    the default or on the list. *)
Theorem paginationParam_decode_safe (defaultPageSize : number)
    (validPageSizes : option (list number)) (encoded : option string) :
  let r := decode (paginationParam defaultPageSize validPageSizes) encoded in
  (exists m, offset r = Int m)
  /\ (forall valid, validPageSizes = Some valid ->
        pageSize r = defaultPageSize \/ includes valid (pageSize r) = true)
  /\ (encoded = None \/ encoded = Some EmptyString ->
      r = {| offset := Int 0; pageSize := defaultPageSize |}).
Proof.
  intros r. subst r. split; [|split].
  - destruct encoded as [e|]; cbn [decode paginationParam]; [|cbn; eauto].
    destruct (String.eqb e EmptyString); [cbn; eauto|]. cbn [offset].
    destruct (split " " e !! 0%nat) as [p0|]; [|cbn; eauto].
    destruct (String.eqb p0 EmptyString); [eauto|].
    destruct (parseInt p0) as [[| |]|]; cbn; eauto.
  - intros valid ->. destruct encoded as [e|]; cbn [decode paginationParam]; [|cbn; auto].
    destruct (String.eqb e EmptyString); [cbn; auto|]. cbn [pageSize].
    match goal with
    | |- context [includes valid ?ps] => destruct (includes valid ps) eqn:E
    end; cbn [negb]; auto.
  - intros [-> | ->]; reflexivity.
Qed.

(** X22: with a code map whose values and whose codes are distinct,
    [codeParam] gives back every mapped value and the default; whatever
    text it decodes, the result is the default or a mapped value. *)
Theorem codeParam_roundtrip (init : string) (codeMap : CodeMap) :
  NoDup (normalizeCodeMap codeMap).*1 -> NoDup (normalizeCodeMap codeMap).*2 ->
  let p := codeParam init codeMap in
  (forall v c, (v, c) ∈ normalizeCodeMap codeMap ->
     decode p (encode p v) = v
     /\ (v <> init -> encode p v = Some c))
  /\ decode p (encode p init) = init /\ encode p init = None
  /\ (forall e, decode p e = init
                \/ exists c, (decode p e, c) ∈ normalizeCodeMap codeMap).
Proof.
  intros Hvalues Hcodes p.
  assert (Hinit : encode p init = None).
  { cbn. rewrite bool_decide_eq_true_2; reflexivity. }
  assert (Hswap : NoDup ((fun e : string * string => (e.2, e.1))
                           <$> normalizeCodeMap codeMap).*1).
  { rewrite <- list_fmap_compose. exact Hcodes. }
  split; [|split; [|split]].
  - intros v c Hin.
    assert (Henc : v <> init -> encode p v = Some c).
    { intros Hne. cbn. rewrite bool_decide_eq_false_2 by exact Hne.
      unfold valueToCode.
      rewrite (proj2 (newMap_lookup _ v c Hvalues) Hin). reflexivity. }
    split; [|exact Henc].
    destruct (decide (v = init)) as [->|Hne].
    + rewrite Hinit. reflexivity.
    + rewrite Henc by exact Hne. cbn. unfold codeToValue.
      rewrite (proj2 (newMap_lookup _ c v Hswap)); [reflexivity|].
      apply list_elem_of_fmap. exists (v, c). auto.
  - rewrite Hinit. reflexivity.
  - exact Hinit.
  - intros [e|]; cbn; [|auto].
    destruct (codeToValue codeMap !! e) as [v|] eqn:E; cbn; [|auto].
    right. exists e. apply newMap_elem in E.
    apply list_elem_of_fmap in E as ([v' c'] & [= -> ->] & Hin). exact Hin.
Qed.

Lemma join_chars (l : list string) :
  Forall (fun s => String.length s = 1%nat) l ->
  (fun c => String c EmptyString) <$> list_ascii_of_string (Concrete.join EmptyString l) = l
  /\ (l <> [] -> Concrete.join EmptyString l <> EmptyString).
Proof.
  induction l as [|x l IH]; intros Hall; [split; [reflexivity|congruence]|].
  apply Forall_cons in Hall as [Hx Hall]. destruct (IH Hall) as [IHc _].
  destruct x as [|a [|? ?]]; try discriminate Hx.
  destruct l as [|y l].
  - split; [reflexivity|discriminate].
  - rewrite join_cons, append_nil_l, append_cons, append_nil_l.
    split; [|discriminate]. cbn [list_ascii_of_string fmap list_fmap].
    f_equal. exact IHc.
Qed.

Lemma codes_back (codeMap : CodeMap) (values : list string) :
  NoDup (normalizeCodeMap codeMap).*1 -> NoDup (normalizeCodeMap codeMap).*2 ->
  Forall (fun v => v ∈ (normalizeCodeMap codeMap).*1) values ->
  let codes := (fun v => default v (valueToCode codeMap !! v)) <$> values in
  omap (fun c => codeToValue codeMap !! c) codes = values
  /\ Forall (fun c => c ∈ (normalizeCodeMap codeMap).*2) codes.
Proof.
  intros Hvalues Hcodes Hall codes. subst codes.
  assert (Hswap : NoDup ((fun e : string * string => (e.2, e.1))
                           <$> normalizeCodeMap codeMap).*1).
  { rewrite <- list_fmap_compose. exact Hcodes. }
  induction values as [|v values IH]; [split; [reflexivity|constructor]|].
  apply Forall_cons in Hall as [Hv Hall]. destruct (IH Hall) as [IH1 IH2].
  apply list_elem_of_fmap in Hv as ([v' c] & -> & Hin). cbn [fst].
  assert (Hvc : valueToCode codeMap !! v' = Some c).
  { apply (newMap_lookup _ v' c Hvalues). exact Hin. }
  assert (Hcv : codeToValue codeMap !! c = Some v').
  { apply (newMap_lookup _ c v' Hswap). apply list_elem_of_fmap. exists (v', c). auto. }
  cbn [fmap list_fmap omap list_omap]. rewrite Hvc. cbn [default from_option id]. rewrite Hcv.
  split.
  - f_equal. exact IH1.
  - constructor; [|exact IH2]. apply list_elem_of_fmap. exists (v', c). auto.
Qed.

(** X23: in its compact form (no separator, one-character codes that are
    distinct, as are the values), [codesParam] gives back every list of
    mapped values it writes to the URL; it leaves out exactly the lists
    that hold every possible value and are as long as their list, and
    reads an absent parameter as that list, so that the order of such a
    selection is not kept.  Whatever text it decodes, the result holds
    mapped values only. *)
Theorem codesParam_roundtrip (allValues : list string) (codeMap : CodeMap)
    (values : list string) :
  NoDup (normalizeCodeMap codeMap).*1 -> NoDup (normalizeCodeMap codeMap).*2 ->
  Forall (fun c => String.length c = 1%nat) (normalizeCodeMap codeMap).*2 ->
  Forall (fun v => v ∈ (normalizeCodeMap codeMap).*1) values ->
  let p := codesParam allValues codeMap EmptyString in
  (forall e, encode p values = Some e -> decode p (Some e) = values)
  /\ (encode p values = None
      <-> length values = length allValues /\ Forall (fun v => v ∈ values) allValues)
  /\ (NoDup allValues -> encode p values = None ->
      decode p (encode p values) = allValues /\ allValues ≡ₚ values)
  /\ (forall separator e v,
        v ∈ decode (codesParam allValues codeMap separator) (Some e) ->
        v ∈ (normalizeCodeMap codeMap).*1).
Proof.
  intros Hvalues Hcodes Hone Hall p. subst p.
  assert (Hnone : encode (codesParam allValues codeMap EmptyString) values = None
                  <-> length values = length allValues
                      /\ Forall (fun v => v ∈ values) allValues).
  { cbn [encode codesParam].
    destruct (Nat.eqb_spec (length values) (length allValues)) as [Hl|Hl]; cbn [andb].
    - destruct (forallb (fun v => bool_decide (v ∈ values)) allValues) eqn:E.
      + split; [|reflexivity]. intros _. split; [exact Hl|].
        apply Forall_forall. intros v Hv.
        rewrite forallb_forall in E. apply (bool_decide_eq_true_1 _).
        apply E. apply list_elem_of_In. exact Hv.
      + split; [discriminate|]. intros [_ Hsub]. exfalso.
        assert (Ht : forallb (fun v => bool_decide (v ∈ values)) allValues = true).
        { apply forallb_forall. intros v Hv. apply bool_decide_eq_true_2.
          rewrite Forall_forall in Hsub. apply Hsub. apply list_elem_of_In. exact Hv. }
        congruence.
    - split; [discriminate|]. intros [Hl' _]. congruence. }
  split; [|split; [exact Hnone|split]].
  - intros e He. cbn [encode codesParam] in He.
    destruct ((length values =? length allValues)%nat
              && forallb (fun v => bool_decide (v ∈ values)) allValues);
      [discriminate|].
    injection He as <-.
    destruct (codes_back codeMap values Hvalues Hcodes Hall) as [Hback Hin].
    cbn zeta in Hback, Hin.
    assert (Hlen : Forall (fun s => String.length s = 1%nat)
                     ((fun v => default v (valueToCode codeMap !! v)) <$> values)).
    { rewrite Forall_forall in Hin, Hone. apply Forall_forall. intros c Hc.
      apply Hone, Hin, Hc. }
    destruct (join_chars _ Hlen) as [Hchars Hne].
    cbn [decode codesParam]. cbn [String.eqb]. unfold split. cbn [String.eqb].
    destruct (String.eqb_spec
                (Concrete.join EmptyString
                   ((fun v => default v (valueToCode codeMap !! v)) <$> values))
                EmptyString) as [He|He].
    + destruct values as [|v values]; [reflexivity|].
      exfalso. apply Hne; [discriminate|exact He].
    + rewrite Hchars. exact Hback.
  - intros Hnd He. rewrite He. split; [reflexivity|].
    apply Hnone in He as [Hl Hsub].
    apply submseteq_length_Permutation; [|lia].
    apply NoDup_submseteq; [exact Hnd|].
    rewrite Forall_forall in Hsub. exact Hsub.
  - intros separator e v. cbn [decode codesParam].
    destruct (String.eqb e EmptyString); [intros Hin; inversion Hin|].
    intros Hin. apply list_elem_of_omap in Hin as (c & _ & Hc).
    apply newMap_elem in Hc.
    apply list_elem_of_fmap in Hc as ([v' c'] & [= -> ->] & Hc).
    apply list_elem_of_fmap. exists (v', c'). auto.
Qed.

End ParamsFacts.

(** ** The multi-value codecs *)

Module MultiParamsFacts.
Import Js MultiParams JsFacts.

Lemma numbers_every (b : list number) : forall (a : list number) i,
  every_from (fun v i => match b !! i with
                         | Some x => strictEq v x
                         | None => false
                         end) i a = true ->
  forall j v, a !! j = Some v -> b !! (i + j)%nat = Some v.
Proof.
  induction a as [|x a IH]; intros i Hev j v Hj; [inversion Hj|].
  cbn [every_from] in Hev. apply andb_true_iff in Hev as [Hx Hev].
  destruct j as [|j].
  - cbn in Hj. injection Hj as ->. rewrite Nat.add_0_r.
    destruct (b !! i) as [y|]; [|discriminate].
    apply ParamsFacts.strictEq_eq in Hx. congruence.
  - cbn in Hj. replace (i + S j)%nat with (S i + j)%nat by lia.
    apply (IH (S i)); assumption.
Qed.

Lemma numbersEqual_eq (a b : list number) : numbersEqual a b = true -> a = b.
Proof.
  unfold numbersEqual. intros Heq. apply andb_true_iff in Heq as [Hlen Hev].
  apply Nat.eqb_eq in Hlen.
  apply list_eq_same_length with (length a); [congruence|reflexivity|].
  intros i x y Hi Hx Hy.
  pose proof (numbers_every b a 0 Hev i x Hx) as Hb. cbn in Hb. congruence.
Qed.

Lemma parse_texts (zs : list Z) :
  parseInt <$> (numberToString <$> (Int <$> zs)) = Int <$> zs.
Proof.
  induction zs as [|z zs IH]; [reflexivity|].
  cbn [fmap list_fmap]. rewrite parseInt_roundtrip. f_equal. exact IH.
Qed.

(** X24: [multiStringParam] and [multiIntParam] give back every
    non-empty list (of strings, of safe integers) they encode; the
    empty list cannot be told from the default, and comes back as the
    default whatever that is.  An entry of the URL that is no number
    stays in the decoded list as [NaN]. *)
Theorem multi_codecs_roundtrip :
  (forall init values : list string,
      decodeMulti (Concrete.multiStringParam init)
        (encodeMulti (Concrete.multiStringParam init) values)
      = match values with [] => init | _ => values end)
  /\ (forall (init : list number) (zs : list Z),
        Forall isSafeInteger zs ->
        decodeMulti (multiIntParam init) (encodeMulti (multiIntParam init) (Int <$> zs))
        = match zs with [] => init | _ => Int <$> zs end)
  /\ (forall (init : list number) e es,
        parseInt e = NaN -> NaN ∈ decodeMulti (multiIntParam init) (es ++ [e])).
Proof.
  split; [|split].
  - intros init values. cbn [encodeMulti decodeMulti Concrete.multiStringParam].
    destruct values as [|v values].
    + destruct ((length (@nil string) =? 0)%nat && (length init =? 0)%nat);
        [reflexivity|].
      destruct (arraysEqual [] init); reflexivity.
    + cbn [length Nat.eqb andb].
      destruct (arraysEqual (v :: values) init) eqn:E; [|reflexivity].
      apply arraysEqual_spec in E. subst init. reflexivity.
  - intros init zs _. cbn [encodeMulti decodeMulti multiIntParam].
    destruct zs as [|z zs].
    + cbn [fmap list_fmap].
      destruct ((length (@nil number) =? 0)%nat && (length init =? 0)%nat);
        [reflexivity|].
      destruct (numbersEqual [] init); reflexivity.
    + cbn [fmap list_fmap length Nat.eqb andb].
      match goal with
      | |- context [numbersEqual ?x ?y] => destruct (numbersEqual x y) eqn:E
      end.
      * apply numbersEqual_eq in E. subst init. reflexivity.
      * cbn [length Nat.eqb]. exact (parse_texts (z :: zs)).
  - intros init e es He. cbn [decodeMulti multiIntParam].
    replace (length (es ++ [e]) =? 0)%nat with false
      by (rewrite length_app; cbn; symmetry; apply Nat.eqb_neq; lia).
    rewrite fmap_app. apply elem_of_app. right. cbn. rewrite He. left.
Qed.

End MultiParamsFacts.

(** ** The further properties at work *)

Module MoreScenarioFacts.
Import Concrete Scenario MoreScenario.
Local Open Scope string_scope.
Local Open Scope nat_scope.

(** X4, run: the one-byte codec writes the byte 0x41 as ["QQ"] and
    reads it back. *)
Lemma binaryParam_roundtrip_witness :
  BinaryParam.encode (BinaryParam.binaryParam oneByte) (Some "A"%byte)
  = BinaryParam.Return (Some ["Q"%char; "Q"%char])
  /\ BinaryParam.decode (BinaryParam.binaryParam oneByte) (Some ["Q"%char; "Q"%char])
     = BinaryParam.Return (Some "A"%byte).
Proof.
  destruct (BinaryParamMore.binaryParam_roundtrip oneByte "A"%byte ["A"%byte])
    as (Henc & _ & Hdec & _); [reflexivity|discriminate|reflexivity|].
  split; [exact Henc|exact Hdec].
Defined.

(** X5, run: next to a timer of somebody else, a call arms a second
    timer and [cancel] removes just that one. *)
Lemma debounce_own_timer_only_witness :
  let called := debouncedCall 500 "mine" debounce busy in
  let cancelled := debouncedCancel called.1 called.2 in
  (timerArgs <$> timers called.2) = ["other"; "mine"]
  /\ timers cancelled.2 = timers busy.
Proof.
  assert (Hfresh : Forall (fun t : Timer string => (timerId t < nextTimerId busy)%positive)
                     (timers busy)) by (repeat constructor).
  destruct (debounce_own_timer_only 500 "mine" debounce busy Hfresh)
    as (Hcall & _ & Hcancel & _).
  cbn zeta. split.
  - rewrite Hcall. reflexivity.
  - rewrite Hcancel. reflexivity.
Defined.

(** X8, run: the hook that was asked for 42 is torn down; the timer is
    gone and 500 ms later nothing has been written. *)
Lemma teardown_drops_pending_witness :
  UrlState.timersOk requested42
  /\ (let c' := UrlState.effectCleanup requested42 in
      length (timers requested42.2) = 1 /\ timers c'.2 = []
      /\ historyCalls
           (UrlState.run strategyImpl QueryRef paramMethods "d" 500 false
              (UrlState.effectSetup 500 c'.1, c'.2)
              [UrlState.Advance 500; UrlState.Render PlainRef]).2 = []).
Proof.
  assert (Hok : UrlState.timersOk requested42) by (vm_compute; reflexivity).
  destruct (UrlStateTeardown.teardown_drops_pending strategyImpl QueryRef paramMethods
              "d" false requested42 Hok) as (Ht & _ & _ & _ & _ & _ & Hquiet & _).
  split; [exact Hok|]. cbn zeta. split; [vm_compute; reflexivity|].
  split; [exact Ht|].
  rewrite Hquiet; [vm_compute; reflexivity | repeat constructor].
Defined.

(** X9, run: a debounced [setValues] of [bx] is shown by the next
    render, next to the default of [by]; on a hook that also has a codec
    under the key [constructor], that key gets the member of
    [Object.prototype] of that name. *)
Lemma batch_pending_visible_witness :
  UrlStates.timersOk batchMounted
  /\ (exists c',
        UrlStates.setValues strategyImpl QueryRef batchParams 500 false [("bx", "5")]
          batchMounted = JsObject.Done c'
        /\ let r := UrlStates.useUrlStates strategyImpl QueryRef batchParams c' in
           r.1 !! "bx" = Some (JsObject.Val "5") /\ r.1 !! "by" = Some (JsObject.Val "0")
           /\ historyCalls r.2.2 = [])
  /\ (exists c',
        UrlStates.setValues strategyImpl QueryRef namedParams 500 false [("bx", "5")]
          batchMounted = JsObject.Done c'
        /\ let r := UrlStates.useUrlStates strategyImpl QueryRef namedParams c' in
           r.1 !! "bx" = Some (JsObject.Val "5")
           /\ r.1 !! "constructor" = Some (JsObject.Member "constructor")).
Proof.
  assert (Hok : UrlStates.timersOk batchMounted) by (vm_compute; reflexivity).
  assert (Hd : is_Some (UrlStates.debouncedWriteRef batchMounted.1))
    by (vm_compute; eexists; reflexivity).
  assert (Hnd : NoDup [("bx", "5")].*1) by (apply (bool_decide_unpack _); vm_compute; exact I).
  split; [exact Hok|]. split.
  - destruct (UrlStatesFacts.batch_pending_visible strategyImpl QueryRef batchParams 500
                false [("bx", "5")] batchMounted Hok Hd)
      as (c' & Hc' & Hnew & _ & _ & _ & Hh & _).
    + vm_compute. reflexivity.
    + constructor; [left; vm_compute; eexists; reflexivity | constructor].
    + exact Hnd.
    + exists c'. split; [exact Hc'|]. cbn zeta. split; [|split].
      * apply Hnew; [vm_compute; reflexivity | vm_compute; eexists; reflexivity].
      * injection Hc' as <-. vm_compute. reflexivity.
      * rewrite Hh. vm_compute. reflexivity.
  - destruct (UrlStatesFacts.batch_pending_visible strategyImpl QueryRef namedParams 500
                false [("bx", "5")] batchMounted Hok Hd)
      as (c' & Hc' & Hnew & _ & Hmember & _).
    + vm_compute. reflexivity.
    + constructor; [left; vm_compute; eexists; reflexivity | constructor].
    + exact Hnd.
    + exists c'. split; [exact Hc'|]. cbn zeta. split.
      * apply Hnew; [vm_compute; reflexivity | vm_compute; eexists; reflexivity].
      * apply Hmember.
        -- vm_compute. reflexivity.
        -- intros p Hp. vm_compute in Hp. discriminate Hp.
        -- vm_compute. eexists. reflexivity.
        -- vm_compute. reflexivity.
Defined.

(** X10, run: after an immediate write of [bx := 5] the render returns
    5 from the record, which it keeps, and decodes [by]; a codec under
    the key [constructor], with no record and the key absent from the
    URL, is not asked to decode: the value is [undefined]. *)
Lemma batch_render_settled_witness :
  UrlStates.pendingRef batchWritten.1 = None
  /\ href batchWritten.2 = "/?bx=5"
  /\ (let r := UrlStates.useUrlStates strategyImpl QueryRef batchParams batchWritten in
      r.1 !! "bx" = Some (JsObject.Val "5") /\ r.1 !! "by" = Some (JsObject.Val "0")
      /\ is_Some (UrlStates.lastWrittenRef r.2.1 !! "bx"))
  /\ (let r := UrlStates.useUrlStates strategyImpl QueryRef namedParams batchIdle in
      r.1 !! "constructor" = Some JsObject.Undefined
      /\ r.1 !! "bx" = Some (JsObject.Val "0")).
Proof.
  assert (Hp : UrlStates.pendingRef batchWritten.1 = None) by (vm_compute; reflexivity).
  destruct (UrlStatesFacts.batch_render_settled strategyImpl QueryRef batchParams
              batchWritten Hp) as (Hhit & _ & Hmiss & _).
  split; [exact Hp|]. split; [vm_compute; reflexivity|]. split.
  - cbn zeta.
    destruct (Hhit "bx" (defStringParam "0")
                {| UrlStates.encoded := Some "5"; UrlStates.decoded := "5" |})
      as [H1 H2]; try (vm_compute; reflexivity).
    destruct (Hmiss "by" (defStringParam "0")) as [H3 _].
    { vm_compute. reflexivity. }
    { vm_compute. reflexivity. }
    { left. vm_compute. reflexivity. }
    split; [exact H1|]. split; [rewrite H3; vm_compute; reflexivity|].
    rewrite H2. eexists. reflexivity.
  - assert (Hq : UrlStates.pendingRef batchIdle.1 = None) by (vm_compute; reflexivity).
    destruct (UrlStatesFacts.batch_render_settled strategyImpl QueryRef namedParams
                batchIdle Hq) as (_ & _ & Hplain & Hproto & _).
    cbn zeta. split.
    + apply (Hproto "constructor" (defStringParam "0")); vm_compute; reflexivity.
    + destruct (Hplain "bx" (defStringParam "0")) as [H1 _].
      { vm_compute. reflexivity. }
      { vm_compute. reflexivity. }
      { left. vm_compute. reflexivity. }
      rewrite H1. vm_compute. reflexivity.
Defined.

(** X11, run: [setValues({bx: 5})] and then [setValues({by: 7})] inside
    one window: the one commit writes [by] only. *)
Lemma batch_last_call_commits_witness :
  let c1 := JsObject.stateAfter
              (UrlStates.setValues strategyImpl QueryRef batchParams 500 false
                 [("bx", "5")] batchMounted) in
  exists c1',
    UrlStates.setValues strategyImpl QueryRef batchParams 500 false [("by", "7")] c1
    = JsObject.Done c1'
    /\ let c2 := UrlStates.advance strategyImpl QueryRef false 500 c1' in
       historyCalls c2.2 = [(false, "/?by=7")] /\ href c2.2 = "/?by=7"
       /\ UrlStates.pendingRef c2.1 = None.
Proof.
  assert (Hw : hasWindow batchMounted.2 = true) by (vm_compute; reflexivity).
  assert (Hok : UrlStates.timersOk batchMounted) by (vm_compute; reflexivity).
  assert (Hd : is_Some (UrlStates.debouncedWriteRef batchMounted.1))
    by (vm_compute; eexists; reflexivity).
  destruct (UrlStatesFacts.batch_last_call_commits strategyImpl QueryRef batchParams 500
              false [[("bx", "5")]] [("by", "7")] 500 batchMounted
              Hw Hok Hd ltac:(lia))
    as (c1' & Hc1' & _ & Hh & Hu & _ & _ & _ & Hp & _).
  - vm_compute. reflexivity.
  - constructor; [left; vm_compute; eexists; reflexivity | constructor].
  - apply (bool_decide_unpack _). vm_compute. exact I.
  - cbn zeta. cbn [fold_left] in Hc1'. exists c1'. split; [exact Hc1'|].
    split; [rewrite Hh; vm_compute; reflexivity|].
    split; [rewrite Hu; vm_compute; reflexivity|exact Hp].
Defined.


(** X15, run: after an immediate write of two tags the render returns
    them from the record; once the location holds them in the other
    order, the record is dropped and the list decoded; with a codec
    under the key [constructor] and no record the render throws. *)
Lemma multis_render_by_key_witness :
  href multisWritten.2 = "/?tags=a&tags=b"
  /\ (exists r,
        MultiUrlStatesRender.useMultiUrlStates strategyImpl QueryRef batchMultiParams
          multisWritten = Some r
        /\ r.1 !! "tags" = Some (JsObject.Val ["a"; "b"]))
  /\ (exists r,
        MultiUrlStatesRender.useMultiUrlStates strategyImpl QueryRef batchMultiParams
          (multisWritten.1, navigate "/?tags=b&tags=a" multisWritten.2) = Some r
        /\ r.1 !! "tags" = Some (JsObject.Val ["b"; "a"])
        /\ MultiUrlStates.lastWrittenRef r.2.1 !! "tags" = None)
  /\ MultiUrlStatesRender.useMultiUrlStates strategyImpl QueryRef namedMultiParams
       multisIdle = None.
Proof.
  assert (Hp : MultiUrlStates.pendingRef multisWritten.1 = None)
    by (vm_compute; reflexivity).
  assert (Hord : forall k, is_Some (batchMultiParams !! k) -> JsObject.inherited k = false).
  { intros k [p Hk]. unfold batchMultiParams in Hk.
    apply lookup_insert_Some in Hk as [[<- _]|[_ Hk]]; [vm_compute; reflexivity|].
    rewrite lookup_empty in Hk. discriminate Hk. }
  destruct (MultiUrlStatesMore.multis_render_by_key strategyImpl QueryRef
              batchMultiParams multisWritten) as (Hsettled & _).
  destruct (MultiUrlStatesMore.multis_render_by_key strategyImpl QueryRef
              batchMultiParams
              (multisWritten.1, navigate "/?tags=b&tags=a" multisWritten.2))
    as (Hmoved & _).
  destruct (MultiUrlStatesMore.multis_render_by_key strategyImpl QueryRef
              namedMultiParams multisIdle) as (_ & Hthrows & _).
  split; [vm_compute; reflexivity|]. split; [|split].
  - destruct (Hsettled Hp Hord) as (r & Hr & Hhit & _).
    exists r. split; [exact Hr|].
    apply (Hhit "tags" (multiStringParam [])
             {| MultiUrlStates.encoded := ["a"; "b"];
                MultiUrlStates.decoded := ["a"; "b"] |});
      vm_compute; reflexivity.
  - destruct (Hmoved Hp Hord) as (r & Hr & _ & Hmiss & _).
    exists r. split; [exact Hr|].
    destruct (Hmiss "tags" (multiStringParam [])) as [H1 H2].
    + vm_compute. reflexivity.
    + intros u Hu. vm_compute in Hu. injection Hu as <-. vm_compute. discriminate.
    + split; [rewrite H1; vm_compute; reflexivity|exact H2].
  - apply (Hthrows eq_refl "constructor").
    + vm_compute. eexists. reflexivity.
    + vm_compute. reflexivity.
    + vm_compute. reflexivity.
Defined.

(** X17, run: [-42] under the default [0] is written as ["-42"] and read
    back; ["-42px"] reads as [-42] too. *)
Lemma int_codecs_roundtrip_witness :
  Js.isSafeInteger (-42)%Z
  /\ encode (Params.intParam (Js.Int 0)) (Js.Int (-42)) = Some "-42"
  /\ decode (Params.intParam (Js.Int 0))
       (encode (Params.intParam (Js.Int 0)) (Js.Int (-42))) = Js.Int (-42)
  /\ decode (Params.intParam (Js.Int 0)) (Some "-42px") = Js.Int (-42).
Proof.
  assert (Hsafe : Js.isSafeInteger (-42)%Z) by (unfold Js.isSafeInteger; lia).
  destruct (ParamsFacts.int_codecs_roundtrip (Js.Int 0) (-42)%Z Hsafe)
    as (Hround & _ & Hrest & _).
  split; [exact Hsafe|]. split; [vm_compute; reflexivity|]. split; [exact Hround|].
  apply (Hrest "px"). reflexivity.
Defined.

(** X19, run: two tags under the default delimiter. *)
Lemma stringsParam_roundtrip_witness :
  let p := Params.stringsParam [] " " in
  encode p ["react"; "vue"] = Some "react vue"
  /\ decode p (encode p ["react"; "vue"]) = ["react"; "vue"]
  /\ decode p (encode p [EmptyString]) = [].
Proof.
  assert (Hinit : Forall (fun x => Js.hasChar " " x = false) (@nil string))
    by constructor.
  assert (Hvalues : Forall (fun x => Js.hasChar " " x = false) ["react"; "vue"])
    by (repeat constructor).
  destruct (ParamsFacts.stringsParam_roundtrip " " [] ["react"; "vue"] Hinit Hvalues)
    as (Hround & _ & Hedge & _).
  cbn zeta. split; [vm_compute; reflexivity|]. split.
  - apply Hround; [discriminate|]. intros [Hnil _]. discriminate Hnil.
  - rewrite Hedge. reflexivity.
Defined.

(** X20, run: offset 100 with page size 20, one of the sizes allowed. *)
Lemma paginationParam_roundtrip_witness :
  let p := Params.paginationParam (Js.Int 10) (Some [Js.Int 10; Js.Int 20; Js.Int 50]) in
  let page := {| Params.offset := Js.Int 100; Params.pageSize := Js.Int 20 |} in
  encode p page = Some "100 20" /\ decode p (encode p page) = page.
Proof.
  assert (Ha : Js.isSafeInteger 100%Z) by (unfold Js.isSafeInteger; lia).
  assert (Hb : Js.isSafeInteger 20%Z) by (unfold Js.isSafeInteger; lia).
  assert (Hvalid : forall valid,
            Some [Js.Int 10; Js.Int 20; Js.Int 50] = Some valid ->
            Js.includes valid (Js.Int 20) = true \/ Js.Int 10 = Js.Int 20).
  { intros valid [= <-]. left. reflexivity. }
  pose proof (ParamsFacts.paginationParam_roundtrip (Js.Int 10)
                (Some [Js.Int 10; Js.Int 20; Js.Int 50]) 100%Z 20%Z Ha Hb Hvalid)
    as Hround.
  cbn zeta in *. split; [vm_compute; reflexivity|exact Hround].
Defined.

(** X22, run: the metric codes of the demo page. *)
Lemma codeParam_roundtrip_witness :
  let codeMap := Params.Tuples [("Rides", "r"); ("Minutes", "m")] in
  let p := Params.codeParam "Rides" codeMap in
  encode p "Minutes" = Some "m" /\ decode p (encode p "Minutes") = "Minutes"
  /\ decode p (Some "x") = "Rides".
Proof.
  assert (Hv : NoDup (Params.normalizeCodeMap
                        (Params.Tuples [("Rides", "r"); ("Minutes", "m")])).*1)
    by (apply (bool_decide_unpack _); vm_compute; exact I).
  assert (Hc : NoDup (Params.normalizeCodeMap
                        (Params.Tuples [("Rides", "r"); ("Minutes", "m")])).*2)
    by (apply (bool_decide_unpack _); vm_compute; exact I).
  destruct (ParamsFacts.codeParam_roundtrip "Rides"
              (Params.Tuples [("Rides", "r"); ("Minutes", "m")]) Hv Hc)
    as (Hround & _).
  cbn zeta. destruct (Hround "Minutes" "m") as [H1 H2].
  { apply (bool_decide_unpack _). vm_compute. exact I. }
  split; [apply H2; discriminate|]. split; [exact H1|]. vm_compute. reflexivity.
Defined.

(** X23, run: two of the three regions are written as ["nj"] and read
    back; all three, in another order, are left out and read back in
    the order of the full list. *)
Lemma codesParam_roundtrip_witness :
  let p := Params.codesParam ["NYC"; "JC"; "HOB"] regionCodes EmptyString in
  encode p ["NYC"; "JC"] = Some "nj"
  /\ decode p (Some "nj") = ["NYC"; "JC"]
  /\ encode p ["HOB"; "NYC"; "JC"] = None
  /\ decode p (encode p ["HOB"; "NYC"; "JC"]) = ["NYC"; "JC"; "HOB"].
Proof.
  assert (Hv : NoDup (Params.normalizeCodeMap regionCodes).*1)
    by (apply (bool_decide_unpack _); vm_compute; exact I).
  assert (Hc : NoDup (Params.normalizeCodeMap regionCodes).*2)
    by (apply (bool_decide_unpack _); vm_compute; exact I).
  assert (Hone : Forall (fun c => String.length c = 1)
                   (Params.normalizeCodeMap regionCodes).*2)
    by (repeat constructor).
  assert (Hall : Forall (fun v => v ∈ (Params.normalizeCodeMap regionCodes).*1)
                   ["NYC"; "JC"]).
  { repeat constructor; apply (bool_decide_unpack _); vm_compute; exact I. }
  destruct (ParamsFacts.codesParam_roundtrip ["NYC"; "JC"; "HOB"] regionCodes
              ["NYC"; "JC"] Hv Hc Hone Hall) as (Hround & _).
  cbn zeta. split; [vm_compute; reflexivity|].
  split; [apply Hround; vm_compute; reflexivity|].
  split; vm_compute; reflexivity.
Defined.

(** X25, run: [setValues({bx: "5", zz: "7"})] on a hook configured for
    ["bx"] and ["by"], and [setValues({tags: ["a", "b"], zz: ["x"]})] on
    one configured for ["tags"]: ["zz"] reaches neither the causality
    records nor the location, and the configured key is committed in one
    history call. *)
Lemma unconfigured_ordinary_keys_skipped_witness :
  (exists c',
     unknownKeyCall = JsObject.Done c'
     /\ UrlStates.lastWrittenRef c'.1 !! "zz" = None
     /\ UrlStates.lastWrittenRef c'.1 !! "bx"
        = Some {| UrlStates.encoded := Some "5"; UrlStates.decoded := "5" |}
     /\ historyCalls c'.2 = [(false, "/?bx=5")] /\ href c'.2 = "/?bx=5")
  /\ (exists c',
        multisUnknownKeyCall = JsObject.Done c'
        /\ MultiUrlStates.lastWrittenRef c'.1 !! "zz" = None
        /\ MultiUrlStates.lastWrittenRef c'.1 !! "tags"
           = Some {| MultiUrlStates.encoded := ["a"; "b"];
                     MultiUrlStates.decoded := ["a"; "b"] |}
        /\ historyCalls c'.2 = [(false, "/?tags=a&tags=b")]
        /\ href c'.2 = "/?tags=a&tags=b").
Proof.
  destruct (unconfigured_ordinary_keys_skipped strategyImpl QueryRef 0 false batchParams
              batchMultiParams) as [Hs Hm].
  split.
  - destruct (Hs [("bx", "5"); ("zz", "7")] batchIdle)
      as (c' & Hc' & Hskip & Hkeep & Hnow & _).
    + vm_compute. reflexivity.
    + constructor; [left; vm_compute; eexists; reflexivity|].
      constructor; [right; vm_compute; reflexivity | constructor].
    + apply (bool_decide_unpack _). vm_compute. exact I.
    + exists c'. split; [exact Hc'|].
      destruct (Hskip "zz") as (_ & E2 & _); [vm_compute; reflexivity|].
      destruct (Hkeep "bx" (defStringParam "0") "5") as (_ & E3 & _);
        [vm_compute; reflexivity | vm_compute; reflexivity |].
      destruct Hnow as (E4 & E5 & _); [reflexivity | reflexivity |].
      split; [rewrite E2; reflexivity|]. split; [exact E3|].
      split; [rewrite E4; vm_compute; reflexivity | rewrite E5; vm_compute; reflexivity].
  - destruct (Hm [("tags", ["a"; "b"]); ("zz", ["x"])] multisIdle)
      as (c' & Hc' & Hskip & Hkeep & Hnow & _).
    + vm_compute. reflexivity.
    + constructor; [left; vm_compute; eexists; reflexivity|].
      constructor; [right; vm_compute; reflexivity | constructor].
    + apply (bool_decide_unpack _). vm_compute. exact I.
    + exists c'. split; [exact Hc'|].
      destruct (Hskip "zz") as (_ & E2 & _); [vm_compute; reflexivity|].
      destruct (Hkeep "tags" (multiStringParam []) ["a"; "b"]) as (_ & E3 & _);
        [vm_compute; reflexivity | vm_compute; reflexivity |].
      destruct Hnow as (E4 & E5 & _); [reflexivity | reflexivity |].
      split; [rewrite E2; reflexivity|]. split; [exact E3|].
      split; [rewrite E4; vm_compute; reflexivity | rewrite E5; vm_compute; reflexivity].
Defined.

End MoreScenarioFacts.
